(** * Mines: a shallow embedding of [mines.py]

    The development follows the source file top-down:

    - [PyFloat]: the Python [float] operations the game uses, as IEEE-754
      binary64 arithmetic over the standard library's [spec_float]
      ([SFmul], [SFdiv], rounding to nearest even), with Python's
      exceptions ([ZeroDivisionError], [OverflowError], ...) as error
      results;
    - the constants and [calculate_multiplier];
    - [MineTile], [MinesView] and the callbacks of the view
      ([process_tile_click], [_handle_victory], [_process_cashout],
      [exit_callback], [on_timeout]) in a state-and-exception monad that
      also logs every call to the economy system and to the statistics
      recorder;
    - the slash command [mines], [MinesCountModal.callback] and
      [start_game];
    - [MinesGame] with [cog_unload], and [load_extensions] of [luna.py].

    Presentation calls (embeds, message edits, deferred responses, emoji and
    button styles) neither read nor write the state modelled here and are
    left out; external calls are taken to return normally. *)

From Stdlib Require Import ZArith Lia Bool SpecFloat String Ascii.
From stdpp Require Import base option list gmap.

Open Scope Z_scope.

(* ===================================================================== *)
(** * Exceptions and results *)
(* ===================================================================== *)

Inductive exn :=
  | ZeroDivisionError
  | OverflowError
  | ValueError
  | IndexError.

Inductive result (A : Type) :=
  | Ok (a : A)
  | Raise (e : exn).
Arguments Ok {A} a.
Arguments Raise {A} e.

Definition rbind {A B} (r : result A) (k : A -> result B) : result B :=
  match r with
  | Ok a => k a
  | Raise e => Raise e
  end.

Declare Scope result_scope.
Delimit Scope result_scope with res.
Notation "'let?' x ':=' r 'in' k" := (rbind r (fun x => k))
  (at level 10, x name, r at level 100, k at level 200) : result_scope.

(* ===================================================================== *)
(** * Python floats *)
(* ===================================================================== *)

Module PyFloat.

(** A Python [float] is a binary64 value: 53 bits of precision, exponents
    of the infinities at 1024. *)
Definition float : Type := spec_float.
Definition prec : Z := 53.
Definition emax : Z := 1024.

(** An integer as an (unnormalised) operand of the exact operations. *)
Definition raw (n : Z) : float :=
  match n with
  | Z0 => S754_zero false
  | Zpos p => S754_finite false p 0
  | Zneg p => S754_finite true p 0
  end.

Definition finite_or_overflow (f : float) : result float :=
  match f with
  | S754_infinity _ => Raise OverflowError
  | _ => Ok f
  end.

(** [float(n)]: the nearest double; too large an [int] raises. *)
Definition of_int (n : Z) : result float :=
  finite_or_overflow (binary_normalize prec emax n 0 false).

(** A decimal literal [digits * 10^-scale], read as the nearest double. *)
Definition decimal (digits : Z) (scale : Z) : float :=
  SFdiv prec emax (raw digits) (raw (10 ^ scale)).

(** [a / b] on two [int]s: the correctly rounded quotient. *)
Definition int_truediv (a b : Z) : result float :=
  if b =? 0 then Raise ZeroDivisionError
  else finite_or_overflow (SFdiv prec emax (raw a) (raw b)).

(** [x * y] on floats. *)
Definition mul (x y : float) : float := SFmul prec emax x y.

(** [n * x] with [n] an [int]: the int is converted first. *)
Definition int_mul (n : Z) (x : float) : result float :=
  (let? fn := of_int n in Ok (mul fn x))%res.

Definition ltb (x y : float) : bool := SFltb x y.
Definition leb (x y : float) : bool := SFleb x y.

(** [min(x, y)]: the first argument unless the second is smaller. *)
Definition min (x y : float) : float := if ltb y x then y else x.

(** [base ** k] with [k] an [int].  The platform's [pow] is taken to be
    correctly rounded: the exact power, rounded once.  A result out of
    range raises [OverflowError], a zero base with a negative exponent
    [ZeroDivisionError]. *)
Definition pow_int (base : float) (k : Z) : result float :=
  match k with
  | Z0 => Ok (decimal 10 1)
  | Zpos n =>
      match base with
      | S754_finite s m e =>
          finite_or_overflow
            (binary_round prec emax (s && Z.odd (Zpos n)) (m ^ n)%positive (e * Zpos n))
      | S754_zero s => Ok (S754_zero (s && Z.odd (Zpos n)))
      | S754_infinity s => Ok (S754_infinity (s && Z.odd (Zpos n)))
      | S754_nan => Ok S754_nan
      end
  | Zneg n =>
      match base with
      | S754_finite s m e =>
          finite_or_overflow
            (SFdiv prec emax (raw 1)
               (S754_finite (s && Z.odd (Zpos n)) (m ^ n)%positive (e * Zpos n)))
      | S754_zero _ => Raise ZeroDivisionError
      | S754_infinity s => Ok (S754_zero (s && Z.odd (Zpos n)))
      | S754_nan => Ok S754_nan
      end
  end.

(** [int(x)]: truncation towards zero. *)
Definition to_int (x : float) : result Z :=
  match x with
  | S754_zero _ => Ok 0
  | S754_finite s m e =>
      let a := if 0 <=? e then Zpos m * 2 ^ e else Zpos m / 2 ^ (- e) in
      Ok (if s then - a else a)
  | S754_infinity _ => Raise OverflowError
  | S754_nan => Raise ValueError
  end.

(** [within_ulps n x num den]: the positive double [x = m * 2^e],
    [e <= 0], lies less than [n] units in its last place from the
    rational [num / den]. *)
Definition within_ulps (n : Z) (x : float) (num den : Z) : bool :=
  match x with
  | S754_finite false m e =>
      (e <=? 0) && (0 <? den)
      && (Z.abs (Zpos m * den - num * 2 ^ (- e)) <? n * den)
  | _ => false
  end.

(** The exact value of a double as a fraction (numerator, denominator)
    with a positive denominator; the infinities and NaN have none. *)
Definition exact (x : float) : Z * Z :=
  match x with
  | S754_finite s m e =>
      let n := if s then Zneg m else Zpos m in
      if 0 <=? e then (n * 2 ^ e, 1) else (n, 2 ^ (- e))
  | _ => (0, 1)
  end.

(** The same double, bit for bit. *)
Definition same (x y : float) : bool :=
  match x, y with
  | S754_zero s, S754_zero s' => Bool.eqb s s'
  | S754_infinity s, S754_infinity s' => Bool.eqb s s'
  | S754_nan, S754_nan => true
  | S754_finite s m e, S754_finite s' m' e' =>
      Bool.eqb s s' && (m =? m')%positive && (e =? e')
  | _, _ => false
  end.

End PyFloat.

Abbreviation float := PyFloat.float.

(* ===================================================================== *)
(** * Constants *)
(* ===================================================================== *)

Definition MIN_BET : Z := 10.
Definition MAX_BET : Z := 500000.
Definition DEFAULT_BET : Z := 50.

Definition GRID_WIDTH : Z := 3.
Definition GRID_HEIGHT : Z := 3.
Definition TOTAL_TILES : Z := GRID_WIDTH * GRID_HEIGHT.

Definition MAX_MINES : Z := TOTAL_TILES - 1.
Definition MIN_MINES : Z := 1.

(** The float literals of the module. *)
Definition f_1_0 : float := PyFloat.decimal 10 1.
Definition f_0_95 : float := PyFloat.decimal 95 2.
Definition f_1000_0 : float := PyFloat.decimal 10000 1.

(* ===================================================================== *)
(** * Game logic: [calculate_multiplier] *)
(* ===================================================================== *)

Definition calculate_multiplier (safe_tiles mines_count tiles_revealed : Z)
  : result float :=
  if tiles_revealed =? 0 then Ok f_1_0
  else
    (let? base := PyFloat.int_truediv TOTAL_TILES (TOTAL_TILES - mines_count) in
     let? multiplier := PyFloat.pow_int base tiles_revealed in
     let house_edge := f_0_95 in
     let multiplier := PyFloat.mul multiplier house_edge in
     let max_multiplier := f_1000_0 in
     let multiplier := PyFloat.min multiplier max_multiplier in
     Ok multiplier)%res.

(** [int(bet * multiplier)], the potential win after a safe reveal. *)
Definition payout (bet : Z) (multiplier : float) : result Z :=
  (let? p := PyFloat.int_mul bet multiplier in PyFloat.to_int p)%res.

(* ===================================================================== *)
(** * The outside world: economy system and statistics *)
(* ===================================================================== *)

(** The calls that leave the module: [economy_system.add_cash] and
    [economy_system.get_cash] (module [commands.economy], outside this
    file) and [record_mines_stats], whose body only writes the statistics
    row and a log line. *)
Inductive Call :=
  | add_cash (user_id amount : Z) (kind : string)
  | get_cash (user_id : Z)
  | record_mines_stats (user_id bet win mines_count tiles_revealed : Z).

(** The amount a call adds to the cash of [user]: the ledger's contract is
    that [add_cash] adds its (signed) amount and nothing else moves cash. *)
Definition cash_delta (user : Z) (c : Call) : Z :=
  match c with
  | add_cash u amount _ => if u =? user then amount else 0
  | _ => 0
  end.

Definition net_cash (user : Z) (calls : list Call) : Z :=
  foldr (fun c acc => cash_delta user c + acc) 0 calls.

Definition is_credit (c : Call) : bool :=
  match c with
  | add_cash _ amount _ => 0 <? amount
  | _ => false
  end.

Definition is_stats (c : Call) : bool :=
  match c with
  | record_mines_stats _ _ _ _ _ => true
  | _ => false
  end.

(* ===================================================================== *)
(** * UI components: [MineTile] *)
(* ===================================================================== *)

Record MineTile := {
  tile_x : nat;
  tile_y : nat;
  is_mine : bool;
  revealed : bool;
  disabled : bool
}.

(** [MineTile(x, y)] *)
Definition new_tile (x y : nat) : MineTile :=
  {| tile_x := x; tile_y := y; is_mine := false; revealed := false;
     disabled := false |}.

Definition mark_as_mine (t : MineTile) : MineTile :=
  {| tile_x := tile_x t; tile_y := tile_y t; is_mine := true;
     revealed := revealed t; disabled := disabled t |}.

(** [tile.reveal(is_boom)]: [is_boom] only selects the emoji. *)
Definition reveal (is_boom : bool) (t : MineTile) : MineTile :=
  {| tile_x := tile_x t; tile_y := tile_y t; is_mine := is_mine t;
     revealed := true; disabled := disabled t |}.

Definition disable (t : MineTile) : MineTile :=
  {| tile_x := tile_x t; tile_y := tile_y t; is_mine := is_mine t;
     revealed := revealed t; disabled := true |}.

(** The grid is a list of columns: [tiles[x][y]]. *)
Abbreviation Grid := (list (list MineTile)).

Definition tile_at (g : Grid) (x y : nat) : result MineTile :=
  match g !! x with
  | Some column =>
      match column !! y with
      | Some t => Ok t
      | None => Raise IndexError
      end
  | None => Raise IndexError
  end.

(** Mutation of the tile object [tiles[x][y]] in place. *)
Definition update_tile (f : MineTile -> MineTile) (x y : nat) (g : Grid) : Grid :=
  alter (alter f y) x g.

Definition for_each_tile (f : MineTile -> MineTile) (g : Grid) : Grid :=
  map (map f) g.

(** [_create_grid] *)
Definition _create_grid : Grid :=
  map (fun x => map (fun y => new_tile x y) (seq 0 (Z.to_nat GRID_HEIGHT)))
      (seq 0 (Z.to_nat GRID_WIDTH)).

(** [_setup_mines], with the outcome of [random.sample] as an argument. *)
Definition _setup_mines (mine_positions : list nat) (g : Grid) : Grid :=
  foldl (fun g pos =>
           let x := (pos mod Z.to_nat GRID_WIDTH)%nat in
           let y := (pos / Z.to_nat GRID_WIDTH)%nat in
           update_tile mark_as_mine x y g)
        g mine_positions.

(** What [random.sample(range(TOTAL_TILES), mines_count)] may return. *)
Definition is_sample (mines_count : Z) (mine_positions : list nat) : Prop :=
  NoDup mine_positions
  /\ Z.of_nat (length mine_positions) = mines_count
  /\ Forall (fun pos => (pos < Z.to_nat TOTAL_TILES)%nat) mine_positions.

Definition count_tiles (p : MineTile -> bool) (g : Grid) : Z :=
  Z.of_nat (length (filter (fun t => p t = true) (concat g))).

Definition is_safe (t : MineTile) : bool := negb (is_mine t).
Definition is_revealed_safe (t : MineTile) : bool :=
  negb (is_mine t) && revealed t.

(* ===================================================================== *)
(** * [MinesView] *)
(* ===================================================================== *)

Record MinesView := {
  user_id : Z;
  bet : Z;
  mines_count : Z;
  tiles : Grid;
  cashout_disabled : bool;
  exit_disabled : bool;
  game_over : bool;
  won : bool;
  tiles_revealed : Z;
  safe_tiles : Z;
  current_multiplier : float;
  potential_win : Z
}.

Definition set_tiles (g : Grid) (v : MinesView) : MinesView :=
  {| user_id := user_id v; bet := bet v; mines_count := mines_count v;
     tiles := g;
     cashout_disabled := cashout_disabled v; exit_disabled := exit_disabled v;
     game_over := game_over v; won := won v;
     tiles_revealed := tiles_revealed v; safe_tiles := safe_tiles v;
     current_multiplier := current_multiplier v;
     potential_win := potential_win v |}.

Definition set_controls_disabled (c e : bool) (v : MinesView) : MinesView :=
  {| user_id := user_id v; bet := bet v; mines_count := mines_count v;
     tiles := tiles v;
     cashout_disabled := c; exit_disabled := e;
     game_over := game_over v; won := won v;
     tiles_revealed := tiles_revealed v; safe_tiles := safe_tiles v;
     current_multiplier := current_multiplier v;
     potential_win := potential_win v |}.

Definition set_game_over (b : bool) (v : MinesView) : MinesView :=
  {| user_id := user_id v; bet := bet v; mines_count := mines_count v;
     tiles := tiles v;
     cashout_disabled := cashout_disabled v; exit_disabled := exit_disabled v;
     game_over := b; won := won v;
     tiles_revealed := tiles_revealed v; safe_tiles := safe_tiles v;
     current_multiplier := current_multiplier v;
     potential_win := potential_win v |}.

Definition set_won (b : bool) (v : MinesView) : MinesView :=
  {| user_id := user_id v; bet := bet v; mines_count := mines_count v;
     tiles := tiles v;
     cashout_disabled := cashout_disabled v; exit_disabled := exit_disabled v;
     game_over := game_over v; won := b;
     tiles_revealed := tiles_revealed v; safe_tiles := safe_tiles v;
     current_multiplier := current_multiplier v;
     potential_win := potential_win v |}.

Definition set_tiles_revealed (n : Z) (v : MinesView) : MinesView :=
  {| user_id := user_id v; bet := bet v; mines_count := mines_count v;
     tiles := tiles v;
     cashout_disabled := cashout_disabled v; exit_disabled := exit_disabled v;
     game_over := game_over v; won := won v;
     tiles_revealed := n; safe_tiles := safe_tiles v;
     current_multiplier := current_multiplier v;
     potential_win := potential_win v |}.

Definition set_current_multiplier (m : float) (v : MinesView) : MinesView :=
  {| user_id := user_id v; bet := bet v; mines_count := mines_count v;
     tiles := tiles v;
     cashout_disabled := cashout_disabled v; exit_disabled := exit_disabled v;
     game_over := game_over v; won := won v;
     tiles_revealed := tiles_revealed v; safe_tiles := safe_tiles v;
     current_multiplier := m;
     potential_win := potential_win v |}.

Definition set_potential_win (p : Z) (v : MinesView) : MinesView :=
  {| user_id := user_id v; bet := bet v; mines_count := mines_count v;
     tiles := tiles v;
     cashout_disabled := cashout_disabled v; exit_disabled := exit_disabled v;
     game_over := game_over v; won := won v;
     tiles_revealed := tiles_revealed v; safe_tiles := safe_tiles v;
     current_multiplier := current_multiplier v;
     potential_win := p |}.

(** [MinesView.__init__] *)
Definition new_view (user_id bet_amount mines_count : Z)
    (mine_positions : list nat) : MinesView :=
  {| user_id := user_id; bet := bet_amount; mines_count := mines_count;
     tiles := _setup_mines mine_positions _create_grid;
     cashout_disabled := false; exit_disabled := false;
     game_over := false; won := false;
     tiles_revealed := 0;
     safe_tiles := TOTAL_TILES - mines_count;
     current_multiplier := f_1_0;
     potential_win := bet_amount |}.

(* ===================================================================== *)
(** * The state of a running game and its monad *)
(* ===================================================================== *)

(** A logged call together with the value [game_over] had when the call was
    issued: what a callback interleaved at that [await] would observe. *)
Record Event := {
  ev_call : Call;
  ev_game_over : bool
}.

(** The view, the keys of the module-level [active_games] dict, and the
    calls issued so far, oldest first. *)
Record State := {
  view : MinesView;
  active_games : gset Z;
  log : list Event
}.

Definition M (A : Type) : Type := State -> result A * State.

Definition ret {A} (a : A) : M A := fun s => (Ok a, s).

Definition bind {A B} (m : M A) (k : A -> M B) : M B :=
  fun s =>
    match m s with
    | (Ok a, s') => k a s'
    | (Raise e, s') => (Raise e, s')
    end.

Declare Scope M_scope.
Delimit Scope M_scope with M.
Notation "x <- m ;; k" := (bind m (fun x => k))
  (at level 100, m at next level, right associativity) : M_scope.
Notation "m ;; k" := (bind m (fun _ => k))
  (at level 100, right associativity) : M_scope.

(** [self] *)
Definition self : M MinesView := fun s => (Ok (view s), s).

Definition modify (f : MinesView -> MinesView) : M unit :=
  fun s =>
    (Ok tt, {| view := f (view s); active_games := active_games s;
               log := log s |}).

(** A result of pure code: an exception propagates out of the callback and
    leaves the state as it is at that point. *)
Definition lift {A} (r : result A) : M A := fun s => (r, s).

Definition call (c : Call) : M unit :=
  fun s =>
    (Ok tt, {| view := view s; active_games := active_games s;
               log := log s ++ [{| ev_call := c;
                                   ev_game_over := game_over (view s) |}] |}).

(** [if str(self.user_id) in active_games: active_games.pop(...)] *)
Definition remove_from_active_games : M unit :=
  fun s =>
    (Ok tt, {| view := view s;
               active_games := active_games s ∖ {[ user_id (view s) ]};
               log := log s |}).

Definition run {A} (m : M A) (s : State) : State := snd (m s).

Definition calls_of (s : State) : list Call := map ev_call (log s).

(* ===================================================================== *)
(** * Database functions *)
(* ===================================================================== *)

(** The call [update_user_balance] issues: [add_cash] for a non-zero
    amount, a mere [get_cash] otherwise. *)
Definition update_user_balance_call (user_id amount : Z) : Call :=
  if 0 <? amount then add_cash user_id amount "mines_win"
  else if amount <? 0 then add_cash user_id amount "mines_bet"
  else get_cash user_id.

Definition update_user_balance (user_id amount : Z) : M unit :=
  call (update_user_balance_call user_id amount).

(* ===================================================================== *)
(** * The callbacks of [MinesView] *)
(* ===================================================================== *)

Definition _handle_victory : M unit :=
  (modify (set_game_over true);;
   modify (set_won true);;
   v <- self;;
   let final_payout := potential_win v in
   let final_payout := Z.min final_payout (bet v * 1000) in
   update_user_balance (user_id v) final_payout;;
   call (record_mines_stats (user_id v) (bet v) final_payout
           (mines_count v) (tiles_revealed v));;
   modify (fun v => set_controls_disabled true true
                      (set_tiles (for_each_tile disable (tiles v)) v));;
   remove_from_active_games)%M.

Definition process_tile_click (x y : nat) : M unit :=
  (v <- self;;
   if game_over v then ret tt
   else
     tile <- lift (tile_at (tiles v) x y);;
     if revealed tile then ret tt
     else if is_mine tile then
       modify (fun v => set_tiles (update_tile (reveal true) x y (tiles v)) v);;
       modify (fun v =>
         set_tiles (for_each_tile
                      (fun t => if is_mine t && negb (revealed t)
                                then reveal false t else t)
                      (tiles v)) v);;
       modify (set_game_over true);;
       modify (set_won false);;
       modify (fun v => set_tiles (for_each_tile disable (tiles v)) v);;
       v <- self;;
       call (record_mines_stats (user_id v) (bet v) 0
               (mines_count v) (tiles_revealed v));;
       remove_from_active_games
     else
       modify (fun v => set_tiles (update_tile (reveal false) x y (tiles v)) v);;
       modify (fun v => set_tiles_revealed (tiles_revealed v + 1) v);;
       v <- self;;
       m <- lift (calculate_multiplier (safe_tiles v) (mines_count v)
                    (tiles_revealed v));;
       modify (set_current_multiplier m);;
       p <- lift (payout (bet v) m);;
       modify (set_potential_win p);;
       v <- self;;
       if tiles_revealed v =? safe_tiles v then _handle_victory
       else ret tt)%M.

(** [timeout] is not read by the body; the optional [interaction] only
    selects how the message is edited. *)
Definition _process_cashout (timeout : bool) : M unit :=
  (v <- self;;
   if game_over v || (tiles_revealed v =? 0) then ret tt
   else
     let winnings := potential_win v in
     update_user_balance (user_id v) winnings;;
     call (record_mines_stats (user_id v) (bet v) winnings
             (mines_count v) (tiles_revealed v));;
     modify (set_game_over true);;
     modify (set_won true);;
     modify (fun v =>
       set_tiles (for_each_tile
                    (fun t => disable (if is_mine t && negb (revealed t)
                                       then reveal false t else t))
                    (tiles v)) v);;
     modify (set_controls_disabled true true);;
     remove_from_active_games)%M.

Definition cashout_callback : M unit := _process_cashout false.

Definition reveal_all (g : Grid) : Grid :=
  for_each_tile (fun t => disable (if revealed t then t else reveal false t)) g.

Definition exit_callback : M unit :=
  (v <- self;;
   (if (tiles_revealed v =? 0) && negb (game_over v)
    then update_user_balance (user_id v) (bet v)
    else ret tt);;
   modify (fun v => set_tiles (reveal_all (tiles v)) v);;
   modify (set_controls_disabled true true);;
   modify (set_game_over true);;
   remove_from_active_games)%M.

Definition on_timeout : M unit :=
  (v <- self;;
   if negb (game_over v) then
     (if 0 <? tiles_revealed v then _process_cashout true
      else if tiles_revealed v =? 0 then
        update_user_balance (user_id v) (bet v);;
        modify (fun v => set_tiles (reveal_all (tiles v)) v)
      else ret tt);;
     modify (set_game_over true);;
     remove_from_active_games
   else ret tt)%M.

(** The button callbacks and the timeout, as the transport layer fires
    them. *)
Inductive Action :=
  | Click (x y : nat)
  | Cashout
  | Exit
  | Timeout.

Definition perform (a : Action) : M unit :=
  match a with
  | Click x y => process_tile_click x y
  | Cashout => cashout_callback
  | Exit => exit_callback
  | Timeout => on_timeout
  end.

(** The state right after [MinesGame.setup] built the view: the bet passed
    the checks of the [mines] command, the mine count those of the modal. *)
Definition initial_state (user_id bet_amount mines_count : Z)
    (mine_positions : list nat) (games : gset Z) : State :=
  {| view := new_view user_id bet_amount mines_count mine_positions;
     active_games := games;
     log := [] |}.

(** Sessions reachable by any sequence of callbacks, in any order and
    whatever each of them returns. *)
Inductive reachable : State -> Prop :=
  | reachable_initial user_id bet_amount mines_count mine_positions games :
      MIN_BET <= bet_amount <= MAX_BET ->
      MIN_MINES <= mines_count <= MAX_MINES ->
      is_sample mines_count mine_positions ->
      reachable (initial_state user_id bet_amount mines_count mine_positions games)
  | reachable_step s a :
      reachable s ->
      reachable (run (perform a) s).

(* ===================================================================== *)
(** * The slash command, the modal and [start_game] *)
(* ===================================================================== *)

(** ASCII lower-casing, enough to decide [bet.lower() == "all"]. *)
Definition ascii_lower (c : ascii) : ascii :=
  let n := nat_of_ascii c in
  if (65 <=? n)%nat && (n <=? 90)%nat then ascii_of_nat (n + 32) else c.

Fixpoint lower (s : string) : string :=
  match s with
  | EmptyString => EmptyString
  | String c rest => String (ascii_lower c) (lower rest)
  end.

(** What [_parse_amount_shorthand] (module [commands.economy]) may do: return
    an amount, return [None], or raise. *)
Inductive parse_outcome :=
  | Parsed (amount : Z)
  | ParsedNone
  | ParseRaised.

(** What [int(self.mines_input.value)] may do. *)
Inductive int_outcome :=
  | IntValue (n : Z)
  | IntValueError.

Record MinesCountModal := {
  modal_user_id : Z;
  modal_bet_amount : Z
}.

(** The command layer sees the keys of [active_games] and issues calls. *)
Record Cog := {
  cog_active_games : gset Z;
  cog_calls : list Call
}.

Definition cog_call (c : Call) (w : Cog) : Cog :=
  {| cog_active_games := cog_active_games w; cog_calls := cog_calls w ++ [c] |}.

Section Command.

Variable _parse_amount_shorthand : string -> Z -> parse_outcome.

(** The amount the command goes on with, [None] when it answers "Please
    enter a valid bet amount" and returns. *)
Definition parse_bet (bet : string) (cash : Z) : option Z :=
  if String.eqb (lower bet) "all" then Some cash
  else
    match _parse_amount_shorthand bet cash with
    | Parsed amount => Some amount
    | ParsedNone => None
    | ParseRaised => Some DEFAULT_BET
    end.

(** [MinesCog.mines].  [cash] is the answer of [get_cash]; [modal_sent]
    tells whether [send_modal] returned normally. *)
Definition mines (user_id : Z) (bet : string) (cash : Z) (modal_sent : bool)
    (w : Cog) : option MinesCountModal * Cog :=
  if decide (user_id ∈ cog_active_games w) then (None, w)
  else
    let w := cog_call (get_cash user_id) w in
    match parse_bet bet cash with
    | None => (None, w)
    | Some bet_amount =>
        if bet_amount <? MIN_BET then (None, w)
        else if MAX_BET <? bet_amount then (None, w)
        else if cash <? bet_amount then (None, w)
        else
          let w := cog_call (add_cash user_id (- bet_amount) "mines_bet") w in
          if modal_sent then
            (Some {| modal_user_id := user_id;
                     modal_bet_amount := bet_amount |},
             {| cog_active_games := {[ user_id ]} ∪ cog_active_games w;
                cog_calls := cog_calls w |})
          else
            (None, cog_call (add_cash user_id bet_amount "mines_refund") w)
    end.

(** [MinesCog.start_game] *)
Definition start_game (user_id bet_amount mines_count : Z)
    (mine_positions : list nat) (w : Cog) : option MinesView * Cog :=
  if decide (user_id ∉ cog_active_games w) then
    (None, cog_call (add_cash user_id bet_amount "mines_refund") w)
  else
    (Some (new_view user_id bet_amount mines_count mine_positions), w).

(** [MinesCountModal.callback] *)
Definition modal_callback (modal : MinesCountModal) (value : int_outcome)
    (mine_positions : list nat) (w : Cog) : option MinesView * Cog :=
  match value with
  | IntValue mines_count =>
      if (mines_count <? MIN_MINES) || (MAX_MINES <? mines_count) then
        (None, cog_call (update_user_balance_call (modal_user_id modal)
                           (modal_bet_amount modal)) w)
      else
        start_game (modal_user_id modal) (modal_bet_amount modal)
          mines_count mine_positions w
  | IntValueError =>
      (None, cog_call (update_user_balance_call (modal_user_id modal)
                         (modal_bet_amount modal)) w)
  end.

End Command.

(* ===================================================================== *)
(** * [MinesGame] and [cog_unload] *)
(* ===================================================================== *)

(** A [MinesGame]: [view] stays [None] until [setup] has run. *)
Record MinesGame := {
  author_id : Z;
  game_view : option MinesView;
  game_bet_amount : Z
}.

(** [MinesGame.__init__] *)
Definition new_game (author_id : Z) : MinesGame :=
  {| author_id := author_id; game_view := None; game_bet_amount := 0 |}.

(** [MinesGame.setup] *)
Definition setup (bet_amount mines_count : Z) (mine_positions : list nat)
    (game : MinesGame) : MinesGame :=
  {| author_id := author_id game;
     game_view := Some (new_view (author_id game) bet_amount mines_count
                          mine_positions);
     game_bet_amount := bet_amount |}.

(** [MinesCog.cog_unload] over [list(active_games.items())], in the order
    of the dict: the calls of the [update_user_balance] tasks it creates.
    It writes neither the views nor [active_games]. *)
Definition cog_unload (items : list (Z * MinesGame)) : list Call :=
  flat_map
    (fun item =>
       match game_view item.2 with
       | Some v =>
           if negb (game_over v) && (tiles_revealed v =? 0)
           then [update_user_balance_call item.1 (game_bet_amount item.2)]
           else []
       | None => []
       end)
    items.

(* ===================================================================== *)
(** * [luna.py]: loading the extensions *)
(* ===================================================================== *)

(** [s.endswith(suffix)] *)
Definition endswith (s suffix : string) : bool :=
  (String.length suffix <=? String.length s)%nat
  && String.eqb (substring (String.length s - String.length suffix)
                   (String.length suffix) s)
                suffix.

(** [s[:-n]] for a positive [n] *)
Definition drop_last (n : nat) (s : string) : string :=
  substring 0 (String.length s - n) s.

(** One turn of the loop of [load_extensions] over a listed file name.
    [load_extension loaded extension] tells whether [bot.load_extension]
    returns normally, given the extensions loaded before. *)
Definition load_step (load_extension : list string -> string -> bool)
    (state : nat * nat * list string) (filename : string)
  : nat * nat * list string :=
  let commands_dir := "commands"%string in
  let '(loaded_count, failed_count, loaded) := state in
  if endswith filename ".py" && negb (String.eqb filename "__init__.py")
  then
    let extension := (commands_dir ++ "." ++ drop_last 3 filename)%string in
    if load_extension loaded extension
    then (S loaded_count, failed_count, loaded ++ [extension])
    else (loaded_count, S failed_count, loaded)
  else (loaded_count, failed_count, loaded).

(** [load_extensions], with the answer of [os.listdir] as an argument. *)
Definition load_extensions (listing : list string)
    (load_extension : list string -> string -> bool) : nat * nat :=
  let '(loaded_count, failed_count, _) :=
    foldl (load_step load_extension) (0%nat, 0%nat, []) listing in
  (loaded_count, failed_count).

(* ===================================================================== *)
(** * The payout calculator as the specification words it *)
(* ===================================================================== *)

(** [multiplier(totalTiles, hazardCount, tilesRevealed)] in exact
    arithmetic, as a fraction (numerator, denominator): 1 at zero reveals,
    otherwise [min(base^tilesRevealed * 0.95, 1000)] with
    [base = totalTiles / (totalTiles - hazardCount)]. *)
Definition spec_multiplier (totalTiles hazardCount tilesRevealed : Z) : Z * Z :=
  if tilesRevealed =? 0 then (1, 1)
  else
    let raw := (95 * totalTiles ^ tilesRevealed,
                100 * (totalTiles - hazardCount) ^ tilesRevealed) in
    if 1000 * raw.2 <=? raw.1 then (1000, 1) else raw.

(** [payout(bet, multiplier) = floor(bet * multiplier)], the multiplier a
    fraction. *)
Definition spec_payout (bet : Z) (multiplier : Z * Z) : Z :=
  (bet * multiplier.1) / multiplier.2.

(** All pairs (mine count, tiles revealed) a game can be in. *)
Definition configurations : list (Z * Z) :=
  m ← seqZ MIN_MINES MAX_MINES;
  k ← seqZ 0 (TOTAL_TILES - m + 1);
  [(m, k)].

(* ===================================================================== *)
(** * Derived notions used by the statements *)
(* ===================================================================== *)

Definition count_list (p : MineTile -> bool) (l : list MineTile) : nat :=
  length (filter (fun t => p t = true) l).

(** What a valid configuration (mine count, tiles revealed) must satisfy:
    the multiplier is a normal double in [1, 32), between 1.0 and 1000.0
    and not below the multiplier one tile earlier. *)
Definition config_ok (c : Z * Z) : bool :=
  match calculate_multiplier 0 c.1 c.2 with
  | Ok (S754_finite false mm em as m) =>
      (Zpos (digits2_pos mm) =? 53) && (-52 <=? em) && (em <=? -48)
      && PyFloat.leb f_1_0 m && PyFloat.leb m f_1000_0
      && (if c.2 =? 0 then true
          else match calculate_multiplier 0 c.1 (c.2 - 1) with
               | Ok previous => PyFloat.leb previous m
               | Raise _ => false
               end)
  | _ => false
  end.

(** The code's double lies within [n] units in the last place of the
    specification's multiplier, and is the double 1000.0 where the
    specification's formula is capped. *)
Definition close_to_spec (n : Z) (c : Z * Z) : bool :=
  match calculate_multiplier (TOTAL_TILES - c.1) c.1 c.2 with
  | Ok m =>
      PyFloat.within_ulps n m (spec_multiplier TOTAL_TILES c.1 c.2).1
        (spec_multiplier TOTAL_TILES c.1 c.2).2
      && ((c.2 =? 0)
          || negb (1000 * (100 * (TOTAL_TILES - c.1) ^ c.2)
                   <=? 95 * TOTAL_TILES ^ c.2)
          || PyFloat.same m f_1000_0)
  | Raise _ => false
  end.

(** The credits and the statistics records among the calls of a session. *)
Definition credits (s : State) : list Call :=
  filter (fun c => is_credit c = true) (calls_of s).

Definition stats_records (s : State) : list Call :=
  filter (fun c => is_stats c = true) (calls_of s).

(** The state after a sequence of callbacks. *)
Definition after (a : list Action) (s : State) : State :=
  foldl (fun s a => run (perform a) s) s a.

Definition multiplier_after (a : list Action) (s : State) : float :=
  current_multiplier (view (after a s)).

Definition potential_win_after (a : list Action) (s : State) : Z :=
  potential_win (view (after a s)).

(** Fixtures: bet 100 on the 3x3 grid, three mines in the row [y = 0]; and
    eight mines, the only safe tile at (2, 2). *)
Definition example_session : State :=
  initial_state 1 100 3 [0; 1; 2]%nat {[ 1 ]}.

Definition single_safe_session : State :=
  initial_state 1 100 8 [0; 1; 2; 3; 4; 5; 6; 7]%nat {[ 1 ]}.

(** Two more fixtures: bet 100 with four mines (positions 0 to 3), and
    bet 200 with the three mines of [example_session]. *)
Definition four_mine_session : State :=
  initial_state 1 100 4 [0; 1; 2; 3]%nat {[ 1 ]}.

Definition double_bet_session : State :=
  initial_state 1 200 3 [0; 1; 2]%nat {[ 1 ]}.



(** The invariant of a session: the bet and the mine count are the
    validated ones, the grid holds [safe_tiles] safe tiles, [tiles_revealed]
    counts the revealed safe tiles while the game runs and is below
    [safe_tiles] then, multiplier and potential win are those of
    [tiles_revealed], and the ledger was credited at most once, never more
    than 1000 times the bet, and not at all while the game runs. *)
Record session_inv (s : State) : Prop := {
  inv_bet : MIN_BET <= bet (view s) <= MAX_BET;
  inv_mines : MIN_MINES <= mines_count (view s) <= MAX_MINES;
  inv_safe_tiles : safe_tiles (view s) = TOTAL_TILES - mines_count (view s);
  inv_grid : count_tiles is_safe (tiles (view s)) = safe_tiles (view s);
  inv_revealed :
    0 <= tiles_revealed (view s)
      <= count_tiles is_revealed_safe (tiles (view s));
  inv_active :
    game_over (view s) = false ->
    tiles_revealed (view s) = count_tiles is_revealed_safe (tiles (view s))
    /\ tiles_revealed (view s) < safe_tiles (view s)
    /\ credits s = [];
  inv_multiplier :
    calculate_multiplier (safe_tiles (view s)) (mines_count (view s))
      (tiles_revealed (view s)) = Ok (current_multiplier (view s));
  inv_potential_win :
    payout (bet (view s)) (current_multiplier (view s))
    = Ok (potential_win (view s));
  inv_win_bounds : 0 < potential_win (view s) <= bet (view s) * 1000;
  inv_credits :
    Forall (fun c => forall u a k, c = add_cash u a k -> a <= bet (view s) * 1000)
           (calls_of s);
  inv_single_credit : (length (credits s) <= 1)%nat
}.

(** The game object of a running session, as [MinesGame.setup] left it and
    with the view in its current state. *)
Definition game_of (s : State) : MinesGame :=
  {| author_id := user_id (view s);
     game_view := Some (view s);
     game_bet_amount := bet (view s) |}.

(** Lines 114 to 119 of [calculate_multiplier]: the multiplier before the
    cap. *)
Definition uncapped_multiplier (mines_count tiles_revealed : Z) : result float :=
  (let? base := PyFloat.int_truediv TOTAL_TILES (TOTAL_TILES - mines_count) in
   let? multiplier := PyFloat.pow_int base tiles_revealed in
   Ok (PyFloat.mul multiplier f_0_95))%res.

(** Every mine count from 0 to [TOTAL_TILES] with every positive number of
    revealed tiles up to [TOTAL_TILES], validated or not. *)
Definition unvalidated_configurations : list (Z * Z) :=
  m ← seqZ 0 (TOTAL_TILES + 1);
  k ← seqZ 1 TOTAL_TILES;
  [(m, k)].

(** [calculate_multiplier] raises exactly for [TOTAL_TILES] mines, and then
    [ZeroDivisionError]; otherwise it returns a positive double. *)
Definition division_ok (c : Z * Z) : bool :=
  match calculate_multiplier 0 c.1 c.2 with
  | Raise ZeroDivisionError => c.1 =? TOTAL_TILES
  | Raise _ => false
  | Ok m => (c.1 <? TOTAL_TILES) && PyFloat.ltb (S754_zero false) m
  end.

(** The cap of 1000.0 leaves the multiplier of a configuration as it is,
    which is below 26. *)
Definition cap_idle (c : Z * Z) : bool :=
  (c.2 =? 0)
  || match uncapped_multiplier c.1 c.2 with
     | Ok m =>
         negb (PyFloat.ltb f_1000_0 m) && PyFloat.ltb m (PyFloat.decimal 26 0)
     | Raise _ => false
     end.

(** The multiplier of a configuration exceeds that of one tile fewer and
    that of one mine fewer. *)
Definition strictly_above (c : Z * Z) : bool :=
  match calculate_multiplier 0 c.1 c.2 with
  | Ok m =>
      (if c.2 =? 0 then true
       else match calculate_multiplier 0 c.1 (c.2 - 1) with
            | Ok previous => PyFloat.ltb previous m
            | Raise _ => false
            end)
      && (if (c.2 =? 0) || (c.1 =? MIN_MINES) then true
          else match calculate_multiplier 0 (c.1 - 1) c.2 with
               | Ok fewer => PyFloat.ltb fewer m
               | Raise _ => false
               end)
  | Raise _ => false
  end.

(** The files [load_extensions] takes for extensions. *)
Definition extension_file (filename : string) : bool :=
  endswith filename ".py" && negb (String.eqb filename "__init__.py").

(** The coordinates written on the tiles of a grid. *)
Definition coordinates (g : Grid) : list (list (nat * nat)) :=
  map (map (fun t => (tile_x t, tile_y t))) g.

(** A function on tiles that leaves the coordinates alone. *)
Definition keeps_coordinates (f : MineTile -> MineTile) : Prop :=
  forall t, (tile_x (f t), tile_y (f t)) = (tile_x t, tile_y t).

(** What may happen to a tile: it stays where it is and what it is, and
    may get revealed and disabled, never the reverse. *)
Definition tile_evolves (t t' : MineTile) : Prop :=
  tile_x t' = tile_x t /\ tile_y t' = tile_y t /\ is_mine t' = is_mine t
  /\ (revealed t = true -> revealed t' = true)
  /\ (disabled t = true -> disabled t' = true).

Definition grid_evolves (g g' : Grid) : Prop :=
  forall x y t,
    tile_at g x y = Ok t ->
    exists t', tile_at g' x y = Ok t' /\ tile_evolves t t'.

(** The ways a finished game can have settled: a win by one credit of
    the potential win and its record; otherwise nothing at all (an exit
    after a reveal), the refund of the bet, or the record of a loss. *)
Definition settlement (v : MinesView) : list (list Call) :=
  if won v then
    [[add_cash (user_id v) (potential_win v) "mines_win";
      record_mines_stats (user_id v) (bet v) (potential_win v)
        (mines_count v) (tiles_revealed v)]]
  else
    [[];
     [add_cash (user_id v) (bet v) "mines_win"];
     [record_mines_stats (user_id v) (bet v) 0 (mines_count v)
        (tiles_revealed v)]].

(** The board and the books of a session: every tile sits at its
    coordinates in a grid of [GRID_WIDTH] columns of [GRID_HEIGHT] tiles; a
    finished game has every tile disabled and every mine revealed, unless
    the board was cleared; a running game has issued no call; a finished
    one has settled in one of the four ways. *)
Record board_inv (s : State) : Prop := {
  inv_shape :
    coordinates (tiles (view s))
    = map (fun x => map (fun y => (x, y)) (seq 0 (Z.to_nat GRID_HEIGHT)))
          (seq 0 (Z.to_nat GRID_WIDTH));
  inv_disabled :
    game_over (view s) = true ->
    Forall (Forall (fun t => disabled t = true)) (tiles (view s));
  inv_mines_shown :
    game_over (view s) = true ->
    Forall (Forall (fun t => is_mine t = true -> revealed t = true))
           (tiles (view s))
    \/ (won (view s) = true /\ tiles_revealed (view s) = safe_tiles (view s));
  inv_running :
    game_over (view s) = false -> calls_of s = [] /\ won (view s) = false;
  inv_settled :
    game_over (view s) = true -> calls_of s ∈ settlement (view s)
}.

(** The clicks the tile buttons can send: [start_game] gives each tile the
    callback of its own coordinates. *)
Definition on_grid (a : Action) : Prop :=
  match a with
  | Click x y => (x < Z.to_nat GRID_WIDTH)%nat /\ (y < Z.to_nat GRID_HEIGHT)%nat
  | _ => True
  end.

(* ===================================================================== *)
(** * Proof automation *)
(* ===================================================================== *)

(** Unfold the monad and reduce the record projections. *)
Ltac msimpl :=
  unfold update_user_balance in *;
  unfold run, bind, self, lift, modify, call, ret, remove_from_active_games in *;
  cbn [orb andb negb fst snd view active_games log user_id bet
       mines_count tiles cashout_disabled exit_disabled game_over won
       tiles_revealed safe_tiles current_multiplier potential_win set_tiles
       set_controls_disabled set_game_over set_won set_tiles_revealed
       set_current_multiplier set_potential_win ev_call ev_game_over] in *.

(** [lia] without the hypotheses on list lengths it cannot digest. *)
Ltac arith :=
  repeat match goal with
         | H : (length _ <= _)%nat |- _ => clear H
         end;
  lia.

(** Case analysis on every test of a callback. *)
Ltac callback_cases :=
  repeat (msimpl;
          match goal with
          | |- context [if ?b then _ else _] => destruct b eqn:?
          | |- context [match ?r with Ok _ => _ | Raise _ => _ end] =>
              destruct r eqn:?
          end);
  msimpl.

(** Unfold a callback down to the monad. *)
Ltac unfold_callbacks :=
  cbn [perform];
  unfold on_timeout, cashout_callback, exit_callback, process_tile_click;
  unfold _process_cashout, _handle_victory.

(** Reduce the projections of the state and of the view. *)
Ltac fields :=
  cbn [fst snd view log active_games user_id bet mines_count tiles
       cashout_disabled exit_disabled game_over won tiles_revealed
       safe_tiles current_multiplier potential_win set_tiles
       set_controls_disabled set_game_over set_won set_tiles_revealed
       set_current_multiplier set_potential_win ev_call ev_game_over].

(* ===================================================================== *)
(** * Binary64 rounding *)
(* ===================================================================== *)

Section Binary64.

Lemma digits2_pos_size p : digits2_pos p = Pos.size p.
Proof. induction p as [p IH|p IH|]; simpl; congruence. Qed.

Lemma digits2_pos_log2 p : Zpos (digits2_pos p) = Z.log2 (Zpos p) + 1.
Proof.
  rewrite digits2_pos_size.
  destruct p as [p|p|]; simpl; try reflexivity; rewrite Pos2Z.inj_succ; lia.
Qed.

Lemma digits2_pos_bounds p :
  2 ^ (Zpos (digits2_pos p) - 1) <= Zpos p < 2 ^ Zpos (digits2_pos p).
Proof.
  rewrite digits2_pos_log2.
  replace (Z.log2 (Zpos p) + 1 - 1) with (Z.log2 (Zpos p)) by lia.
  pose proof (Z.log2_spec (Zpos p) ltac:(lia)) as H.
  replace (Z.succ (Z.log2 (Zpos p))) with (Z.log2 (Zpos p) + 1) in H by lia.
  exact H.
Qed.

Lemma digits2_pos_unique p d :
  2 ^ (d - 1) <= Zpos p < 2 ^ d -> Zpos (digits2_pos p) = d.
Proof.
  intros H. rewrite digits2_pos_log2.
  assert (0 < d).
  { destruct (Z.lt_trichotomy d 0) as [Hd|[Hd|Hd]]; try lia.
    - rewrite (Z.pow_neg_r 2 d) in H by lia. lia.
    - subst d. simpl in H. lia. }
  rewrite (Z.log2_unique (Zpos p) (d - 1)); try lia.
  replace (Z.succ (d - 1)) with d by lia. exact H.
Qed.

Lemma iter_pos_nat {A} (f : A -> A) p x :
  SpecFloat.iter_pos f p x = Nat.iter (Pos.to_nat p) f x.
Proof.
  revert x. induction p as [p IH|p IH|]; intros x; cbn [SpecFloat.iter_pos].
  - rewrite !IH, Pos2Nat.inj_xI.
    replace (S (2 * Pos.to_nat p)) with (Pos.to_nat p + Pos.to_nat p + 1)%nat by lia.
    rewrite !Nat.iter_add. reflexivity.
  - rewrite !IH, Pos2Nat.inj_xO.
    replace (2 * Pos.to_nat p)%nat with (Pos.to_nat p + Pos.to_nat p)%nat by lia.
    rewrite Nat.iter_add. reflexivity.
  - reflexivity.
Qed.

Lemma shr_1_m mrs : 0 <= shr_m mrs -> shr_m (shr_1 mrs) = shr_m mrs / 2.
Proof.
  destruct mrs as [m r s]; simpl. intros Hm.
  destruct m as [|[p|p|]|p]; simpl; try reflexivity; try lia.
  - apply Z.div_unique with 1; lia.
  - apply Z.div_unique with 0; lia.
Qed.

Lemma shr_nat_m k mrs :
  0 <= shr_m mrs ->
  shr_m (Nat.iter k shr_1 mrs) = shr_m mrs / 2 ^ Z.of_nat k.
Proof.
  intros Hm. induction k as [|k IH].
  - simpl. rewrite Z.div_1_r. reflexivity.
  - rewrite Nat.iter_succ. rewrite shr_1_m; rewrite IH.
    + rewrite Nat2Z.inj_succ, Z.pow_succ_r by lia.
      rewrite Z.div_div by lia. f_equal. lia.
    + apply Z.div_pos; lia.
Qed.

Lemma shr_1_exact a :
  0 <= a ->
  shr_1 {| shr_m := 2 * a; shr_r := false; shr_s := false |}
  = {| shr_m := a; shr_r := false; shr_s := false |}.
Proof. destruct a as [|p|p]; simpl; intros; try reflexivity; lia. Qed.

Lemma shr_nat_exact k a :
  0 <= a ->
  Nat.iter k shr_1 {| shr_m := a * 2 ^ Z.of_nat k; shr_r := false; shr_s := false |}
  = {| shr_m := a; shr_r := false; shr_s := false |}.
Proof.
  intros Ha. induction k as [|k IH].
  - simpl. f_equal. lia.
  - rewrite Nat.iter_succ_r.
    rewrite Nat2Z.inj_succ, Z.pow_succ_r by lia.
    replace (a * (2 * 2 ^ Z.of_nat k)) with (2 * (a * 2 ^ Z.of_nat k)) by lia.
    rewrite shr_1_exact by lia. exact IH.
Qed.

Lemma round_nearest_even_bounds q l :
  q <= round_nearest_even q l <= q + 1.
Proof.
  destruct l as [|[| |]]; simpl; try lia. destruct (Z.even q); lia.
Qed.

Lemma shr_spec mrs e n :
  0 <= n -> 0 <= shr_m mrs ->
  exists mrs',
    shr mrs e n = (mrs', e + n)
    /\ shr_m mrs' = shr_m mrs / 2 ^ n
    /\ (forall a, 0 <= a ->
          mrs = {| shr_m := a * 2 ^ n; shr_r := false; shr_s := false |} ->
          mrs' = {| shr_m := a; shr_r := false; shr_s := false |}).
Proof.
  intros Hn Hm. destruct n as [|p|p]; [| |lia].
  - exists mrs. simpl. rewrite Z.add_0_r, Z.div_1_r.
    repeat split. intros a _ ->. f_equal. lia.
  - exists (SpecFloat.iter_pos shr_1 p mrs). cbn [shr].
    rewrite iter_pos_nat, shr_nat_m, positive_nat_Z by assumption.
    repeat split. intros a Ha ->.
    rewrite <- (positive_nat_Z p). apply shr_nat_exact. exact Ha.
Qed.

(** Rounding a positive integer mantissa of at least 53 bits whose value
    lies in the normal range: the mantissa is shifted down to 53 bits and
    moves up by at most one; a multiple of the dropped power of two is
    kept exactly. *)
Lemma binary_round_aux_normal s M E :
  let d := Zpos (digits2_pos M) in
  let n := d - 53 in
  53 <= d -> -1074 <= E + n -> E + n <= 970 ->
  exists m'' e'' q',
    binary_round_aux PyFloat.prec PyFloat.emax s (Zpos M) E loc_Exact
    = S754_finite s m'' e''
    /\ Zpos M / 2 ^ n <= q' <= Zpos M / 2 ^ n + 1
    /\ (Zpos M mod 2 ^ n = 0 -> q' = Zpos M / 2 ^ n)
    /\ E + n <= e''
    /\ Zpos m'' * 2 ^ (e'' - (E + n)) = q'
    /\ Zpos (digits2_pos m'') = 53.
Proof.
  intros d n Hd Hlo Hhi.
  pose proof (digits2_pos_bounds M) as HM. fold d in HM.
  assert (Hq : 2 ^ 52 <= Zpos M / 2 ^ n < 2 ^ 53).
  { assert (0 < 2 ^ n) by (apply Z.pow_pos_nonneg; lia).
    replace (d - 1) with (52 + n) in HM by lia.
    replace d with (53 + n) in HM by lia.
    rewrite !Z.pow_add_r in HM by lia.
    split.
    - apply Z.div_le_lower_bound; lia.
    - apply Z.div_lt_upper_bound; lia. }
  unfold binary_round_aux.
  (* first shift *)
  assert (Hshift1 : fexp PyFloat.prec PyFloat.emax (Zdigits2 (Zpos M) + E) - E = n).
  { unfold fexp, emin, PyFloat.prec, PyFloat.emax. simpl Zdigits2. fold d. lia. }
  unfold shr_fexp at 1. rewrite Hshift1.
  destruct (shr_spec (shr_record_of_loc (Zpos M) loc_Exact) E n)
    as (mrs1 & -> & Hm1 & Hex1); [lia|simpl; lia|].
  simpl shr_m in Hm1.
  set (q' := round_nearest_even (shr_m mrs1) (loc_of_shr_record mrs1)).
  assert (Hq' : Zpos M / 2 ^ n <= q' <= Zpos M / 2 ^ n + 1).
  { unfold q'. rewrite <- Hm1. apply round_nearest_even_bounds. }
  assert (Hexact : Zpos M mod 2 ^ n = 0 -> q' = Zpos M / 2 ^ n).
  { intros Hmod. unfold q'.
    rewrite (Hex1 (Zpos M / 2 ^ n)); [reflexivity|lia|].
    simpl. f_equal.
    assert (0 < 2 ^ n) by (apply Z.pow_pos_nonneg; lia).
    rewrite (Z.div_mod (Zpos M) (2 ^ n)) at 1 by lia. lia. }
  clearbody q'.
  (* second shift *)
  destruct (Z.eq_dec q' (2 ^ 53)) as [Hcarry|Hnocarry].
  - subst q'. exists (2 ^ 52)%positive, (E + n + 1), (2 ^ 53).
    unfold shr_fexp.
    replace (fexp PyFloat.prec PyFloat.emax (Zdigits2 (2 ^ 53) + (E + n)) - (E + n))
      with 1 by (unfold fexp, emin, PyFloat.prec, PyFloat.emax; simpl Zdigits2; lia).
    cbn -[Z.pow Z.add Z.leb Pos.pow].
    replace (E + n + 1 <=? PyFloat.emax - PyFloat.prec) with true
      by (symmetry; apply Z.leb_le; unfold PyFloat.emax, PyFloat.prec; lia).
    repeat split; try lia.
    + replace (E + n + 1 - (E + n)) with 1 by lia. reflexivity.
  - assert (Hpos : 0 < q') by lia.
    destruct q' as [|pq|pq]; try lia.
    assert (Hdq : Zpos (digits2_pos pq) = 53).
    { apply digits2_pos_unique. simpl Z.sub. lia. }
    exists pq, (E + n), (Zpos pq).
    unfold shr_fexp.
    replace (fexp PyFloat.prec PyFloat.emax (Zdigits2 (Zpos pq) + (E + n)) - (E + n))
      with 0 by (unfold fexp, emin, PyFloat.prec, PyFloat.emax; simpl Zdigits2; lia).
    cbn -[Z.pow Z.add Z.leb].
    replace (E + n <=? PyFloat.emax - PyFloat.prec) with true
      by (symmetry; apply Z.leb_le; unfold PyFloat.emax, PyFloat.prec; lia).
    repeat split; try lia; try assumption.
    rewrite Z.sub_diag. simpl. lia.
Qed.

(** A 53-bit mantissa in range is already rounded. *)
Lemma binary_round_aux_canonical s M E :
  Zpos (digits2_pos M) = 53 -> -1074 <= E <= 970 ->
  binary_round_aux PyFloat.prec PyFloat.emax s (Zpos M) E loc_Exact
  = S754_finite s M E.
Proof.
  intros Hd HE.
  destruct (binary_round_aux_normal s M E) as (m & e & q & -> & _ & Hex & He & Hval & Hdm);
    rewrite ?Hd; try lia.
  rewrite Hd, Z.sub_diag, Z.add_0_r in *.
  rewrite Z.div_1_r in Hex. specialize (Hex (Z.mod_1_r _)). subst q.
  pose proof (digits2_pos_bounds M) as HM. rewrite Hd in HM.
  pose proof (digits2_pos_bounds m) as Hm. rewrite Hdm in Hm.
  assert (e = E).
  { destruct (Z.eq_dec e E) as [|Hne]; [assumption|exfalso].
    assert (2 ^ 1 <= 2 ^ (e - E)) by (apply Z.pow_le_mono_r; lia).
    simpl in *. nia. }
  subst e. rewrite Z.sub_diag in Hval. simpl in Hval.
  f_equal. lia.
Qed.

(** [float(b)] for a positive [int] below [2^53] is exact. *)
Lemma of_int_normal b :
  0 < b < 2 ^ 53 ->
  exists mb eb,
    PyFloat.of_int b = Ok (S754_finite false mb eb)
    /\ Zpos mb = b * 2 ^ (- eb)
    /\ -52 <= eb <= 0
    /\ Zpos (digits2_pos mb) = 53.
Proof.
  intros Hb. destruct b as [|p|p]; try lia.
  unfold PyFloat.of_int, binary_normalize, binary_round.
  pose proof (digits2_pos_bounds p) as Hp.
  set (d := Zpos (digits2_pos p)) in *.
  assert (Hd : 1 <= d <= 53).
  { split; [unfold d; lia|].
    destruct (Z_le_gt_dec d 53) as [|Hgt]; [assumption|exfalso].
    assert (2 ^ 53 <= 2 ^ (d - 1)) by (apply Z.pow_le_mono_r; lia). lia. }
  replace (fexp PyFloat.prec PyFloat.emax (d + 0)) with (d - 53)
    by (unfold fexp, emin, PyFloat.prec, PyFloat.emax; lia).
  unfold shl_align. rewrite Z.sub_0_r.
  destruct (d - 53) as [|k|k] eqn:Hk; try lia.
  - rewrite binary_round_aux_canonical by (fold d; lia).
    exists p, 0. simpl. repeat split; try lia.
  - change (Pos.iter xO p k) with (shift_pos k p).
    assert (Hval : Zpos (shift_pos k p) = Zpos p * 2 ^ Zpos k).
    { rewrite shift_pos_correct. rewrite Z.pow_pos_fold. lia. }
    assert (Hdig : Zpos (digits2_pos (shift_pos k p)) = 53).
    { apply digits2_pos_unique. rewrite Hval.
      replace 53 with (d + Zpos k) at 2 by lia.
      replace (53 - 1) with (d - 1 + Zpos k) by lia.
      rewrite !Z.pow_add_r by lia.
      assert (0 < 2 ^ Zpos k) by (apply Z.pow_pos_nonneg; lia). nia. }
    rewrite binary_round_aux_canonical by (try assumption; lia).
    exists (shift_pos k p), (Zneg k). simpl PyFloat.finite_or_overflow.
    repeat split; try lia; try assumption.
Qed.

Lemma to_int_bounds m e K :
  0 <= K -> - K <= e ->
  exists p,
    PyFloat.to_int (S754_finite false m e) = Ok p
    /\ p * 2 ^ K <= Zpos m * 2 ^ (e + K) < (p + 1) * 2 ^ K.
Proof.
  intros HK He. unfold PyFloat.to_int.
  destruct (Z.leb_spec 0 e) as [Hpos|Hneg].
  - exists (Zpos m * 2 ^ e). split; [reflexivity|].
    rewrite Z.pow_add_r by lia.
    assert (0 < 2 ^ K) by (apply Z.pow_pos_nonneg; lia).
    assert (0 < 2 ^ e) by (apply Z.pow_pos_nonneg; lia). nia.
  - exists (Zpos m / 2 ^ (- e)). split; [reflexivity|].
    assert (Hpow : 2 ^ K = 2 ^ (- e) * 2 ^ (e + K)).
    { rewrite <- Z.pow_add_r by lia. f_equal. lia. }
    assert (0 < 2 ^ (- e)) by (apply Z.pow_pos_nonneg; lia).
    assert (0 < 2 ^ (e + K)) by (apply Z.pow_pos_nonneg; lia).
    pose proof (Z.div_mod (Zpos m) (2 ^ (- e)) ltac:(lia)) as Hdm.
    pose proof (Z.mod_pos_bound (Zpos m) (2 ^ (- e)) ltac:(lia)) as Hmod.
    rewrite Hpow. nia.
Qed.

(** The product of two normal positive doubles lies within a factor of
    two of the exact product ([K] scales both sides to integers). *)
Lemma mul_normal_bounds mx ex my ey :
  Zpos (digits2_pos mx) = 53 -> Zpos (digits2_pos my) = 53 ->
  -1074 <= ex + ey + 52 -> ex + ey + 53 <= 970 ->
  exists m e,
    PyFloat.mul (S754_finite false mx ex) (S754_finite false my ey)
    = S754_finite false m e
    /\ ex + ey + 52 <= e
    /\ forall K, 0 <= ex + ey + K ->
         Zpos m * 2 ^ (e + K) <= 2 * (Zpos mx * Zpos my * 2 ^ (ex + ey + K))
         /\ Zpos mx * Zpos my * 2 ^ (ex + ey + K) < 2 * (Zpos m * 2 ^ (e + K)).
Proof.
  intros Hdx Hdy Hlo Hhi.
  pose proof (digits2_pos_bounds mx) as Hx. rewrite Hdx in Hx.
  pose proof (digits2_pos_bounds my) as Hy. rewrite Hdy in Hy.
  pose proof (digits2_pos_bounds (mx * my)) as HM.
  set (d := Zpos (digits2_pos (mx * my))) in *.
  rewrite Pos2Z.inj_mul in HM.
  assert (Hd : 105 <= d <= 106).
  { split.
    - destruct (Z_le_gt_dec 105 d) as [|Hgt]; [assumption|exfalso].
      assert (2 ^ d <= 2 ^ 104) by (apply Z.pow_le_mono_r; lia).
      simpl in *. nia.
    - destruct (Z_le_gt_dec d 106) as [|Hgt]; [assumption|exfalso].
      assert (2 ^ 106 <= 2 ^ (d - 1)) by (apply Z.pow_le_mono_r; lia).
      simpl in *. nia. }
  unfold PyFloat.mul, SFmul. cbn [xorb].
  destruct (binary_round_aux_normal false (mx * my) (ex + ey))
    as (m & e & q & -> & Hq & _ & He & Hval & _); fold d; try lia.
  fold d in Hq, He, Hval.
  exists m, e. split; [reflexivity|]. split; [lia|].
  intros K HK.
  set (n := d - 53) in *.
  rewrite Pos2Z.inj_mul in Hq.
  set (M := Zpos mx * Zpos my) in *.
  assert (HB : 0 < 2 ^ n) by (apply Z.pow_pos_nonneg; lia).
  assert (HT : 0 < 2 ^ (ex + ey + K)) by (apply Z.pow_pos_nonneg; lia).
  assert (Hexp : Zpos m * 2 ^ (e + K) = q * (2 ^ n * 2 ^ (ex + ey + K))).
  { rewrite <- Hval, <- Z.mul_assoc, <- !Z.pow_add_r by lia. do 2 f_equal. lia. }
  assert (HMB : 2 ^ 52 * 2 ^ n <= M).
  { rewrite <- Z.pow_add_r by lia. replace (52 + n) with (d - 1) by lia. lia. }
  pose proof (Z.div_mod M (2 ^ n) ltac:(lia)) as Hdm.
  pose proof (Z.mod_pos_bound M (2 ^ n) ltac:(lia)) as Hmod.
  rewrite Hexp.
  set (B := 2 ^ n) in *. set (T := 2 ^ (ex + ey + K)) in *.
  set (Q := M / B) in *.
  assert (HQ : 1 <= Q).
  { assert (2 ^ 52 * B < (Q + 1) * B) by lia.
    assert (2 ^ 52 < Q + 1) by (apply (Z.mul_lt_mono_pos_r B); lia).
    simpl in *. lia. }
  assert (HBM : B <= M) by (simpl in HMB; lia).
  assert (Hup : q * B <= 2 * M).
  { assert (q * B <= (Q + 1) * B) by (apply Z.mul_le_mono_nonneg_r; lia). lia. }
  assert (Hdown : M < 2 * (q * B)).
  { assert (Q * B <= q * B) by (apply Z.mul_le_mono_nonneg_r; lia).
    assert (B <= Q * B) by nia. lia. }
  replace (q * (B * T)) with (q * B * T) by ring.
  replace (2 * (M * T)) with (2 * M * T) by ring.
  replace (2 * (q * B * T)) with (2 * (q * B) * T) by ring.
  split.
  - apply Z.mul_le_mono_nonneg_r; lia.
  - apply Z.mul_lt_mono_pos_r; lia.
Qed.

(** Multiplying a normal double by 1.0 returns it. *)
Lemma mul_one mx ex :
  Zpos (digits2_pos mx) = 53 -> -1074 <= ex <= 970 ->
  PyFloat.mul (S754_finite false mx ex) f_1_0 = S754_finite false mx ex.
Proof.
  intros Hdx Hex.
  change f_1_0 with (S754_finite false (2 ^ 52) (-52)).
  pose proof (digits2_pos_bounds mx) as Hx. rewrite Hdx in Hx.
  assert (Hd : Zpos (digits2_pos (mx * 2 ^ 52)) = 105).
  { apply digits2_pos_unique. rewrite Pos2Z.inj_mul.
    change (Zpos (2 ^ 52)) with (2 ^ 52). simpl in *. lia. }
  unfold PyFloat.mul, SFmul. cbn [xorb].
  destruct (binary_round_aux_normal false (mx * 2 ^ 52) (ex + -52))
    as (m & e & q & -> & _ & Hexact & He & Hval & Hdm); rewrite ?Hd; try lia.
  rewrite Hd in *. change (105 - 53) with 52 in *.
  rewrite Pos2Z.inj_mul in Hexact. change (Zpos (2 ^ 52)) with (2 ^ 52) in Hexact.
  rewrite Z.mod_mul, Z.div_mul in Hexact by (simpl; lia).
  specialize (Hexact eq_refl). subst q.
  replace (ex + -52 + 52) with ex in * by lia.
  pose proof (digits2_pos_bounds m) as Hm. rewrite Hdm in Hm.
  assert (e = ex).
  { destruct (Z.eq_dec e ex) as [|Hne]; [assumption|exfalso].
    assert (2 ^ 1 <= 2 ^ (e - ex)) by (apply Z.pow_le_mono_r; lia).
    simpl in *. nia. }
  subst e. rewrite Z.sub_diag in Hval. simpl in Hval.
  f_equal. lia.
Qed.

End Binary64.

(* ===================================================================== *)
(** * The payout *)
(* ===================================================================== *)

Section Payout.

Lemma payout_one bet : 0 < bet < 2 ^ 53 -> payout bet f_1_0 = Ok bet.
Proof.
  intros Hbet. unfold payout, PyFloat.int_mul.
  destruct (of_int_normal bet Hbet) as (mb & eb & -> & Hmb & Heb & Hd).
  cbn [rbind]. rewrite mul_one by (try assumption; lia).
  unfold PyFloat.to_int. f_equal.
  destruct (Z.leb_spec 0 eb).
  - replace eb with 0 in * by lia. simpl in *. lia.
  - rewrite Hmb. apply Z.div_mul.
    assert (0 < 2 ^ (- eb)) by (apply Z.pow_pos_nonneg; lia). lia.
Qed.

Lemma payout_bounds bet mm em :
  0 < bet < 2 ^ 53 ->
  Zpos (digits2_pos mm) = 53 -> -52 <= em <= -48 ->
  exists p,
    payout bet (S754_finite false mm em) = Ok p
    /\ bet < 2 * (p + 1) /\ p < 64 * bet.
Proof.
  intros Hbet Hdm Hem. unfold payout, PyFloat.int_mul.
  destruct (of_int_normal bet Hbet) as (mb & eb & -> & Hmb & Heb & Hdb).
  cbn [rbind].
  destruct (mul_normal_bounds mb eb mm em) as (m & e & -> & He & Hval);
    try assumption; try lia.
  destruct (to_int_bounds m e 104) as (p & -> & Hp); try lia.
  exists p. split; [reflexivity|].
  destruct (Hval 104 ltac:(lia)) as [Hup Hdown]. clear Hval.
  pose proof (digits2_pos_bounds mm) as Hmm. rewrite Hdm in Hmm.
  assert (HMT : Zpos mb * Zpos mm * 2 ^ (eb + em + 104)
                = bet * 2 ^ 52 * (Zpos mm * 2 ^ (em + 52))).
  { replace (eb + em + 104) with (eb + 52 + (em + 52)) by lia.
    rewrite Z.pow_add_r by lia.
    assert (Zpos mb * 2 ^ (eb + 52) = bet * 2 ^ 52) as <-.
    { rewrite Hmb, <- Z.mul_assoc, <- Z.pow_add_r by lia.
      do 2 f_equal. lia. }
    ring. }
  rewrite HMT in Hup, Hdown.
  set (Y := Zpos mm * 2 ^ (em + 52)) in *.
  assert (HY : 2 ^ 52 <= Y < 2 ^ 57).
  { unfold Y.
    assert (1 <= 2 ^ (em + 52)) by (apply (Z.pow_le_mono_r 2 0); lia).
    assert (2 ^ (em + 52) <= 2 ^ 4) by (apply Z.pow_le_mono_r; lia).
    simpl in *. nia. }
  set (V := Zpos m * 2 ^ (e + 104)) in *.
  simpl in *. nia.
Qed.

(** [float(bet)] for a bet below [2^20] has an exponent of at most -33. *)
Lemma of_int_exponent bet mb eb :
  0 < bet < 2 ^ 20 ->
  Zpos mb = bet * 2 ^ (- eb) -> -52 <= eb <= 0 ->
  Zpos (digits2_pos mb) = 53 ->
  eb <= -33.
Proof.
  intros Hbet Hmb Heb Hd.
  pose proof (digits2_pos_bounds mb) as Hb. rewrite Hd in Hb.
  destruct (Z_le_gt_dec eb (-33)) as [|Hgt]; [assumption|exfalso].
  assert (2 ^ (- eb) <= 2 ^ 32) by (apply Z.pow_le_mono_r; lia).
  assert (0 < 2 ^ (- eb)) by (apply Z.pow_pos_nonneg; lia).
  change (2 ^ (53 - 1)) with (2 ^ 20 * 2 ^ 32) in Hb.
  assert (bet * 2 ^ (- eb) < 2 ^ 20 * 2 ^ 32); [|lia].
  apply Z.le_lt_trans with (bet * 2 ^ 32).
  - apply Z.mul_le_mono_nonneg_l; lia.
  - apply Z.mul_lt_mono_pos_r; lia.
Qed.

(** [int(bet * m)] against the exact product: the double product is the
    exact product rounded to a grid that holds the integers, so its
    integer part is the floor of the exact product or one more. *)
Lemma payout_floor_bounds bet mm em :
  0 < bet < 2 ^ 20 ->
  Zpos (digits2_pos mm) = 53 -> -52 <= em <= -48 ->
  exists p,
    payout bet (S754_finite false mm em) = Ok p
    /\ (bet * Zpos mm) / 2 ^ (- em) <= p
    /\ p * 2 ^ (- em) <= bet * Zpos mm + 2 ^ 20.
Proof.
  intros Hbet Hdm Hem. unfold payout, PyFloat.int_mul.
  destruct (of_int_normal bet) as (mb & eb & -> & Hmb & Heb & Hdb);
    [split; [lia|]; apply Z.lt_trans with (2 ^ 20); [lia|reflexivity]|].
  pose proof (of_int_exponent bet mb eb Hbet Hmb Heb Hdb) as Heb'.
  cbn [rbind].
  pose proof (digits2_pos_bounds mb) as Hx. rewrite Hdb in Hx.
  pose proof (digits2_pos_bounds mm) as Hy. rewrite Hdm in Hy.
  pose proof (digits2_pos_bounds (mb * mm)) as HM.
  set (d := Zpos (digits2_pos (mb * mm))) in *.
  rewrite Pos2Z.inj_mul in HM.
  assert (Hd : 105 <= d <= 106).
  { split.
    - destruct (Z_le_gt_dec 105 d) as [|Hgt]; [assumption|exfalso].
      assert (2 ^ d <= 2 ^ 104) by (apply Z.pow_le_mono_r; lia).
      simpl in *. nia.
    - destruct (Z_le_gt_dec d 106) as [|Hgt]; [assumption|exfalso].
      assert (2 ^ 106 <= 2 ^ (d - 1)) by (apply Z.pow_le_mono_r; lia).
      simpl in *. nia. }
  unfold PyFloat.mul, SFmul. cbn [xorb].
  destruct (binary_round_aux_normal false (mb * mm) (eb + em))
    as (m & e & q & -> & Hq & _ & He & Hval & _); fold d; try lia.
  fold d in Hq, He, Hval.
  set (n := d - 53) in *. rewrite Pos2Z.inj_mul in Hq.
  set (K := - (eb + em + n)).
  assert (HK : 28 <= K) by (unfold K; lia).
  (* the powers of two at play *)
  assert (HA : 0 < 2 ^ (- eb)) by (apply Z.pow_pos_nonneg; lia).
  assert (HD : 0 < 2 ^ (- em)) by (apply Z.pow_pos_nonneg; lia).
  assert (HB : 0 < 2 ^ n) by (apply Z.pow_pos_nonneg; lia).
  assert (HT : 0 < 2 ^ K) by (apply Z.pow_pos_nonneg; lia).
  assert (Hgrid : 2 ^ (- em) * 2 ^ (- eb) = 2 ^ n * 2 ^ K).
  { rewrite <- !Z.pow_add_r by lia. f_equal; unfold K; lia. }
  assert (HnA : 2 ^ n <= 2 ^ 20 * 2 ^ (- eb)).
  { rewrite <- Z.pow_add_r by lia. apply Z.pow_le_mono_r; lia. }
  (* the integer part of the result is q / 2^K *)
  assert (Hp : (if 0 <=? e then Zpos m * 2 ^ e else Zpos m / 2 ^ (- e)) = q / 2 ^ K).
  { replace (e - (eb + em + n)) with (e + K) in Hval by (unfold K; lia).
    rewrite <- Hval. destruct (Z.leb_spec 0 e) as [Hpos|Hneg].
    - rewrite Z.pow_add_r, Z.mul_assoc by lia. rewrite Z.div_mul by lia.
      reflexivity.
    - replace (2 ^ K) with (2 ^ (- e) * 2 ^ (e + K))
        by (rewrite <- Z.pow_add_r by lia; f_equal; lia).
      assert (0 < 2 ^ (- e)) by (apply Z.pow_pos_nonneg; lia).
      assert (0 < 2 ^ (e + K)) by (apply Z.pow_pos_nonneg; lia).
      rewrite Z.div_mul_cancel_r by lia. reflexivity. }
  unfold PyFloat.to_int. rewrite Hp.
  exists (q / 2 ^ K). split; [reflexivity|].
  set (A := 2 ^ (- eb)) in *. set (D := 2 ^ (- em)) in *.
  set (B := 2 ^ n) in *. set (T := 2 ^ K) in *.
  assert (HMA : Zpos mb * Zpos mm = bet * Zpos mm * A) by (rewrite Hmb; ring).
  rewrite HMA in Hq.
  set (X := bet * Zpos mm) in *.
  split.
  - (* the floor of the exact product is (X * A / B) / T *)
    assert (Hfloor : X / D = X * A / B / T).
    { rewrite Z.div_div by lia. rewrite <- Hgrid.
      rewrite Z.div_mul_cancel_r by lia. reflexivity. }
    rewrite Hfloor. apply Z.div_le_mono; lia.
  - pose proof (Z.mul_div_le q T HT) as HqT.
    pose proof (Z.mul_div_le (X * A) B HB) as HQB.
    set (p := q / T) in *. set (Q := X * A / B) in *.
    assert (H1 : p * T * B <= (Q + 1) * B).
    { apply Z.mul_le_mono_nonneg_r; lia. }
    assert (H2 : p * D * A <= (X + 2 ^ 20) * A).
    { replace (p * D * A) with (p * (D * A)) by ring. rewrite Hgrid.
      replace (p * (B * T)) with (p * T * B) by ring. lia. }
    apply Z.mul_le_mono_pos_r in H2; [exact H2|exact HA].
Qed.

(** The same against a fraction [num / den] that the multiplier
    approximates to four units in the last place: the payout is within
    one of the floor of [bet * num / den]. *)
Lemma payout_near_fraction bet mm em num den p :
  0 < bet < 2 ^ 20 -> -52 <= em <= -48 ->
  PyFloat.within_ulps 4 (S754_finite false mm em) num den = true ->
  (bet * Zpos mm) / 2 ^ (- em) <= p ->
  p * 2 ^ (- em) <= bet * Zpos mm + 2 ^ 20 ->
  spec_payout bet (num, den) - 1 <= p <= spec_payout bet (num, den) + 1.
Proof.
  intros Hbet Hem Hulp Hlow Hhigh. unfold spec_payout. cbn [fst snd].
  unfold PyFloat.within_ulps in Hulp.
  apply andb_prop in Hulp as [Hulp Habs]. apply andb_prop in Hulp as [_ Hden].
  apply Z.ltb_lt in Hden, Habs.
  assert (HD : 2 ^ 48 <= 2 ^ (- em)) by (apply Z.pow_le_mono_r; lia).
  set (D := 2 ^ (- em)) in *. set (X := bet * Zpos mm) in *.
  assert (HDpos : 0 < D) by (simpl in HD; lia).
  assert (Hsmall : 4 * bet + 2 ^ 20 <= D) by (simpl in *; lia).
  assert (Hup : Zpos mm * den < num * D + 4 * den) by lia.
  assert (Hdown : num * D < Zpos mm * den + 4 * den) by lia.
  pose proof (Z.mul_succ_div_gt X D HDpos) as Hfl.
  split.
  - (* bet * num < (p + 2) * den *)
    assert (Hgoal : (bet * num) / den < p + 2); [|lia].
    apply Z.div_lt_upper_bound; [exact Hden|].
    assert (HXD : X < (p + 1) * D) by nia.
    assert (H1 : bet * (num * D) < bet * (Zpos mm * den + 4 * den))
      by (apply Z.mul_lt_mono_pos_l; lia).
    assert (H2 : X * den < (p + 1) * D * den)
      by (apply Z.mul_lt_mono_pos_r; lia).
    assert (H3 : 4 * bet * den <= D * den)
      by (apply Z.mul_le_mono_nonneg_r; lia).
    assert (H4 : bet * num * D < den * (p + 2) * D).
    { unfold X in H2.
      replace (bet * num * D) with (bet * (num * D)) by ring.
      replace (bet * (Zpos mm * den + 4 * den))
        with (bet * Zpos mm * den + 4 * bet * den) in H1 by ring.
      replace (den * (p + 2) * D) with ((p + 1) * D * den + D * den) by ring.
      lia. }
    apply Z.mul_lt_mono_pos_r in H4; [exact H4|exact HDpos].
  - assert (Hgoal : p - 1 <= (bet * num) / den); [|lia].
    apply Z.div_le_lower_bound; [exact Hden|].
    assert (H1 : bet * (Zpos mm * den) < bet * (num * D + 4 * den))
      by (apply Z.mul_lt_mono_pos_l; lia).
    assert (H2 : p * D * den <= (X + 2 ^ 20) * den)
      by (apply Z.mul_le_mono_nonneg_r; lia).
    assert (H3 : (4 * bet + 2 ^ 20) * den <= D * den)
      by (apply Z.mul_le_mono_nonneg_r; lia).
    assert (H4 : den * (p - 1) * D < bet * num * D).
    { unfold X in H2.
      replace (den * (p - 1) * D) with (p * D * den - D * den) by ring.
      replace ((bet * Zpos mm + 2 ^ 20) * den)
        with (bet * (Zpos mm * den) + 2 ^ 20 * den) in H2 by ring.
      replace (bet * (num * D + 4 * den))
        with (bet * num * D + 4 * bet * den) in H1 by ring.
      replace ((4 * bet + 2 ^ 20) * den)
        with (4 * bet * den + 2 ^ 20 * den) in H3 by ring.
      lia. }
    apply Z.mul_lt_mono_pos_r in H4; [lia|exact HDpos].
Qed.

Lemma exact_normal mm em :
  em < 0 -> PyFloat.exact (S754_finite false mm em) = (Zpos mm, 2 ^ (- em)).
Proof.
  intros H. unfold PyFloat.exact. destruct (Z.leb_spec 0 em); [lia|reflexivity].
Qed.

Lemma same_eq x y : PyFloat.same x y = true -> x = y.
Proof.
  destruct x as [s|s| |s m e], y as [s'|s'| |s' m' e']; cbn; try discriminate;
    try reflexivity.
  - intros H. apply Bool.eqb_prop in H. congruence.
  - intros H. apply Bool.eqb_prop in H. congruence.
  - intros H. apply andb_prop in H as [H He]. apply andb_prop in H as [Hs Hm].
    apply Bool.eqb_prop in Hs. apply Pos.eqb_eq in Hm. apply Z.eqb_eq in He.
    congruence.
Qed.

End Payout.

(* ===================================================================== *)
(** * The multiplier over the configurations of the game *)
(* ===================================================================== *)

Section Multiplier.

Lemma calculate_multiplier_ignores_safe_tiles safe_tiles mines_count k :
  calculate_multiplier safe_tiles mines_count k = calculate_multiplier 0 mines_count k.
Proof. reflexivity. Qed.

Lemma configurations_complete mines_count k :
  MIN_MINES <= mines_count <= MAX_MINES ->
  0 <= k <= TOTAL_TILES - mines_count ->
  (mines_count, k) ∈ configurations.
Proof.
  intros Hm Hk. unfold configurations.
  apply list_elem_of_bind. exists mines_count. split.
  - apply list_elem_of_bind. exists k. split.
    + apply list_elem_of_singleton. reflexivity.
    + apply elem_of_seqZ. lia.
  - apply elem_of_seqZ. unfold MIN_MINES, MAX_MINES in *. lia.
Qed.

Lemma configurations_ok : forallb config_ok configurations = true.
Proof. vm_compute. reflexivity. Qed.

Lemma config_ok_valid mines_count k :
  MIN_MINES <= mines_count <= MAX_MINES ->
  0 <= k <= TOTAL_TILES - mines_count ->
  config_ok (mines_count, k) = true.
Proof.
  intros Hm Hk.
  pose proof configurations_ok as Hall.
  rewrite forallb_forall in Hall. apply Hall.
  apply list_elem_of_In. apply configurations_complete; assumption.
Qed.

(** In a valid configuration the multiplier is a normal double between
    1 and 32. *)
Lemma calculate_multiplier_normal safe_tiles mines_count k :
  MIN_MINES <= mines_count <= MAX_MINES ->
  0 <= k <= TOTAL_TILES - mines_count ->
  exists mm em,
    calculate_multiplier safe_tiles mines_count k = Ok (S754_finite false mm em)
    /\ Zpos (digits2_pos mm) = 53 /\ -52 <= em <= -48.
Proof.
  intros Hm Hk. pose proof (config_ok_valid _ _ Hm Hk) as Hok.
  unfold config_ok in Hok. cbn [fst snd] in Hok.
  rewrite (calculate_multiplier_ignores_safe_tiles safe_tiles).
  destruct (calculate_multiplier 0 mines_count k) as [[| | |[] mm em]|]; try discriminate.
  exists mm, em. split; [reflexivity|].
  repeat (apply andb_prop in Hok; destruct Hok as [Hok ?]).
  split; lia.
Qed.

End Multiplier.

(* ===================================================================== *)
(** * The configurations of a game, one by one *)
(* ===================================================================== *)

Section MultiplierRange.

Lemma unvalidated_configurations_complete mines_count k :
  0 <= mines_count <= TOTAL_TILES -> 1 <= k <= TOTAL_TILES ->
  (mines_count, k) ∈ unvalidated_configurations.
Proof.
  intros Hm Hk. unfold unvalidated_configurations.
  apply list_elem_of_bind. exists mines_count. split.
  - apply list_elem_of_bind. exists k. split.
    + apply list_elem_of_singleton. reflexivity.
    + apply elem_of_seqZ. lia.
  - apply elem_of_seqZ. lia.
Qed.

Lemma unvalidated_configurations_ok :
  forallb division_ok unvalidated_configurations = true.
Proof. vm_compute. reflexivity. Qed.

Lemma configurations_cap_idle : forallb cap_idle configurations = true.
Proof. vm_compute. reflexivity. Qed.

Lemma configurations_strictly_above :
  forallb strictly_above configurations = true.
Proof. vm_compute. reflexivity. Qed.

Lemma configurations_forall (check : Z * Z -> bool) mines_count k :
  forallb check configurations = true ->
  MIN_MINES <= mines_count <= MAX_MINES ->
  0 <= k <= TOTAL_TILES - mines_count ->
  check (mines_count, k) = true.
Proof.
  intros Hall Hm Hk. rewrite forallb_forall in Hall. apply Hall.
  apply list_elem_of_In. apply configurations_complete; assumption.
Qed.

Lemma configurations_close_to_spec :
  forallb (close_to_spec 4) configurations = true.
Proof. vm_compute. reflexivity. Qed.

Lemma unvalidated_close_to_spec :
  forallb (fun c => (c.1 =? TOTAL_TILES) || close_to_spec 8 c)
          unvalidated_configurations = true.
Proof. vm_compute. reflexivity. Qed.

(** The payout against exact arithmetic, in every configuration of a game:
    it is the floor of bet times the double multiplier or that floor plus
    one, and within one of the floor of bet times the specification's
    multiplier. *)
Lemma payout_against_spec safe_tiles bet mines_count k m p :
  MIN_BET <= bet <= MAX_BET ->
  MIN_MINES <= mines_count <= MAX_MINES ->
  0 <= k <= TOTAL_TILES - mines_count ->
  calculate_multiplier safe_tiles mines_count k = Ok m ->
  payout bet m = Ok p ->
  (spec_payout bet (PyFloat.exact m) <= p
   <= spec_payout bet (PyFloat.exact m) + 1)
  /\ (spec_payout bet (spec_multiplier TOTAL_TILES mines_count k) - 1 <= p
      <= spec_payout bet (spec_multiplier TOTAL_TILES mines_count k) + 1).
Proof.
  intros Hbet Hmines Hk Hmul Hpw.
  unfold MIN_BET, MAX_BET in Hbet.
  destruct (calculate_multiplier_normal safe_tiles mines_count k Hmines Hk)
    as (mm & em & Hm & Hdig & Hem).
  pose proof (configurations_forall (close_to_spec 4) mines_count k
                configurations_close_to_spec Hmines Hk) as Hclose.
  unfold close_to_spec in Hclose. cbn [fst snd] in Hclose.
  change (calculate_multiplier (TOTAL_TILES - mines_count) mines_count k)
    with (calculate_multiplier safe_tiles mines_count k) in Hclose.
  rewrite Hm in Hclose. apply andb_prop in Hclose as [Hulp _].
  rewrite Hmul in Hm. injection Hm as ->.
  assert (Hrange : 0 < bet < 2 ^ 20) by (simpl; lia).
  destruct (payout_floor_bounds bet mm em Hrange Hdig Hem)
    as (p' & Hp & Hlow & Hhigh).
  rewrite Hpw in Hp. injection Hp as <-.
  split.
  - rewrite exact_normal by lia. unfold spec_payout. cbn [fst snd].
    split; [exact Hlow|].
    assert (HD : 2 ^ 48 <= 2 ^ (- em)) by (apply Z.pow_le_mono_r; lia).
    assert (HDpos : 0 < 2 ^ (- em)) by (simpl in HD; lia).
    pose proof (Z.mul_succ_div_gt (bet * Zpos mm) (2 ^ (- em)) HDpos) as Hfl.
    set (D := 2 ^ (- em)) in *.
    set (F := bet * Zpos mm / D) in *.
    assert (H1 : p * D < (F + 2) * D) by (simpl in HD, Hhigh; lia).
    apply Z.mul_lt_mono_pos_r in H1; [lia|exact HDpos].
  - destruct (spec_multiplier TOTAL_TILES mines_count k) as [num den].
    cbn [fst snd] in Hulp.
    apply (payout_near_fraction bet mm em num den); assumption.
Qed.

End MultiplierRange.

(* ===================================================================== *)
(** * Counting tiles *)
(* ===================================================================== *)

Section GridFacts.

Implicit Types (p q : MineTile -> bool) (f : MineTile -> MineTile).
Implicit Types (g : Grid) (column : list MineTile) (t : MineTile).

Lemma count_tiles_list p g : count_tiles p g = Z.of_nat (count_list p (concat g)).
Proof. reflexivity. Qed.

Lemma count_list_cons p t l :
  count_list p (t :: l) = (Nat.b2n (p t) + count_list p l)%nat.
Proof.
  unfold count_list. rewrite filter_cons.
  destruct (decide (p t = true)) as [->|H]; simpl; [reflexivity|].
  destruct (p t); [congruence|reflexivity].
Qed.

Lemma count_list_app p l1 l2 :
  count_list p (l1 ++ l2) = (count_list p l1 + count_list p l2)%nat.
Proof. unfold count_list. rewrite filter_app, length_app. reflexivity. Qed.

Lemma count_list_map p f l : count_list p (map f l) = count_list (p ∘ f) l.
Proof.
  induction l as [|t l IH]; [reflexivity|].
  cbn [map]. rewrite !count_list_cons, IH. reflexivity.
Qed.

Lemma count_list_ext_le p q l :
  (forall t, p t = true -> q t = true) -> (count_list p l <= count_list q l)%nat.
Proof.
  intros H. induction l as [|t l IH]; [reflexivity|].
  rewrite !count_list_cons. specialize (H t).
  destruct (p t), (q t); simpl; try lia; discriminate (H eq_refl).
Qed.

Lemma count_list_ext p q l :
  (forall t, p t = q t) -> count_list p l = count_list q l.
Proof.
  intros H. apply Nat.le_antisymm; apply count_list_ext_le; intros t;
    rewrite H; auto.
Qed.

Lemma count_list_alter p f column y t :
  column !! y = Some t ->
  (count_list p (alter f y column) + Nat.b2n (p t)
   = count_list p column + Nat.b2n (p (f t)))%nat.
Proof.
  revert y. induction column as [|t' column IH]; intros [|y] H; try discriminate.
  - injection H as ->. cbn [alter list_alter]. rewrite !count_list_cons.
    generalize (Nat.b2n (p (f t))), (Nat.b2n (p t)). lia.
  - cbn [alter list_alter]. rewrite !count_list_cons.
    specialize (IH y H). revert IH.
    generalize (Nat.b2n (p (f t))), (Nat.b2n (p t)), (Nat.b2n (p t')). lia.
Qed.

Lemma concat_for_each_tile f g : concat (for_each_tile f g) = map f (concat g).
Proof.
  unfold for_each_tile. induction g as [|c g IH]; [reflexivity|].
  cbn [map concat]. rewrite IH, map_app. reflexivity.
Qed.

Lemma count_for_each_tile p f g :
  count_tiles p (for_each_tile f g) = count_tiles (p ∘ f) g.
Proof.
  rewrite !count_tiles_list, concat_for_each_tile, count_list_map. reflexivity.
Qed.

Lemma count_for_each_tile_same p f g :
  (forall t, p (f t) = p t) ->
  count_tiles p (for_each_tile f g) = count_tiles p g.
Proof.
  intros H. rewrite count_for_each_tile, !count_tiles_list.
  f_equal. apply count_list_ext. exact H.
Qed.

Lemma count_for_each_tile_le p f g :
  (forall t, p t = true -> p (f t) = true) ->
  count_tiles p g <= count_tiles p (for_each_tile f g).
Proof.
  intros H. rewrite count_for_each_tile, !count_tiles_list.
  apply inj_le. apply count_list_ext_le. exact H.
Qed.

Lemma count_tiles_le p q g :
  (forall t, p t = true -> q t = true) -> count_tiles p g <= count_tiles q g.
Proof.
  intros H. rewrite !count_tiles_list. apply inj_le. apply count_list_ext_le. exact H.
Qed.

Lemma tile_at_Ok g x y t :
  tile_at g x y = Ok t <-> exists column, g !! x = Some column /\ column !! y = Some t.
Proof.
  unfold tile_at. split.
  - destruct (g !! x) as [column|] eqn:Hx; [|discriminate].
    destruct (column !! y) as [t'|] eqn:Hy; [|discriminate].
    intros [= ->]. exists column. split; [reflexivity|assumption].
  - intros (column & -> & ->). reflexivity.
Qed.

Lemma count_update_tile p f g x y t :
  tile_at g x y = Ok t ->
  count_tiles p (update_tile f x y g) + Z.b2z (p t)
  = count_tiles p g + Z.b2z (p (f t)).
Proof.
  intros (column & Hx & Hy)%tile_at_Ok.
  rewrite !count_tiles_list. unfold update_tile.
  assert (count_list p (concat (alter (alter f y) x g)) + Nat.b2n (p t)
          = count_list p (concat g) + Nat.b2n (p (f t)))%nat as H.
  { revert x Hx. induction g as [|c g IH]; intros [|x] Hx; try discriminate.
    - injection Hx as ->. cbn [alter list_alter concat].
      rewrite !count_list_app.
      pose proof (count_list_alter p f column y t Hy) as Hc.
      revert Hc.
      generalize (Nat.b2n (p (f t))), (Nat.b2n (p t)). lia.
    - cbn [alter list_alter concat]. rewrite !count_list_app.
      specialize (IH x Hx). revert IH.
      generalize (Nat.b2n (p (f t))), (Nat.b2n (p t)). lia. }
  destruct (p t), (p (f t)); simpl in *; lia.
Qed.

Lemma update_tile_miss f g x y e :
  tile_at g x y = Raise e -> update_tile f x y g = g.
Proof.
  unfold update_tile, tile_at. intros H.
  apply list_eq. intros i. destruct (decide (i = x)) as [->|Hne].
  - rewrite list_lookup_alter_eq.
    destruct (g !! x) as [column|] eqn:Hx; [|reflexivity].
    destruct (column !! y) eqn:Hy; [discriminate|].
    simpl. f_equal.
    apply list_eq. intros j. destruct (decide (j = y)) as [->|Hney].
    + rewrite list_lookup_alter_eq, Hy. reflexivity.
    + rewrite list_lookup_alter_ne by congruence. reflexivity.
  - rewrite list_lookup_alter_ne by congruence. reflexivity.
Qed.

Lemma count_update_tile_same p f g x y :
  (forall t, p (f t) = p t) ->
  count_tiles p (update_tile f x y g) = count_tiles p g.
Proof.
  intros H. destruct (tile_at g x y) as [t|e] eqn:Ht.
  - pose proof (count_update_tile p f g x y t Ht) as Hc. rewrite H in Hc. lia.
  - rewrite (update_tile_miss f g x y e Ht). reflexivity.
Qed.

End GridFacts.

Section SetupFacts.

Implicit Types (p q : MineTile -> bool) (f : MineTile -> MineTile).
Implicit Types (g : Grid) (t : MineTile).

Lemma tile_at_update_ne f g x y x' y' :
  (x, y) <> (x', y') ->
  tile_at (update_tile f x y g) x' y' = tile_at g x' y'.
Proof.
  intros Hne. unfold tile_at, update_tile.
  destruct (decide (x = x')) as [<-|Hx].
  - rewrite list_lookup_alter_eq.
    destruct (g !! x) as [column|]; [|reflexivity]. simpl.
    rewrite list_lookup_alter_ne by congruence. reflexivity.
  - rewrite list_lookup_alter_ne by assumption. reflexivity.
Qed.

Lemma count_true_length g : count_tiles (fun _ => true) g = Z.of_nat (length (concat g)).
Proof.
  rewrite count_tiles_list. f_equal. unfold count_list.
  induction (concat g) as [|t l IH]; [reflexivity|].
  rewrite filter_cons. destruct (decide (true = true)); [|congruence].
  simpl. rewrite IH. reflexivity.
Qed.

Lemma count_safe_mines g :
  count_tiles is_safe g + count_tiles is_mine g = Z.of_nat (length (concat g)).
Proof.
  rewrite !count_tiles_list. unfold is_safe.
  induction (concat g) as [|t l IH]; [reflexivity|].
  rewrite !count_list_cons. cbn [length]. destruct (is_mine t); simpl; lia.
Qed.

Lemma setup_mines_count p sample g :
  (forall t, p (mark_as_mine t) = p t) ->
  count_tiles p (_setup_mines sample g) = count_tiles p g.
Proof.
  intros Hp. unfold _setup_mines. revert g.
  induction sample as [|pos rest IH]; intros g; [reflexivity|].
  cbn [foldl]. rewrite IH. apply count_update_tile_same. exact Hp.
Qed.

Lemma coordinates_injective pos pos' :
  (pos mod Z.to_nat GRID_WIDTH, pos / Z.to_nat GRID_WIDTH)%nat
  = (pos' mod Z.to_nat GRID_WIDTH, pos' / Z.to_nat GRID_WIDTH)%nat ->
  pos = pos'.
Proof.
  change (Z.to_nat GRID_WIDTH) with 3%nat. intros Heq.
  pose proof (f_equal fst Heq) as Hm. pose proof (f_equal snd Heq) as Hd.
  cbn [fst snd] in Hm, Hd.
  rewrite (Nat.div_mod_eq pos 3), (Nat.div_mod_eq pos' 3), Hm, Hd. reflexivity.
Qed.

Lemma setup_mines_count_mines sample g :
  NoDup sample ->
  (forall pos, pos ∈ sample ->
     exists t, tile_at g (pos mod Z.to_nat GRID_WIDTH) (pos / Z.to_nat GRID_WIDTH) = Ok t
               /\ is_mine t = false) ->
  count_tiles is_mine (_setup_mines sample g)
  = count_tiles is_mine g + Z.of_nat (length sample).
Proof.
  unfold _setup_mines. revert g.
  induction sample as [|pos rest IH]; intros g Hnd Htiles.
  - simpl. lia.
  - apply NoDup_cons in Hnd as [Hnotin Hnd]. cbn [foldl].
    destruct (Htiles pos) as (t & Ht & Hmine); [left|].
    rewrite IH; [|assumption|].
    + pose proof (count_update_tile is_mine mark_as_mine g _ _ t Ht) as Hc.
      rewrite Hmine in Hc. cbn [Z.b2z is_mine mark_as_mine] in Hc.
      rewrite length_cons, Nat2Z.inj_succ. lia.
    + intros pos' Hin. destruct (Htiles pos') as (t' & Ht' & Hmine'); [right; assumption|].
      exists t'. split; [|assumption].
      rewrite tile_at_update_ne; [assumption|].
      intros Heq. apply coordinates_injective in Heq. subst pos'. contradiction.
Qed.

Lemma create_grid_tiles pos :
  (pos < Z.to_nat TOTAL_TILES)%nat ->
  exists t, tile_at _create_grid (pos mod Z.to_nat GRID_WIDTH) (pos / Z.to_nat GRID_WIDTH) = Ok t
            /\ is_mine t = false.
Proof.
  change (Z.to_nat TOTAL_TILES) with 9%nat. intros Hpos.
  do 9 (destruct pos as [|pos]; [eexists; split; reflexivity|]). lia.
Qed.

(** The grid of a new view holds exactly [mines_count] mines, and nothing
    is revealed yet. *)
Lemma new_view_grid user bet_amount mines_count sample :
  is_sample mines_count sample ->
  let v := new_view user bet_amount mines_count sample in
  count_tiles is_safe (tiles v) = TOTAL_TILES - mines_count
  /\ count_tiles is_revealed_safe (tiles v) = 0.
Proof.
  intros (Hnd & Hlen & Hrange). cbn [new_view tiles]. split.
  - pose proof (count_safe_mines (_setup_mines sample _create_grid)) as Hsum.
    rewrite setup_mines_count_mines in Hsum; [|assumption|].
    + rewrite <- count_true_length in Hsum.
      rewrite (setup_mines_count (fun _ => true)) in Hsum by reflexivity.
      change (count_tiles (fun _ => true) _create_grid) with 9 in Hsum.
      change (count_tiles is_mine _create_grid) with 0 in Hsum.
      change TOTAL_TILES with 9. lia.
    + intros pos Hin. apply create_grid_tiles.
      rewrite Forall_forall in Hrange. apply Hrange. assumption.
  - pose proof (count_tiles_le is_revealed_safe revealed
                  (_setup_mines sample _create_grid)) as Hle.
    rewrite (setup_mines_count revealed) in Hle by reflexivity.
    change (count_tiles revealed _create_grid) with 0 in Hle.
    assert (0 <= count_tiles is_revealed_safe (_setup_mines sample _create_grid))
      by (unfold count_tiles; lia).
    assert (forall t, is_revealed_safe t = true -> revealed t = true).
    { intros t. unfold is_revealed_safe. destruct (is_mine t), (revealed t); auto. }
    specialize (Hle ltac:(assumption)). lia.
Qed.

End SetupFacts.

(* ===================================================================== *)
(** * The session invariant *)
(* ===================================================================== *)

Section Invariant.

Lemma calls_of_app v games lg e :
  calls_of {| view := v; active_games := games; log := lg ++ [e] |}
  = calls_of {| view := v; active_games := games; log := lg |} ++ [ev_call e].
Proof. unfold calls_of. cbn [log]. rewrite map_app. reflexivity. Qed.

Lemma session_inv_initial user bet_amount mines sample games :
  MIN_BET <= bet_amount <= MAX_BET ->
  MIN_MINES <= mines <= MAX_MINES ->
  is_sample mines sample ->
  session_inv (initial_state user bet_amount mines sample games).
Proof.
  intros Hbet Hmines Hsample.
  destruct (new_view_grid user bet_amount mines sample Hsample) as [Hsafe Hrev].
  unfold MIN_BET, MAX_BET, MIN_MINES, MAX_MINES in *.
  split; cbn [initial_state view new_view bet mines_count safe_tiles tiles
              tiles_revealed game_over current_multiplier potential_win] in *;
    unfold MIN_BET, MAX_BET, MIN_MINES, MAX_MINES; try lia; try reflexivity.
  - intros _. rewrite Hrev. change TOTAL_TILES with 9 in *. repeat split; lia.
  - apply payout_one. simpl. lia.
  - constructor.
  - simpl. lia.
Qed.

End Invariant.

Section Steps.

Lemma is_safe_reveal b t : is_safe (reveal b t) = is_safe t.
Proof. reflexivity. Qed.

Lemma is_safe_disable t : is_safe (disable t) = is_safe t.
Proof. reflexivity. Qed.

Lemma is_revealed_safe_disable t : is_revealed_safe (disable t) = is_revealed_safe t.
Proof. reflexivity. Qed.

Lemma credits_snoc v games lg e :
  credits {| view := v; active_games := games; log := lg ++ [e] |}
  = credits {| view := v; active_games := games; log := lg |}
    ++ (if is_credit (ev_call e) then [ev_call e] else []).
Proof.
  unfold credits. rewrite calls_of_app, filter_app. f_equal.
  rewrite filter_cons, filter_nil.
  destruct (is_credit (ev_call e)); destruct (decide _); congruence.
Qed.

Lemma credits_view v v' games games' lg :
  credits {| view := v; active_games := games; log := lg |}
  = credits {| view := v'; active_games := games'; log := lg |}.
Proof. reflexivity. Qed.

Lemma calls_of_view v v' games games' lg :
  calls_of {| view := v; active_games := games; log := lg |}
  = calls_of {| view := v'; active_games := games'; log := lg |}.
Proof. reflexivity. Qed.

Lemma update_user_balance_call_credit user amount :
  0 < amount ->
  update_user_balance_call user amount = add_cash user amount "mines_win".
Proof.
  intros H. unfold update_user_balance_call.
  destruct (Z.ltb_spec 0 amount); [reflexivity|lia].
Qed.

Lemma reveal_mines_keeps_safe t :
  is_revealed_safe
    (disable (if is_mine t && negb (revealed t) then reveal false t else t))
  = is_revealed_safe t.
Proof.
  destruct t as [x y [] [] d]; reflexivity.
Qed.

Lemma cashout_inv timeout s :
  session_inv s -> session_inv (run (_process_cashout timeout) s).
Proof.
  intros Hinv. destruct s as [v games lg].
  unfold _process_cashout. msimpl.
  destruct (game_over v) eqn:Hgo; msimpl; [exact Hinv|].
  destruct (tiles_revealed v =? 0) eqn:Htr; msimpl; [exact Hinv|].
  destruct Hinv as [Hbet Hmines Hsafe Hgrid Hrev Hact Hmul Hpw Hwb Hcr Hsc].
  msimpl. destruct (Hact Hgo) as (Hcount & Hlt & Hnone).
  rewrite update_user_balance_call_credit by lia.
  split; msimpl; try assumption; try arith; try discriminate.
  - rewrite count_for_each_tile_same; [assumption|].
    intros t. rewrite is_safe_disable. destruct (is_mine t && negb (revealed t)); reflexivity.
  - rewrite count_for_each_tile_same; [assumption|]. apply reveal_mines_keeps_safe.
  - rewrite !calls_of_app. msimpl. rewrite !Forall_app. repeat split.
    + exact Hcr.
    + constructor; [|constructor]. intros u a k [= <- <- <-]. arith.
    + constructor; [|constructor]. intros u a k. discriminate.
  - rewrite !credits_snoc. msimpl.
    rewrite (credits_view _ v _ games), Hnone.
    cbn [is_credit]. destruct (0 <? potential_win v); simpl; arith.
Qed.

Lemma process_cashout_ok timeout s : fst (_process_cashout timeout s) = Ok tt.
Proof.
  unfold _process_cashout. msimpl.
  destruct (game_over (view s) || (tiles_revealed (view s) =? 0)); reflexivity.
Qed.

(** Marking a session as over keeps the invariant. *)
Lemma game_over_inv s games :
  session_inv s ->
  session_inv {| view := set_game_over true (view s);
                 active_games := games; log := log s |}.
Proof.
  intros [Hbet Hmines Hsafe Hgrid Hrev Hact Hmul Hpw Hwb Hcr Hsc].
  destruct s as [v g lg]. msimpl.
  split; msimpl; try assumption; discriminate.
Qed.

Lemma is_safe_reveal_all t :
  is_safe (disable (if revealed t then t else reveal false t)) = is_safe t.
Proof. destruct t as [x y [] [] d]; reflexivity. Qed.

Lemma is_revealed_safe_reveal_all t :
  is_revealed_safe t = true ->
  is_revealed_safe (disable (if revealed t then t else reveal false t)) = true.
Proof. destruct t as [x y [] [] d]; auto. Qed.

Lemma exit_inv s : session_inv s -> session_inv (run exit_callback s).
Proof.
  intros Hinv. destruct s as [v games lg].
  pose proof Hinv as [Hbet Hmines Hsafe Hgrid Hrev Hact Hmul Hpw Hwb Hcr Hsc].
  unfold exit_callback, reveal_all. msimpl.
  assert (Hgrid' : count_tiles is_safe
            (for_each_tile (fun t => disable (if revealed t then t else reveal false t))
               (tiles v)) = safe_tiles v).
  { rewrite count_for_each_tile_same; [assumption|]. apply is_safe_reveal_all. }
  assert (Hrev' : 0 <= tiles_revealed v <= count_tiles is_revealed_safe
            (for_each_tile (fun t => disable (if revealed t then t else reveal false t))
               (tiles v))).
  { pose proof (count_for_each_tile_le is_revealed_safe
                  (fun t => disable (if revealed t then t else reveal false t))
                  (tiles v) is_revealed_safe_reveal_all).
    arith. }
  destruct ((tiles_revealed v =? 0) && negb (game_over v)) eqn:Hrefund; msimpl.
  - apply andb_prop in Hrefund as [_ Hgo%negb_true_iff].
    destruct (Hact Hgo) as (_ & _ & Hnone).
    unfold MIN_BET in Hbet.
    rewrite update_user_balance_call_credit by arith.
    split; msimpl; try assumption; try arith; try discriminate.
    + rewrite calls_of_app. msimpl. rewrite Forall_app. split; [exact Hcr|].
      constructor; [|constructor]. intros u a k [= <- <- <-]. arith.
    + rewrite credits_snoc. msimpl.
      rewrite (credits_view _ v _ games), Hnone.
      cbn [is_credit]. destruct (0 <? bet v); simpl; arith.
  - split; msimpl; try assumption; try arith; try discriminate.
Qed.

Lemma timeout_inv s : session_inv s -> session_inv (run on_timeout s).
Proof.
  intros Hinv. unfold on_timeout. msimpl.
  destruct (game_over (view s)) eqn:Hgo; msimpl; [exact Hinv|].
  destruct (0 <? tiles_revealed (view s)) eqn:Hpos.
  - pose proof (process_cashout_ok true s) as Hok.
    pose proof (cashout_inv true s Hinv) as Hinv'. unfold run in Hinv'.
    destruct (_process_cashout true s) as [r s']. msimpl. subst r.
    apply game_over_inv. exact Hinv'.
  - destruct s as [v games lg].
    pose proof Hinv as [Hbet Hmines Hsafe Hgrid Hrev Hact Hmul Hpw Hwb Hcr Hsc].
    msimpl. destruct (Hact Hgo) as (_ & _ & Hnone).
    destruct (tiles_revealed v =? 0) eqn:Hzero; msimpl.
    + unfold MIN_BET in Hbet.
      rewrite update_user_balance_call_credit by arith.
      unfold reveal_all.
      split; msimpl; try assumption; try arith; try discriminate.
      * rewrite count_for_each_tile_same; [assumption|]. apply is_safe_reveal_all.
      * pose proof (count_for_each_tile_le is_revealed_safe
                      (fun t => disable (if revealed t then t else reveal false t))
                      (tiles v) is_revealed_safe_reveal_all).
        arith.
      * rewrite calls_of_app. msimpl. rewrite Forall_app. split; [exact Hcr|].
        constructor; [|constructor]. intros u a k [= <- <- <-]. arith.
      * rewrite credits_snoc. msimpl.
        rewrite (credits_view _ v _ games), Hnone.
        cbn [is_credit]. destruct (0 <? bet v); simpl; arith.
    + split; msimpl; try assumption; try arith; try discriminate.
Qed.

Lemma handle_victory_inv s :
  session_inv {| view := set_game_over true (view s);
                 active_games := active_games s; log := log s |} ->
  credits s = [] ->
  session_inv (run _handle_victory s).
Proof.
  intros [Hbet Hmines Hsafe Hgrid Hrev Hact Hmul Hpw Hwb Hcr Hsc] Hnone.
  destruct s as [v games lg]. unfold _handle_victory. msimpl.
  rewrite Z.min_l by arith.
  rewrite update_user_balance_call_credit by arith.
  split; msimpl; try assumption; try arith; try discriminate.
  - rewrite count_for_each_tile_same; [assumption|]. apply is_safe_disable.
  - rewrite count_for_each_tile_same; [assumption|]. apply is_revealed_safe_disable.
  - rewrite !calls_of_app. msimpl. rewrite !Forall_app. repeat split.
    + exact Hcr.
    + constructor; [|constructor]. intros u a k [= <- <- <-]. arith.
    + constructor; [|constructor]. intros u a k. discriminate.
  - rewrite !credits_snoc. msimpl.
    rewrite (credits_view _ v _ games), Hnone.
    cbn [is_credit]. destruct (0 <? potential_win v); simpl; arith.
Qed.

Lemma click_inv x y s :
  session_inv s -> session_inv (run (process_tile_click x y) s).
Proof.
  intros Hinv. destruct s as [v games lg].
  pose proof Hinv as [Hbet Hmines Hsafe Hgrid Hrev Hact Hmul Hpw Hwb Hcr Hsc].
  unfold process_tile_click. msimpl.
  destruct (game_over v) eqn:Hgo; msimpl; [exact Hinv|].
  destruct (tile_at (tiles v) x y) as [tile|e] eqn:Htile; msimpl; [|exact Hinv].
  destruct (revealed tile) eqn:Hrevealed; msimpl; [exact Hinv|].
  destruct (Hact eq_refl) as (Hcount & Hlt & Hnone).
  destruct (is_mine tile) eqn:Hmine; msimpl.
  - (* a mine: the game is lost *)
    assert (Hkeep : forall p,
               (forall t, p (disable t) = p t) ->
               (forall b t, is_mine t = true -> p (reveal b t) = p t) ->
               count_tiles p
                 (for_each_tile disable
                    (for_each_tile
                       (fun t => if is_mine t && negb (revealed t)
                                 then reveal false t else t)
                       (update_tile (reveal true) x y (tiles v))))
               = count_tiles p (tiles v)).
    { intros p Hd Hr.
      rewrite count_for_each_tile_same by exact Hd.
      rewrite count_for_each_tile_same.
      - pose proof (count_update_tile p (reveal true) (tiles v) x y tile Htile) as Hc.
        rewrite (Hr true tile Hmine) in Hc. arith.
      - intros t. destruct (is_mine t) eqn:Hm; cbn [andb]; [|reflexivity].
        destruct (revealed t); cbn [negb]; [reflexivity|]. apply Hr. exact Hm. }
    split; msimpl; try assumption; try arith; try discriminate.
    + rewrite Hkeep; [assumption|reflexivity|reflexivity].
    + rewrite Hkeep; [assumption|reflexivity|].
      intros b t Hm. unfold is_revealed_safe. cbn [is_mine reveal].
      rewrite Hm. reflexivity.
    + rewrite calls_of_app. msimpl. rewrite Forall_app. split; [exact Hcr|].
      constructor; [|constructor]. intros u a k. discriminate.
    + rewrite credits_snoc. msimpl.
      rewrite (credits_view _ v _ games), Hnone. simpl. arith.
  - (* a safe tile *)
    assert (Hsafe' : count_tiles is_safe (update_tile (reveal false) x y (tiles v))
                     = safe_tiles v).
    { rewrite count_update_tile_same; [assumption|reflexivity]. }
    assert (Hcount' : count_tiles is_revealed_safe
                        (update_tile (reveal false) x y (tiles v))
                      = tiles_revealed v + 1).
    { pose proof (count_update_tile is_revealed_safe (reveal false)
                    (tiles v) x y tile Htile) as Hc.
      assert (is_revealed_safe tile = false) as Hbefore
        by (unfold is_revealed_safe; rewrite Hrevealed; apply andb_false_r).
      assert (is_revealed_safe (reveal false tile) = true) as Hafter
        by (unfold is_revealed_safe; cbn [is_mine revealed reveal];
            rewrite Hmine; reflexivity).
      rewrite Hbefore, Hafter in Hc. cbn [Z.b2z] in Hc. arith. }
    assert (Hle : count_tiles is_revealed_safe (update_tile (reveal false) x y (tiles v))
                  <= count_tiles is_safe (update_tile (reveal false) x y (tiles v))).
    { apply count_tiles_le. intros t. unfold is_revealed_safe, is_safe.
      destruct (is_mine t); [discriminate|reflexivity]. }
    destruct (calculate_multiplier_normal (safe_tiles v) (mines_count v)
                (tiles_revealed v + 1)) as (mm & em & Hm & Hdig & Hem);
      [assumption|arith|].
    rewrite Hm. msimpl.
    destruct (payout_bounds (bet v) mm em) as (p & Hp & Hplo & Hphi);
      [unfold MIN_BET, MAX_BET in *; simpl; arith|assumption|assumption|].
    rewrite Hp. msimpl.
    unfold MIN_BET in Hbet.
    destruct (tiles_revealed v + 1 =? safe_tiles v) eqn:Hfull.
    + apply handle_victory_inv; [|exact Hnone].
      split; msimpl; try assumption; try arith; try discriminate.
    + apply Z.eqb_neq in Hfull.
      split; msimpl; try assumption; try arith; try discriminate.
      intros _. repeat split; try arith. exact Hnone.
Qed.

Theorem session_inv_step a s :
  session_inv s -> session_inv (run (perform a) s).
Proof.
  destruct a as [x y| | |]; cbn [perform].
  - apply click_inv.
  - apply cashout_inv.
  - apply exit_inv.
  - apply timeout_inv.
Qed.

Theorem reachable_inv s : reachable s -> session_inv s.
Proof.
  induction 1 as [user bet_amount mines_count sample games Hbet Hmines Hs|s a _ IH].
  - apply session_inv_initial; assumption.
  - apply session_inv_step. exact IH.
Qed.

(** In a session the number of revealed tiles is one a game can show. *)
Lemma reachable_tiles_revealed s :
  reachable s ->
  0 <= tiles_revealed (view s) <= TOTAL_TILES - mines_count (view s).
Proof.
  intros Hs. destruct (reachable_inv s Hs)
    as [Hbet Hmines Hsafe Hgrid Hrev Hact Hmul Hpw Hwb Hcr Hsc].
  pose proof (count_tiles_le is_revealed_safe is_safe (tiles (view s))) as Hle.
  rewrite <- Hsafe, <- Hgrid. split; [arith|].
  assert (count_tiles is_revealed_safe (tiles (view s))
          <= count_tiles is_safe (tiles (view s))); [|arith].
  apply Hle. intros t. unfold is_revealed_safe, is_safe.
  destruct (is_mine t); [discriminate|reflexivity].
Qed.

End Steps.

(* ===================================================================== *)
(** * What each callback does *)
(* ===================================================================== *)

Section Callbacks.

Lemma click_terminal x y s :
  game_over (view s) = true -> process_tile_click x y s = (Ok tt, s).
Proof. intros H. unfold process_tile_click. msimpl. rewrite H. reflexivity. Qed.

Lemma cashout_terminal timeout s :
  game_over (view s) = true -> _process_cashout timeout s = (Ok tt, s).
Proof. intros H. unfold _process_cashout. msimpl. rewrite H. reflexivity. Qed.

Lemma timeout_terminal s :
  game_over (view s) = true -> on_timeout s = (Ok tt, s).
Proof. intros H. unfold on_timeout. msimpl. rewrite H. reflexivity. Qed.

(** What [exit_callback] does, whatever the state. *)
Lemma exit_effect s :
  exit_callback s =
  (Ok tt,
   {| view := set_game_over true
                (set_controls_disabled true true
                   (set_tiles (reveal_all (tiles (view s))) (view s)));
      active_games := active_games s ∖ {[ user_id (view s) ]};
      log := log s ++
             (if (tiles_revealed (view s) =? 0) && negb (game_over (view s))
              then [{| ev_call := update_user_balance_call
                                    (user_id (view s)) (bet (view s));
                       ev_game_over := game_over (view s) |}]
              else []) |}).
Proof.
  destruct s as [v games lg]. unfold exit_callback. msimpl.
  destruct ((tiles_revealed v =? 0) && negb (game_over v)); msimpl.
  - reflexivity.
  - rewrite app_nil_r. reflexivity.
Qed.

(** What a cashout does in an active session with a tile revealed. *)
Lemma cashout_effect timeout s :
  game_over (view s) = false -> tiles_revealed (view s) <> 0 ->
  _process_cashout timeout s =
  (Ok tt,
   {| view :=
        set_controls_disabled true true
          (set_tiles
             (for_each_tile
                (fun t => disable (if is_mine t && negb (revealed t)
                                   then reveal false t else t))
                (tiles (view s)))
             (set_won true (set_game_over true (view s))));
      active_games := active_games s ∖ {[ user_id (view s) ]};
      log := log s ++
             [{| ev_call := update_user_balance_call (user_id (view s))
                              (potential_win (view s));
                 ev_game_over := false |};
              {| ev_call := record_mines_stats (user_id (view s)) (bet (view s))
                              (potential_win (view s)) (mines_count (view s))
                              (tiles_revealed (view s));
                 ev_game_over := false |}] |}).
Proof.
  intros Hgo Htr. destruct s as [v games lg]. unfold _process_cashout. msimpl.
  rewrite Hgo. apply Z.eqb_neq in Htr. rewrite Htr. msimpl.
  rewrite Hgo, <- app_assoc. reflexivity.
Qed.

(** A click on a hidden mine. *)
Lemma click_mine_effect x y s tile :
  game_over (view s) = false ->
  tile_at (tiles (view s)) x y = Ok tile ->
  revealed tile = false -> is_mine tile = true ->
  process_tile_click x y s =
  (Ok tt,
   {| view :=
        set_tiles
          (for_each_tile disable
             (for_each_tile
                (fun t => if is_mine t && negb (revealed t)
                          then reveal false t else t)
                (update_tile (reveal true) x y (tiles (view s)))))
          (set_won false (set_game_over true (view s)));
      active_games := active_games s ∖ {[ user_id (view s) ]};
      log := log s ++
             [{| ev_call := record_mines_stats (user_id (view s)) (bet (view s))
                              0 (mines_count (view s)) (tiles_revealed (view s));
                 ev_game_over := true |}] |}).
Proof.
  intros Hgo Htile Hrev Hmine. destruct s as [v games lg].
  unfold process_tile_click. msimpl.
  rewrite Hgo, Htile. msimpl. rewrite Hrev, Hmine. msimpl. reflexivity.
Qed.

(** A click on a hidden safe tile that is not the last one. *)
Lemma click_safe_effect x y s tile m p :
  game_over (view s) = false ->
  tile_at (tiles (view s)) x y = Ok tile ->
  revealed tile = false -> is_mine tile = false ->
  calculate_multiplier (safe_tiles (view s)) (mines_count (view s))
    (tiles_revealed (view s) + 1) = Ok m ->
  payout (bet (view s)) m = Ok p ->
  tiles_revealed (view s) + 1 <> safe_tiles (view s) ->
  process_tile_click x y s =
  (Ok tt,
   {| view :=
        set_potential_win p
          (set_current_multiplier m
             (set_tiles_revealed (tiles_revealed (view s) + 1)
                (set_tiles (update_tile (reveal false) x y (tiles (view s)))
                   (view s))));
      active_games := active_games s;
      log := log s |}).
Proof.
  intros Hgo Htile Hrev Hmine Hm Hp Hfull. destruct s as [v games lg].
  unfold process_tile_click. msimpl.
  rewrite Hgo, Htile. msimpl. rewrite Hrev, Hmine. msimpl.
  rewrite Hm. msimpl. rewrite Hp. msimpl.
  apply Z.eqb_neq in Hfull. rewrite Hfull. reflexivity.
Qed.

(** A click on the last hidden safe tile. *)
Lemma click_last_safe_effect x y s tile m p :
  game_over (view s) = false ->
  tile_at (tiles (view s)) x y = Ok tile ->
  revealed tile = false -> is_mine tile = false ->
  calculate_multiplier (safe_tiles (view s)) (mines_count (view s))
    (tiles_revealed (view s) + 1) = Ok m ->
  payout (bet (view s)) m = Ok p ->
  tiles_revealed (view s) + 1 = safe_tiles (view s) ->
  let final_payout := Z.min p (bet (view s) * 1000) in
  process_tile_click x y s =
  (Ok tt,
   {| view :=
        set_controls_disabled true true
          (set_tiles
             (for_each_tile disable
                (update_tile (reveal false) x y (tiles (view s))))
             (set_won true
                (set_game_over true
                   (set_potential_win p
                      (set_current_multiplier m
                         (set_tiles_revealed (tiles_revealed (view s) + 1)
                            (set_tiles
                               (update_tile (reveal false) x y (tiles (view s)))
                               (view s)))))))) ;
      active_games := active_games s ∖ {[ user_id (view s) ]};
      log := log s ++
             [{| ev_call := update_user_balance_call (user_id (view s)) final_payout;
                 ev_game_over := true |};
              {| ev_call := record_mines_stats (user_id (view s)) (bet (view s))
                              final_payout (mines_count (view s))
                              (tiles_revealed (view s) + 1);
                 ev_game_over := true |}] |}).
Proof.
  intros Hgo Htile Hrev Hmine Hm Hp Hfull. destruct s as [v games lg].
  unfold process_tile_click. msimpl.
  rewrite Hgo, Htile. msimpl. rewrite Hrev, Hmine. msimpl.
  rewrite Hm. msimpl. rewrite Hp. msimpl.
  apply Z.eqb_eq in Hfull. rewrite Hfull.
  unfold _handle_victory. msimpl. rewrite <- app_assoc. reflexivity.
Qed.

(** The timeout of an active session. *)
Lemma timeout_effect s :
  game_over (view s) = false ->
  on_timeout s =
  if 0 <? tiles_revealed (view s) then
    (Ok tt,
     {| view := set_game_over true (view (run (_process_cashout true) s));
        active_games := active_games (run (_process_cashout true) s)
                        ∖ {[ user_id (view (run (_process_cashout true) s)) ]};
        log := log (run (_process_cashout true) s) |})
  else if tiles_revealed (view s) =? 0 then
    (Ok tt,
     {| view := set_game_over true
                  (set_tiles (reveal_all (tiles (view s))) (view s));
        active_games := active_games s ∖ {[ user_id (view s) ]};
        log := log s ++
               [{| ev_call := update_user_balance_call (user_id (view s))
                                (bet (view s));
                   ev_game_over := false |}] |})
  else
    (Ok tt,
     {| view := set_game_over true (view s);
        active_games := active_games s ∖ {[ user_id (view s) ]};
        log := log s |}).
Proof.
  intros Hgo. unfold on_timeout. msimpl. rewrite Hgo. msimpl.
  destruct (0 <? tiles_revealed (view s)).
  - pose proof (process_cashout_ok true s) as Hok.
    destruct (_process_cashout true s) as [r s']. msimpl. subst r. reflexivity.
  - destruct (tiles_revealed (view s) =? 0); msimpl; rewrite ?Hgo; reflexivity.
Qed.

End Callbacks.

(* ===================================================================== *)
(** * The payout calculator *)
(* ===================================================================== *)

(** C3, as stated, fails: on the 3x3 grid with three mines the multiplier
    after one safe reveal is not the double 1.425, and after two it is not
    the double 2.1375. *)
Lemma multiplier_is_not_1_425 :
  multiplier_after [Click 1 1] example_session <> PyFloat.decimal 1425 3
  /\ multiplier_after [Click 1 1; Click 1 2] example_session
     <> PyFloat.decimal 21375 4.
Proof. split; vm_compute; discriminate. Qed.

(** C3, amended: calculate_multiplier returns 1.0 at zero tiles revealed;
    otherwise it returns the double-precision value of
    min((totalTiles / (totalTiles - hazardCount)) ^ tilesRevealed * 0.95,
    1000.0): in every configuration of a game a double within four units
    in the last place of that number in exact arithmetic; for every mine
    count below TOTAL_TILES and up to TOTAL_TILES tiles revealed, a double
    within eight units in the last place of it, and exactly the double
    1000.0 where the formula is capped (as with eight mines and four
    tiles).  On the 3x3 grid with
    three mines and a bet of 100 the multiplier after one safe reveal is
    the double one unit in the last place below the double 1.425
    (1.4249999999999998) and the potential win is 142; after two it is the
    double one unit below 2.1375 (2.1374999999999997) and the potential
    win is 213. *)
Theorem calculate_multiplier_formula :
  (forall safe_tiles mines_count,
      calculate_multiplier safe_tiles mines_count 0 = Ok f_1_0)
  /\ f_1_0 = S754_finite false (2 ^ 52) (-52)
  /\ f_1000_0 = S754_finite false (1000 * 2 ^ 43) (-43)
  /\ (forall safe_tiles mines_count k,
         MIN_MINES <= mines_count <= MAX_MINES ->
         0 <= k <= TOTAL_TILES - mines_count ->
         exists m,
           calculate_multiplier safe_tiles mines_count k = Ok m
           /\ PyFloat.within_ulps 4 m
                (spec_multiplier TOTAL_TILES mines_count k).1
                (spec_multiplier TOTAL_TILES mines_count k).2 = true)
  /\ (forall safe_tiles mines_count k,
         0 <= mines_count < TOTAL_TILES -> 0 <= k <= TOTAL_TILES ->
         exists m,
           calculate_multiplier safe_tiles mines_count k = Ok m
           /\ PyFloat.within_ulps 8 m
                (spec_multiplier TOTAL_TILES mines_count k).1
                (spec_multiplier TOTAL_TILES mines_count k).2 = true
           /\ (k <> 0 ->
               1000 * (100 * (TOTAL_TILES - mines_count) ^ k)
               <= 95 * TOTAL_TILES ^ k ->
               m = f_1000_0))
  /\ calculate_multiplier 1 8 4 = Ok f_1000_0
  /\ spec_multiplier TOTAL_TILES 8 4 = (1000, 1)
  /\ spec_multiplier TOTAL_TILES 3 1 = (95 * 9, 100 * 6)
  /\ multiplier_after [Click 1 1] example_session
     = S754_finite false 6417629469002956 (-52)
  /\ PyFloat.decimal 1425 3 = S754_finite false (6417629469002956 + 1) (-52)
  /\ potential_win_after [Click 1 1] example_session = 142
  /\ multiplier_after [Click 1 1; Click 1 2] example_session
     = S754_finite false 4813222101752217 (-51)
  /\ PyFloat.decimal 21375 4 = S754_finite false (4813222101752217 + 1) (-51)
  /\ potential_win_after [Click 1 1; Click 1 2] example_session = 213.
Proof.
  split; [reflexivity|]. split; [reflexivity|]. split; [reflexivity|].
  split.
  { intros safe_tiles mines_count k Hm Hk.
    pose proof (configurations_forall (close_to_spec 4) mines_count k
                  configurations_close_to_spec Hm Hk) as Hclose.
    unfold close_to_spec in Hclose. cbn [fst snd] in Hclose.
    change (calculate_multiplier (TOTAL_TILES - mines_count) mines_count k)
      with (calculate_multiplier safe_tiles mines_count k) in Hclose.
    destruct (calculate_multiplier safe_tiles mines_count k) as [m|];
      [|discriminate].
    apply andb_prop in Hclose as [Hulp _].
    exists m. split; [reflexivity|exact Hulp]. }
  split; [|repeat split; vm_compute; reflexivity].
  intros safe_tiles mines_count k Hm Hk.
  destruct (Z.eq_dec k 0) as [->|Hk0].
  { exists f_1_0. split; [reflexivity|]. split; [reflexivity|congruence]. }
  pose proof unvalidated_close_to_spec as Hall.
  rewrite forallb_forall in Hall.
  specialize (Hall (mines_count, k)). cbn [fst snd] in Hall.
  destruct (Z.eqb_spec mines_count TOTAL_TILES) as [|_]; [lia|].
  cbn [orb] in Hall.
  assert (Hin : In (mines_count, k) unvalidated_configurations)
    by (apply list_elem_of_In, unvalidated_configurations_complete; lia).
  specialize (Hall Hin). unfold close_to_spec in Hall. cbn [fst snd] in Hall.
  change (calculate_multiplier (TOTAL_TILES - mines_count) mines_count k)
    with (calculate_multiplier safe_tiles mines_count k) in Hall.
  destruct (calculate_multiplier safe_tiles mines_count k) as [m|]; [|discriminate].
  apply andb_prop in Hall as [Hulp Hcap].
  exists m. split; [reflexivity|]. split; [exact Hulp|].
  intros _ Hcapped.
  destruct (Z.eqb_spec k 0) as [|_]; [contradiction|].
  destruct (Z.leb_spec (1000 * (100 * (TOTAL_TILES - mines_count) ^ k))
              (95 * TOTAL_TILES ^ k)) as [_|Hlt]; [|lia].
  cbn [orb negb] in Hcap. apply same_eq. exact Hcap.
Qed.

(** C4: for every mine count in [1, TOTAL_TILES - 1] and every number of
    revealed tiles in [0, safe tiles], the multiplier is at least 1.0, at
    most 1000.0, and at least the multiplier at one tile fewer. *)
Theorem multiplier_monotone_bounded safe_tiles mines_count k :
  MIN_MINES <= mines_count <= MAX_MINES ->
  0 <= k <= TOTAL_TILES - mines_count ->
  exists m,
    calculate_multiplier safe_tiles mines_count k = Ok m
    /\ PyFloat.leb f_1_0 m = true
    /\ PyFloat.leb m f_1000_0 = true
    /\ (1 <= k ->
        exists previous,
          calculate_multiplier safe_tiles mines_count (k - 1) = Ok previous
          /\ PyFloat.leb previous m = true).
Proof.
  intros Hm Hk. pose proof (config_ok_valid _ _ Hm Hk) as Hok.
  unfold config_ok in Hok. cbn [fst snd] in Hok.
  rewrite !(calculate_multiplier_ignores_safe_tiles safe_tiles).
  destruct (calculate_multiplier 0 mines_count k) as [m|]; [|discriminate].
  exists m. split; [reflexivity|].
  destruct m as [| | |[] mm em]; try discriminate.
  repeat (apply andb_prop in Hok; destruct Hok as [Hok ?]).
  repeat split; try assumption.
  intros Hk1. destruct (Z.eqb_spec k 0); [lia|].
  destruct (calculate_multiplier 0 mines_count (k - 1)) as [previous|]; [|discriminate].
  exists previous. split; [reflexivity|assumption].
Qed.

Lemma multiplier_monotone_bounded_witness :
  exists m,
    calculate_multiplier 6 3 2 = Ok m
    /\ PyFloat.leb f_1_0 m = true
    /\ PyFloat.leb m f_1000_0 = true
    /\ (1 <= 2 ->
        exists previous,
          calculate_multiplier 6 3 (2 - 1) = Ok previous
          /\ PyFloat.leb previous m = true).
Proof.
  apply (multiplier_monotone_bounded 6 3 2); vm_compute; split; discriminate.
Defined.

(* ===================================================================== *)
(** * Terminal sessions and the order of settlement *)
(* ===================================================================== *)

(** C1, as stated, fails: after a loss (the session is terminal) an exit
    still changes the session, revealing the tiles left hidden. *)
Lemma exit_after_loss_changes_session :
  game_over (view (after [Click 0 0] example_session)) = true
  /\ run exit_callback (after [Click 0 0] example_session)
     <> after [Click 0 0] example_session.
Proof.
  split; [reflexivity|]. intros H.
  apply (f_equal (fun s => map (map revealed) (tiles (view s)))) in H.
  vm_compute in H. discriminate.
Qed.

(** C1, amended: once game_over is set, a reveal, a cashout and a timeout
    are no-ops; no callback (exit included) adds a call to the log, so the
    ledger is not credited again, and none changes game_over, won,
    tiles_revealed, the multiplier, the potential win or the bet; an exit
    still reveals and disables every tile and removes the player from
    active_games. *)
Theorem terminal_session_stays_settled s a :
  game_over (view s) = true ->
  (a <> Exit -> perform a s = (Ok tt, s))
  /\ log (run (perform a) s) = log s
  /\ game_over (view (run (perform a) s)) = true
  /\ won (view (run (perform a) s)) = won (view s)
  /\ tiles_revealed (view (run (perform a) s)) = tiles_revealed (view s)
  /\ current_multiplier (view (run (perform a) s)) = current_multiplier (view s)
  /\ potential_win (view (run (perform a) s)) = potential_win (view s)
  /\ bet (view (run (perform a) s)) = bet (view s)
  /\ (a = Exit ->
      tiles (view (run (perform a) s)) = reveal_all (tiles (view s))
      /\ active_games (run (perform a) s)
         = active_games s ∖ {[ user_id (view s) ]}).
Proof.
  intros Hgo. destruct a as [x y| | |]; cbn [perform].
  - unfold run. rewrite (click_terminal x y s Hgo). cbn [snd].
    repeat split; try assumption; try reflexivity; discriminate.
  - unfold run, cashout_callback. rewrite (cashout_terminal false s Hgo).
    cbn [snd]. repeat split; try assumption; try reflexivity; discriminate.
  - unfold run. rewrite exit_effect. cbn [snd view log active_games]. rewrite Hgo.
    rewrite andb_false_r, app_nil_r.
    repeat split; try reflexivity; intros; congruence.
  - unfold run. rewrite (timeout_terminal s Hgo). cbn [snd].
    repeat split; try assumption; try reflexivity; discriminate.
Qed.

Lemma terminal_session_stays_settled_witness :
  log (run (perform Exit) (after [Click 0 0] example_session))
  = log (after [Click 0 0] example_session)
  /\ perform Timeout (after [Click 0 0] example_session)
     = (Ok tt, after [Click 0 0] example_session).
Proof.
  split.
  - apply (terminal_session_stays_settled (after [Click 0 0] example_session) Exit).
    reflexivity.
  - apply (terminal_session_stays_settled (after [Click 0 0] example_session) Timeout).
    + reflexivity.
    + discriminate.
Defined.

(** C2 on the code: the victory path flips game_over before it credits
    (its calls are logged with game_over already true), while the cashout
    path and the timeout with tiles revealed credit the ledger with
    game_over still false and set it afterwards. *)
Theorem cashout_credits_before_game_over :
  log (after [Click 1 1; Cashout] example_session)
  = [ {| ev_call := add_cash 1 142 "mines_win"; ev_game_over := false |};
      {| ev_call := record_mines_stats 1 100 142 3 1; ev_game_over := false |} ]
  /\ game_over (view (after [Click 1 1; Cashout] example_session)) = true
  /\ log (after [Click 1 1; Timeout] example_session)
     = [ {| ev_call := add_cash 1 142 "mines_win"; ev_game_over := false |};
         {| ev_call := record_mines_stats 1 100 142 3 1; ev_game_over := false |} ]
  /\ log (after [Click 2 2] single_safe_session)
     = [ {| ev_call := add_cash 1 854 "mines_win"; ev_game_over := true |};
         {| ev_call := record_mines_stats 1 100 854 8 1; ev_game_over := true |} ].
Proof. repeat split; vm_compute; reflexivity. Qed.

(* ===================================================================== *)
(** * Settlement *)
(* ===================================================================== *)

Section Settlement.

Lemma stats_records_app s s' new :
  calls_of s' = calls_of s ++ new ->
  stats_records s' = stats_records s ++ filter (fun c => is_stats c = true) new.
Proof. unfold stats_records. intros ->. apply filter_app. Qed.

Lemma example_session_reachable : reachable example_session.
Proof.
  apply reachable_initial; [vm_compute; split; discriminate..|].
  split; [|split].
  - compute_done.
  - reflexivity.
  - compute_done.
Qed.

Lemma single_safe_session_reachable : reachable single_safe_session.
Proof.
  apply reachable_initial; [vm_compute; split; discriminate..|].
  split; [|split].
  - compute_done.
  - reflexivity.
  - compute_done.
Qed.

Lemma after_reachable a s : reachable s -> reachable (after a s).
Proof.
  revert s. induction a as [|a rest IH]; intros s Hs; [exact Hs|].
  cbn [after foldl]. apply IH. apply reachable_step. exact Hs.
Qed.

Lemma four_mine_session_reachable : reachable four_mine_session.
Proof.
  apply reachable_initial; [vm_compute; split; discriminate..|].
  split; [|split].
  - compute_done.
  - reflexivity.
  - compute_done.
Qed.

Lemma double_bet_session_reachable : reachable double_bet_session.
Proof.
  apply reachable_initial; [vm_compute; split; discriminate..|].
  split; [|split].
  - compute_done.
  - reflexivity.
  - compute_done.
Qed.

End Settlement.

(** C5, as stated, fails: the payout is not floor(bet x multiplier).  In
    the session with bet 100 and four mines, after one safe reveal the
    potential win is 171 where the floor of 100 times the multiplier held
    is 170; in the session with bet 200 and three mines, after one safe
    reveal it is 284 where floor(200 x 1.425) is 285. *)
Lemma payout_is_not_the_floor :
  reachable (after [Click 1 1] four_mine_session)
  /\ potential_win_after [Click 1 1] four_mine_session = 171
  /\ spec_payout 100
       (PyFloat.exact (multiplier_after [Click 1 1] four_mine_session)) = 170
  /\ reachable (after [Click 1 1] double_bet_session)
  /\ potential_win_after [Click 1 1] double_bet_session = 284
  /\ spec_payout 200 (spec_multiplier TOTAL_TILES 3 1) = 285.
Proof.
  split; [apply after_reachable; exact four_mine_session_reachable|].
  split; [vm_compute; reflexivity|]. split; [vm_compute; reflexivity|].
  split; [apply after_reachable; exact double_bet_session_reachable|].
  split; vm_compute; reflexivity.
Qed.

(** C5, amended: in every reachable session the potential win is
    int(bet * multiplier) in double-precision arithmetic; it is the floor
    of bet times the multiplier held or that floor plus one, and within
    one of the floor of bet times the multiplier of the specification's
    formula; it is at most bet * 1000, and no amount credited so far
    exceeds bet * 1000.  A cashout credits exactly the potential win, and
    the reveal of the last safe tile credits exactly the potential win it
    has just computed. *)
Theorem payout_within_one_of_floor s :
  reachable s ->
  payout (bet (view s)) (current_multiplier (view s)) = Ok (potential_win (view s))
  /\ (spec_payout (bet (view s)) (PyFloat.exact (current_multiplier (view s)))
      <= potential_win (view s)
      <= spec_payout (bet (view s))
           (PyFloat.exact (current_multiplier (view s))) + 1)
  /\ (spec_payout (bet (view s))
        (spec_multiplier TOTAL_TILES (mines_count (view s))
           (tiles_revealed (view s))) - 1
      <= potential_win (view s)
      <= spec_payout (bet (view s))
           (spec_multiplier TOTAL_TILES (mines_count (view s))
              (tiles_revealed (view s))) + 1)
  /\ 0 < potential_win (view s) <= bet (view s) * 1000
  /\ Forall (fun c => forall u a k, c = add_cash u a k -> a <= bet (view s) * 1000)
            (calls_of s)
  /\ (game_over (view s) = false -> tiles_revealed (view s) <> 0 ->
      calls_of (run cashout_callback s)
      = calls_of s ++
        [add_cash (user_id (view s)) (potential_win (view s)) "mines_win";
         record_mines_stats (user_id (view s)) (bet (view s))
           (potential_win (view s)) (mines_count (view s))
           (tiles_revealed (view s))])
  /\ (forall x y tile,
        game_over (view s) = false ->
        tile_at (tiles (view s)) x y = Ok tile ->
        revealed tile = false -> is_mine tile = false ->
        tiles_revealed (view s) + 1 = safe_tiles (view s) ->
        calls_of (run (process_tile_click x y) s)
        = calls_of s ++
          [add_cash (user_id (view s))
             (potential_win (view (run (process_tile_click x y) s))) "mines_win";
           record_mines_stats (user_id (view s)) (bet (view s))
             (potential_win (view (run (process_tile_click x y) s)))
             (mines_count (view s)) (safe_tiles (view s))]).
Proof.
  intros Hreach. pose proof (reachable_tiles_revealed s Hreach) as Htr.
  destruct (reachable_inv s Hreach)
    as [Hbet Hmines Hsafe Hgrid Hrev Hact Hmul Hpw Hwb Hcr Hsc].
  destruct (payout_against_spec (safe_tiles (view s)) (bet (view s))
              (mines_count (view s)) (tiles_revealed (view s))
              (current_multiplier (view s)) (potential_win (view s))
              Hbet Hmines Htr Hmul Hpw) as [Hstored Hformula].
  split; [exact Hpw|]. split; [exact Hstored|]. split; [exact Hformula|].
  split; [apply Hwb|]. split; [exact Hcr|]. split.
  - intros Hgo Hnz. unfold run, cashout_callback, calls_of.
    rewrite (cashout_effect false s Hgo Hnz). cbn [snd log].
    rewrite map_app. cbn [map ev_call].
    rewrite update_user_balance_call_credit by apply Hwb. reflexivity.
  - intros x y tile Hgo Htile Hrevealed Hmine Hfull.
    destruct (calculate_multiplier_normal (safe_tiles (view s))
                (mines_count (view s)) (tiles_revealed (view s) + 1))
      as (mm & em & Hm & Hdig & Hem); [assumption|lia|].
    destruct (payout_bounds (bet (view s)) mm em) as (p & Hp & Hplo & Hphi);
      [unfold MIN_BET, MAX_BET in *; simpl; lia|assumption|assumption|].
    unfold run, calls_of.
    rewrite (click_last_safe_effect x y s tile _ p Hgo Htile Hrevealed Hmine
               Hm Hp Hfull).
    cbn [snd view log potential_win set_controls_disabled set_tiles
         set_won set_game_over set_potential_win set_current_multiplier
         set_tiles_revealed].
    unfold MIN_BET in Hbet.
    rewrite Z.min_l by lia.
    rewrite update_user_balance_call_credit by lia.
    rewrite map_app, Hfull. reflexivity.
Qed.

Lemma payout_within_one_of_floor_witness :
  payout 100 (current_multiplier (view (after [Click 1 1; Click 1 2] example_session)))
  = Ok 213
  /\ spec_payout 100 (spec_multiplier TOTAL_TILES 3 2) - 1 <= 213
     <= spec_payout 100 (spec_multiplier TOTAL_TILES 3 2) + 1
  /\ calls_of (run cashout_callback (after [Click 1 1; Click 1 2] example_session))
     = [add_cash 1 213 "mines_win"; record_mines_stats 1 100 213 3 2].
Proof.
  pose proof (payout_within_one_of_floor
                (after [Click 1 1; Click 1 2] example_session)
                (after_reachable _ _ example_session_reachable))
    as (Hfloor & _ & Hformula & _ & _ & Hcashout & _).
  split; [exact Hfloor|]. split; [exact Hformula|].
  apply Hcashout; [reflexivity|vm_compute; discriminate].
Defined.

(** C6, as stated, fails: the amount credited on a full clear is not
    floor(bet x multiplier(safeTiles)).  On the board with eight mines and
    a bet of 100 the reveal of the only safe tile credits 854, where
    floor(100 x 8.55) is 855. *)
Lemma full_clear_credit_is_not_the_floor :
  reachable single_safe_session
  /\ calls_of (after [Click 2 2] single_safe_session)
     = [add_cash 1 854 "mines_win"; record_mines_stats 1 100 854 8 1]
  /\ spec_multiplier TOTAL_TILES 8 1 = (95 * 9, 100 * 1)
  /\ spec_payout 100 (spec_multiplier TOTAL_TILES 8 1) = 855.
Proof.
  split; [exact single_safe_session_reachable|].
  repeat split; vm_compute; reflexivity.
Qed.

(** C6, amended: when a reveal brings tiles_revealed to safe_tiles the
    session is won at once (game_over and won are set) and the ledger is
    credited int(bet * multiplier(safe_tiles)) in double-precision
    arithmetic: the floor of bet times the double multiplier or that floor
    plus one, within one of the floor of bet times the multiplier of the
    specification's formula.  This covers the board with a single safe
    tile (eight mines), where a bet of 100 is paid 854. *)
Theorem full_clear_wins s x y tile :
  reachable s ->
  game_over (view s) = false ->
  tile_at (tiles (view s)) x y = Ok tile ->
  revealed tile = false -> is_mine tile = false ->
  tiles_revealed (view s) + 1 = safe_tiles (view s) ->
  exists m p,
    calculate_multiplier (safe_tiles (view s)) (mines_count (view s))
      (safe_tiles (view s)) = Ok m
    /\ payout (bet (view s)) m = Ok p
    /\ (spec_payout (bet (view s)) (PyFloat.exact m) <= p
        <= spec_payout (bet (view s)) (PyFloat.exact m) + 1)
    /\ (spec_payout (bet (view s))
          (spec_multiplier TOTAL_TILES (mines_count (view s))
             (safe_tiles (view s))) - 1
        <= p
        <= spec_payout (bet (view s))
             (spec_multiplier TOTAL_TILES (mines_count (view s))
                (safe_tiles (view s))) + 1)
    /\ game_over (view (run (process_tile_click x y) s)) = true
    /\ won (view (run (process_tile_click x y) s)) = true
    /\ tiles_revealed (view (run (process_tile_click x y) s)) = safe_tiles (view s)
    /\ calls_of (run (process_tile_click x y) s)
       = calls_of s ++
         [add_cash (user_id (view s)) p "mines_win";
          record_mines_stats (user_id (view s)) (bet (view s)) p
            (mines_count (view s)) (safe_tiles (view s))].
Proof.
  intros Hreach Hgo Htile Hrevealed Hmine Hfull.
  destruct (reachable_inv s Hreach)
    as [Hbet Hmines Hsafe Hgrid Hrev Hact Hmul Hpw Hwb Hcr Hsc].
  destruct (calculate_multiplier_normal (safe_tiles (view s)) (mines_count (view s))
              (safe_tiles (view s))) as (mm & em & Hm & Hdig & Hem);
    [assumption|lia|].
  destruct (payout_bounds (bet (view s)) mm em) as (p & Hp & Hplo & Hphi);
    [unfold MIN_BET, MAX_BET in *; simpl; lia|assumption|assumption|].
  assert (Hk : 0 <= safe_tiles (view s) <= TOTAL_TILES - mines_count (view s))
    by lia.
  destruct (payout_against_spec (safe_tiles (view s)) (bet (view s))
              (mines_count (view s)) (safe_tiles (view s))
              (S754_finite false mm em) p Hbet Hmines Hk Hm Hp)
    as [Hstored Hformula].
  exists (S754_finite false mm em), p.
  split; [exact Hm|]. split; [exact Hp|].
  split; [exact Hstored|]. split; [exact Hformula|].
  rewrite <- Hfull in Hm.
  unfold run, calls_of.
  rewrite (click_last_safe_effect x y s tile _ p Hgo Htile Hrevealed Hmine Hm Hp Hfull).
  cbn [snd view log game_over won tiles_revealed set_controls_disabled set_tiles
       set_won set_game_over set_potential_win set_current_multiplier
       set_tiles_revealed].
  unfold MIN_BET in Hbet.
  rewrite Z.min_l by lia.
  rewrite update_user_balance_call_credit by lia.
  rewrite map_app, Hfull. repeat split.
Qed.

Lemma full_clear_wins_witness :
  payout 100 (S754_finite false 4813222101752217 (-49)) = Ok 854
  /\ spec_payout 100 (spec_multiplier TOTAL_TILES 8 1) - 1 <= 854
     <= spec_payout 100 (spec_multiplier TOTAL_TILES 8 1) + 1
  /\ game_over (view (run (process_tile_click 2 2) single_safe_session)) = true
  /\ won (view (run (process_tile_click 2 2) single_safe_session)) = true
  /\ calls_of (run (process_tile_click 2 2) single_safe_session)
     = [add_cash 1 854 "mines_win"; record_mines_stats 1 100 854 8 1].
Proof.
  destruct (full_clear_wins single_safe_session 2 2
              {| tile_x := 2; tile_y := 2; is_mine := false; revealed := false;
                 disabled := false |}
              single_safe_session_reachable eq_refl eq_refl eq_refl eq_refl
              eq_refl)
    as (m & p & Hm & Hp & _ & Hformula & Hgo & Hwon & _ & Hcalls).
  assert (Hmv : m = S754_finite false 4813222101752217 (-49))
    by (vm_compute in Hm; congruence).
  subst m.
  assert (Hpv : p = 854) by (vm_compute in Hp; congruence).
  subst p.
  split; [exact Hp|]. split; [exact Hformula|].
  split; [exact Hgo|]. split; [exact Hwon|]. exact Hcalls.
Defined.

(** C7: in an active session an exit with no tile revealed credits back
    exactly the bet, and an exit with tiles revealed issues no call to the
    ledger at all; either way the session is over. *)
Theorem exit_refunds_untouched_session s :
  reachable s ->
  game_over (view s) = false ->
  game_over (view (run exit_callback s)) = true
  /\ (tiles_revealed (view s) = 0 ->
      calls_of (run exit_callback s)
      = calls_of s ++ [add_cash (user_id (view s)) (bet (view s)) "mines_win"])
  /\ (0 < tiles_revealed (view s) ->
      calls_of (run exit_callback s) = calls_of s).
Proof.
  intros Hreach Hgo. pose proof (inv_bet s (reachable_inv s Hreach)) as Hbet.
  unfold MIN_BET in Hbet.
  unfold run, calls_of. rewrite exit_effect. cbn [snd view log game_over set_game_over].
  rewrite Hgo. split; [reflexivity|]. split.
  - intros ->. cbn [Z.eqb andb negb]. rewrite map_app. cbn [map ev_call].
    rewrite update_user_balance_call_credit by lia. reflexivity.
  - intros Hpos. destruct (Z.eqb_spec (tiles_revealed (view s)) 0); [lia|].
    cbn [andb]. rewrite app_nil_r. reflexivity.
Qed.

Lemma exit_refunds_untouched_session_witness :
  calls_of (run exit_callback example_session) = [] ++ [add_cash 1 100 "mines_win"]
  /\ calls_of (run exit_callback (after [Click 1 1] example_session)) = [].
Proof.
  split.
  - apply (exit_refunds_untouched_session example_session
             example_session_reachable); reflexivity.
  - apply (exit_refunds_untouched_session (after [Click 1 1] example_session)
             (after_reachable _ _ example_session_reachable)); reflexivity.
Defined.

(** C8: the timeout of an active session with tiles revealed is the
    cashout (same final state): it credits the current potential win,
    which is int(bet * current multiplier); with no tile revealed it
    credits back exactly the bet. *)
Theorem timeout_cashes_out_or_refunds s :
  reachable s ->
  game_over (view s) = false ->
  game_over (view (run on_timeout s)) = true
  /\ (0 < tiles_revealed (view s) ->
      run on_timeout s = run cashout_callback s
      /\ payout (bet (view s)) (current_multiplier (view s))
         = Ok (potential_win (view s))
      /\ calls_of (run on_timeout s)
         = calls_of s ++
           [add_cash (user_id (view s)) (potential_win (view s)) "mines_win";
            record_mines_stats (user_id (view s)) (bet (view s))
              (potential_win (view s)) (mines_count (view s))
              (tiles_revealed (view s))])
  /\ (tiles_revealed (view s) = 0 ->
      calls_of (run on_timeout s)
      = calls_of s ++ [add_cash (user_id (view s)) (bet (view s)) "mines_win"]).
Proof.
  intros Hreach Hgo.
  destruct (reachable_inv s Hreach)
    as [Hbet Hmines Hsafe Hgrid Hrev Hact Hmul Hpw Hwb Hcr Hsc].
  unfold MIN_BET in Hbet.
  unfold run at 1 2 4 5. rewrite (timeout_effect s Hgo).
  destruct (Z.ltb_spec 0 (tiles_revealed (view s))) as [Hpos|Hzero].
  - assert (Htr : tiles_revealed (view s) <> 0) by lia.
    unfold run, cashout_callback, calls_of.
    rewrite (cashout_effect true s Hgo Htr), (cashout_effect false s Hgo Htr).
    cbn [snd view log active_games game_over user_id set_game_over
         set_controls_disabled set_tiles set_won].
    split; [reflexivity|]. split; [|intros; lia].
    intros _. split; [|split; [exact Hpw|]].
    + f_equal. apply set_eq. intros u. rewrite !elem_of_difference. tauto.
    + rewrite map_app. cbn [map ev_call].
      rewrite update_user_balance_call_credit by lia. reflexivity.
  - destruct (Z.eqb_spec (tiles_revealed (view s)) 0) as [Hz|Hnz]; [|lia].
    unfold calls_of. cbn [snd view log game_over set_game_over].
    split; [reflexivity|]. split; [intros; lia|].
    intros _. rewrite map_app. cbn [map ev_call].
    rewrite update_user_balance_call_credit by lia. reflexivity.
Qed.

Lemma timeout_cashes_out_or_refunds_witness :
  run on_timeout (after [Click 1 1] example_session)
  = run cashout_callback (after [Click 1 1] example_session)
  /\ calls_of (run on_timeout example_session)
     = [] ++ [add_cash 1 100 "mines_win"].
Proof.
  split.
  - apply (timeout_cashes_out_or_refunds (after [Click 1 1] example_session)
             (after_reachable _ _ example_session_reachable)); reflexivity.
  - apply (timeout_cashes_out_or_refunds example_session
             example_session_reachable); reflexivity.
Defined.

(** C10, as stated, fails: an exit ends the session without any record
    forwarded to the statistics. *)
Lemma exit_records_no_statistics :
  game_over (view example_session) = false
  /\ game_over (view (run exit_callback example_session)) = true
  /\ stats_records (run exit_callback example_session) = [].
Proof. repeat split. Qed.

(** C10, amended: a transition of an active session to game over forwards
    exactly one record (player, bet, payout, mine count, tiles revealed)
    to record_mines_stats when it is a loss, a victory, a cashout or a
    timeout with tiles revealed, the payout being 0 for a loss and the
    potential win otherwise; an exit and a timeout with no tile revealed
    forward none. *)
Theorem terminal_transition_statistics s a :
  reachable s ->
  game_over (view s) = false ->
  game_over (view (run (perform a) s)) = true ->
  stats_records (run (perform a) s)
  = stats_records s ++
    match a with
    | Exit => []
    | Timeout =>
        if 0 <? tiles_revealed (view s)
        then [record_mines_stats (user_id (view s)) (bet (view s))
                (potential_win (view s)) (mines_count (view s))
                (tiles_revealed (view s))]
        else []
    | Cashout | Click _ _ =>
        [record_mines_stats (user_id (view s)) (bet (view s))
           (if won (view (run (perform a) s))
            then potential_win (view (run (perform a) s)) else 0)
           (mines_count (view s))
           (tiles_revealed (view (run (perform a) s)))]
    end.
Proof.
  intros Hreach Hgo Hover.
  destruct (reachable_inv s Hreach)
    as [Hbet Hmines Hsafe Hgrid Hrev Hact Hmul Hpw Hwb Hcr Hsc].
  destruct (Hact Hgo) as (Hcount & Hlt & Hnone).
  unfold MIN_BET in Hbet.
  destruct a as [x y| | |]; cbn [perform] in *.
  - (* a click *)
    revert Hover. unfold run.
    destruct (tile_at (tiles (view s)) x y) as [tile|e] eqn:Htile.
    2:{ unfold process_tile_click. msimpl. rewrite Hgo, Htile. msimpl.
        rewrite ?Hgo. discriminate. }
    destruct (revealed tile) eqn:Hrevealed.
    { unfold process_tile_click. msimpl. rewrite Hgo, Htile. msimpl.
      rewrite Hrevealed. msimpl. rewrite ?Hgo. discriminate. }
    destruct (is_mine tile) eqn:Hmine.
    + rewrite (click_mine_effect x y s tile Hgo Htile Hrevealed Hmine).
      intros _. cbn [snd view won tiles_revealed set_tiles set_won set_game_over].
      erewrite stats_records_app.
      2:{ unfold calls_of. cbn [log]. rewrite map_app. reflexivity. }
      reflexivity.
    + destruct (calculate_multiplier_normal (safe_tiles (view s)) (mines_count (view s))
                  (tiles_revealed (view s) + 1)) as (mm & em & Hm & Hdig & Hem);
        [assumption|lia|].
      destruct (payout_bounds (bet (view s)) mm em) as (p & Hp & Hplo & Hphi);
        [unfold MAX_BET in *; simpl; lia|assumption|assumption|].
      destruct (Z.eq_dec (tiles_revealed (view s) + 1) (safe_tiles (view s)))
        as [Hfull|Hmore].
      * rewrite (click_last_safe_effect x y s tile _ p Hgo Htile Hrevealed Hmine
                   Hm Hp Hfull).
        intros _.
        cbn [snd view won tiles_revealed potential_win set_controls_disabled
             set_tiles set_won set_game_over set_potential_win
             set_current_multiplier set_tiles_revealed].
        rewrite Z.min_l by lia.
        erewrite stats_records_app.
        2:{ unfold calls_of. cbn [log]. rewrite map_app. reflexivity. }
        cbn [map ev_call].
        rewrite update_user_balance_call_credit by lia. reflexivity.
      * rewrite (click_safe_effect x y s tile _ p Hgo Htile Hrevealed Hmine
                   Hm Hp Hmore).
        cbn [snd view game_over set_potential_win set_current_multiplier
             set_tiles_revealed set_tiles].
        rewrite ?Hgo. discriminate.
  - (* cashout *)
    revert Hover. unfold run, cashout_callback.
    destruct (Z.eq_dec (tiles_revealed (view s)) 0) as [Hzero|Htr].
    { unfold _process_cashout. msimpl. rewrite Hgo, Hzero. cbn [orb Z.eqb]. msimpl.
      rewrite ?Hgo. discriminate. }
    rewrite (cashout_effect false s Hgo Htr). intros _.
    cbn [snd view won tiles_revealed potential_win set_controls_disabled
         set_tiles set_won set_game_over].
    erewrite stats_records_app.
    2:{ unfold calls_of. cbn [log]. rewrite map_app. reflexivity. }
    cbn [map ev_call].
    rewrite update_user_balance_call_credit by lia. reflexivity.
  - (* exit *)
    unfold run. rewrite exit_effect. cbn [snd].
    erewrite stats_records_app.
    2:{ unfold calls_of. cbn [log]. rewrite map_app. reflexivity. }
    rewrite Hgo.
    destruct (tiles_revealed (view s) =? 0); cbn [andb negb map ev_call];
      [|reflexivity].
    rewrite update_user_balance_call_credit by lia. reflexivity.
  - (* timeout *)
    unfold run. rewrite (timeout_effect s Hgo).
    destruct (Z.ltb_spec 0 (tiles_revealed (view s))) as [Hpos|Hnone'].
    + assert (Htr : tiles_revealed (view s) <> 0) by lia.
      unfold run. rewrite (cashout_effect true s Hgo Htr). cbn [snd log].
      erewrite stats_records_app.
      2:{ unfold calls_of. cbn [log]. rewrite map_app. reflexivity. }
      cbn [map ev_call].
      rewrite update_user_balance_call_credit by lia. reflexivity.
    + destruct (Z.eqb_spec (tiles_revealed (view s)) 0) as [Hz|Hnz]; [|lia].
      cbn [snd].
      erewrite stats_records_app.
      2:{ unfold calls_of. cbn [log]. rewrite map_app. reflexivity. }
      cbn [map ev_call].
      rewrite update_user_balance_call_credit by lia. reflexivity.
Qed.

Lemma terminal_transition_statistics_witness :
  stats_records (run (perform (Click 0 0)) example_session)
  = stats_records example_session ++ [record_mines_stats 1 100 0 3 0]
  /\ stats_records (run (perform Exit) example_session)
     = stats_records example_session ++ [].
Proof.
  split.
  - apply (terminal_transition_statistics example_session (Click 0 0)
             example_session_reachable); reflexivity.
  - apply (terminal_transition_statistics example_session Exit
             example_session_reachable); reflexivity.
Defined.

(* ===================================================================== *)
(** * Validation *)
(* ===================================================================== *)

Section CommandFacts.

Variable parse : string -> Z -> parse_outcome.

Lemma net_cash_app user l1 l2 :
  net_cash user (l1 ++ l2) = net_cash user l1 + net_cash user l2.
Proof.
  unfold net_cash. induction l1 as [|c l1 IH]; cbn [foldr app]; [lia|].
  rewrite IH. lia.
Qed.


Lemma mines_accepts user bet cash w modal w' :
  mines parse user bet cash true w = (Some modal, w') ->
  modal_user_id modal = user
  /\ MIN_BET <= modal_bet_amount modal <= MAX_BET
  /\ modal_bet_amount modal <= cash
  /\ user ∈ cog_active_games w'
  /\ cog_calls w'
     = cog_calls w ++ [get_cash user;
                       add_cash user (- modal_bet_amount modal) "mines_bet"].
Proof.
  unfold mines.
  destruct (decide (user ∈ cog_active_games w)); [discriminate|].
  destruct (parse_bet parse bet cash) as [amount|]; [|discriminate].
  destruct (Z.ltb_spec amount MIN_BET); [discriminate|].
  destruct (Z.ltb_spec MAX_BET amount); [discriminate|].
  destruct (Z.ltb_spec cash amount); [discriminate|].
  intros [= <- <-]. cbn. repeat split; try lia.
  - apply elem_of_union_l, elem_of_singleton. reflexivity.
  - rewrite <- app_assoc. reflexivity.
Qed.


End CommandFacts.




(* ===================================================================== *)
(** * More on the multiplier *)
(* ===================================================================== *)

(** X1: [calculate_multiplier] checks none of its arguments.  With
    [TOTAL_TILES] mines and a tile revealed it raises ZeroDivisionError;
    with fewer mines (none included) it returns a positive double for
    every number of revealed tiles from 1 to [TOTAL_TILES], be it above the
    number of safe tiles. *)
Theorem calculate_multiplier_unvalidated safe_tiles mines_count k :
  (k <> 0 ->
   calculate_multiplier safe_tiles TOTAL_TILES k = Raise ZeroDivisionError)
  /\ (0 <= mines_count < TOTAL_TILES -> 1 <= k <= TOTAL_TILES ->
      exists m,
        calculate_multiplier safe_tiles mines_count k = Ok m
        /\ PyFloat.ltb (S754_zero false) m = true).
Proof.
  split.
  - intros Hk. unfold calculate_multiplier.
    apply Z.eqb_neq in Hk. rewrite Hk. reflexivity.
  - intros Hm Hk.
    pose proof unvalidated_configurations_ok as Hall.
    rewrite forallb_forall in Hall.
    specialize (Hall (mines_count, k)).
    rewrite (calculate_multiplier_ignores_safe_tiles safe_tiles).
    unfold division_ok in Hall. cbn [fst snd] in Hall.
    destruct (calculate_multiplier 0 mines_count k) as [m|e].
    + exists m. split; [reflexivity|].
      apply andb_prop in Hall as [_ Hpos]; [exact Hpos|].
      apply list_elem_of_In, unvalidated_configurations_complete; lia.
    + exfalso.
      assert (Hin : In (mines_count, k) unvalidated_configurations)
        by (apply list_elem_of_In, unvalidated_configurations_complete; lia).
      specialize (Hall Hin). destruct e; try discriminate.
      apply Z.eqb_eq in Hall. lia.
Qed.

Lemma calculate_multiplier_unvalidated_witness :
  calculate_multiplier 0 TOTAL_TILES 1 = Raise ZeroDivisionError
  /\ exists m,
       calculate_multiplier 0 0 9 = Ok m
       /\ PyFloat.ltb (S754_zero false) m = true.
Proof.
  split.
  - apply (calculate_multiplier_unvalidated 0 0 1). discriminate.
  - apply (calculate_multiplier_unvalidated 0 0 9); vm_compute; split; congruence.
Defined.

(** X2: in every configuration of a game with a tile revealed, the multiplier
    is the product of the power and the house edge as it stands: the cap
    of 1000.0 never applies, all multipliers lying below 26. *)
Theorem multiplier_cap_never_applies safe_tiles mines_count k :
  MIN_MINES <= mines_count <= MAX_MINES ->
  1 <= k <= TOTAL_TILES - mines_count ->
  exists m,
    uncapped_multiplier mines_count k = Ok m
    /\ calculate_multiplier safe_tiles mines_count k = Ok m
    /\ PyFloat.ltb m (PyFloat.decimal 26 0) = true.
Proof.
  intros Hm Hk.
  pose proof (configurations_forall cap_idle mines_count k
                configurations_cap_idle Hm ltac:(lia)) as Hok.
  unfold cap_idle in Hok. cbn [fst snd] in Hok.
  destruct (Z.eqb_spec k 0) as [|Hk0]; [lia|]. cbn [orb] in Hok.
  unfold calculate_multiplier. apply Z.eqb_neq in Hk0. rewrite Hk0.
  unfold uncapped_multiplier in *.
  destruct (PyFloat.int_truediv TOTAL_TILES (TOTAL_TILES - mines_count))
    as [base|]; [|discriminate]. cbn [rbind] in *.
  destruct (PyFloat.pow_int base k) as [p|]; [|discriminate]. cbn [rbind] in *.
  apply andb_prop in Hok as [Hcap Hlt]. apply negb_true_iff in Hcap.
  exists (PyFloat.mul p f_0_95). split; [reflexivity|]. split; [|exact Hlt].
  unfold PyFloat.min. rewrite Hcap. reflexivity.
Qed.

Lemma multiplier_cap_never_applies_witness :
  exists m,
    uncapped_multiplier 6 3 = Ok m
    /\ calculate_multiplier 3 6 3 = Ok m
    /\ PyFloat.ltb m (PyFloat.decimal 26 0) = true.
Proof.
  apply (multiplier_cap_never_applies 3 6 3); vm_compute; split; congruence.
Defined.

(** X3: in every configuration of a game the multiplier is strictly above the
    multiplier at one tile fewer (so above 1.0 from the first reveal on)
    and strictly above the multiplier of the game with one mine fewer at
    the same number of revealed tiles. *)
Theorem multiplier_strictly_increasing safe_tiles mines_count k :
  MIN_MINES <= mines_count <= MAX_MINES ->
  1 <= k <= TOTAL_TILES - mines_count ->
  exists m previous,
    calculate_multiplier safe_tiles mines_count k = Ok m
    /\ calculate_multiplier safe_tiles mines_count (k - 1) = Ok previous
    /\ PyFloat.ltb previous m = true
    /\ PyFloat.ltb f_1_0 m = true
    /\ (MIN_MINES < mines_count ->
        exists fewer,
          calculate_multiplier (safe_tiles + 1) (mines_count - 1) k = Ok fewer
          /\ PyFloat.ltb fewer m = true).
Proof.
  intros Hm Hk.
  pose proof (configurations_forall strictly_above mines_count k
                configurations_strictly_above Hm ltac:(lia)) as Hok.
  pose proof (configurations_forall config_ok mines_count k
                configurations_ok Hm ltac:(lia)) as Hcfg.
  pose proof (configurations_forall cap_idle mines_count k
                configurations_cap_idle Hm ltac:(lia)) as Hcap.
  unfold strictly_above in Hok. cbn [fst snd] in Hok.
  rewrite !(calculate_multiplier_ignores_safe_tiles safe_tiles).
  rewrite (calculate_multiplier_ignores_safe_tiles (safe_tiles + 1)).
  destruct (Z.eqb_spec k 0) as [|Hk0]; [lia|]. cbn [orb] in Hok.
  destruct (calculate_multiplier 0 mines_count k) as [m|] eqn:Hmk; [|discriminate].
  apply andb_prop in Hok as [Hprev Hfewer].
  destruct (calculate_multiplier 0 mines_count (k - 1)) as [previous|] eqn:Hp;
    [|discriminate].
  exists m, previous. split; [reflexivity|]. split; [reflexivity|].
  split; [exact Hprev|]. split.
  - (* above 1.0: the multiplier at one tile is, and the others follow *)
    clear Hfewer Hcap.
    pose proof (configurations_forall strictly_above mines_count 1
                  configurations_strictly_above Hm ltac:(lia)) as Hone.
    unfold strictly_above in Hone. cbn [fst snd] in Hone.
    pose proof (configurations_forall
                  (fun c => match calculate_multiplier 0 c.1 c.2 with
                            | Ok m => (c.2 =? 0) || PyFloat.ltb f_1_0 m
                            | Raise _ => false
                            end)
                  mines_count k) as Habove.
    cbn [fst snd] in Habove. rewrite Hmk in Habove.
    apply Z.eqb_neq in Hk0. rewrite Hk0 in Habove. cbn [orb] in Habove.
    apply Habove; [vm_compute; reflexivity|assumption|lia].
  - intros Hmin. destruct (Z.eqb_spec mines_count MIN_MINES) as [|Hne]; [lia|].
    destruct (calculate_multiplier 0 (mines_count - 1) k) as [fewer|];
      [|discriminate].
    exists fewer. split; [reflexivity|exact Hfewer].
Qed.

Lemma multiplier_strictly_increasing_witness :
  exists m previous,
    calculate_multiplier 6 3 2 = Ok m
    /\ calculate_multiplier 6 3 (2 - 1) = Ok previous
    /\ PyFloat.ltb previous m = true
    /\ PyFloat.ltb f_1_0 m = true
    /\ (MIN_MINES < 3 ->
        exists fewer,
          calculate_multiplier (6 + 1) (3 - 1) 2 = Ok fewer
          /\ PyFloat.ltb fewer m = true).
Proof.
  apply (multiplier_strictly_increasing 6 3 2); vm_compute; split; congruence.
Defined.

(* ===================================================================== *)
(** * The payout is never below the bet *)
(* ===================================================================== *)

Section PayoutLower.

(** The product of a normal double [x] with a normal double of exponent at
    least -52 (a value of at least 1) is not below [x]. *)
Lemma mul_ge_left mx ex my ey :
  Zpos (digits2_pos mx) = 53 -> Zpos (digits2_pos my) = 53 ->
  -52 <= ey ->
  -1074 <= ex + ey + 52 -> ex + ey + 53 <= 970 ->
  exists m e,
    PyFloat.mul (S754_finite false mx ex) (S754_finite false my ey)
    = S754_finite false m e
    /\ ex <= e
    /\ Zpos mx <= Zpos m * 2 ^ (e - ex).
Proof.
  intros Hdx Hdy Hey Hlo Hhi.
  pose proof (digits2_pos_bounds mx) as Hx. rewrite Hdx in Hx.
  pose proof (digits2_pos_bounds my) as Hy. rewrite Hdy in Hy.
  pose proof (digits2_pos_bounds (mx * my)) as HM.
  set (d := Zpos (digits2_pos (mx * my))) in *.
  rewrite Pos2Z.inj_mul in HM.
  assert (Hd : 105 <= d <= 106).
  { split.
    - destruct (Z_le_gt_dec 105 d) as [|Hgt]; [assumption|exfalso].
      assert (2 ^ d <= 2 ^ 104) by (apply Z.pow_le_mono_r; lia).
      simpl in *. nia.
    - destruct (Z_le_gt_dec d 106) as [|Hgt]; [assumption|exfalso].
      assert (2 ^ 106 <= 2 ^ (d - 1)) by (apply Z.pow_le_mono_r; lia).
      simpl in *. nia. }
  unfold PyFloat.mul, SFmul. cbn [xorb].
  destruct (binary_round_aux_normal false (mx * my) (ex + ey))
    as (m & e & q & -> & Hq & _ & He & Hval & _); fold d; try lia.
  fold d in Hq, He, Hval.
  exists m, e. split; [reflexivity|].
  set (n := d - 53) in *.
  rewrite Pos2Z.inj_mul in Hq.
  set (M := Zpos mx * Zpos my) in *.
  assert (HB : 0 < 2 ^ n) by (apply Z.pow_pos_nonneg; lia).
  split; [lia|].
  (* the value of the result, scaled by 2^-ex, is q * 2^(ey + n) *)
  assert (Hscaled : Zpos m * 2 ^ (e - ex) = q * 2 ^ (ey + n)).
  { rewrite <- Hval, <- Z.mul_assoc, <- Z.pow_add_r by lia.
    do 2 f_equal. lia. }
  rewrite Hscaled.
  assert (HQ : 2 ^ 52 <= M / 2 ^ n).
  { apply Z.div_le_lower_bound; [lia|].
    rewrite Z.mul_comm, <- Z.pow_add_r by lia.
    replace (52 + n) with (d - 1) by lia. lia. }
  destruct (Z.eq_dec (ey + n) 0) as [Hzero|Hpos].
  - (* exponent -52 and a 105-bit product: the quotient is at least mx *)
    rewrite Hzero, Z.mul_1_r.
    assert (Hn : n = 52) by lia.
    assert (Zpos mx <= M / 2 ^ n); [|lia].
    apply Z.div_le_lower_bound; [lia|].
    rewrite Hn. unfold M. rewrite Z.mul_comm.
    apply Z.mul_le_mono_nonneg_l; [lia|]. simpl in *. lia.
  - assert (2 ^ 1 <= 2 ^ (ey + n)) by (apply Z.pow_le_mono_r; lia).
    assert (2 ^ 53 <= q * 2 ^ (ey + n)); [|simpl in *; lia].
    change (2 ^ 53) with (2 ^ 52 * 2 ^ 1).
    apply Z.mul_le_mono_nonneg; simpl in *; lia.
Qed.

Lemma payout_at_least_bet bet mm em p :
  0 < bet < 2 ^ 53 ->
  Zpos (digits2_pos mm) = 53 -> -52 <= em <= -48 ->
  payout bet (S754_finite false mm em) = Ok p ->
  bet <= p.
Proof.
  intros Hbet Hdm Hem. unfold payout, PyFloat.int_mul.
  destruct (of_int_normal bet Hbet) as (mb & eb & -> & Hmb & Heb & Hdb).
  cbn [rbind].
  destruct (mul_ge_left mb eb mm em) as (m & e & -> & He & Hval);
    try assumption; try lia.
  unfold PyFloat.to_int. intros [= <-].
  assert (H1 : 0 < 2 ^ (- eb)) by (apply Z.pow_pos_nonneg; lia).
  assert (H2 : 0 < 2 ^ (e - eb)) by (apply Z.pow_pos_nonneg; lia).
  rewrite Hmb in Hval.
  destruct (Z.leb_spec 0 e) as [Hpos|Hneg].
  - (* an integral double *)
    assert (Hsplit : 2 ^ (e - eb) = 2 ^ e * 2 ^ (- eb)).
    { rewrite <- Z.pow_add_r by lia. f_equal; lia. }
    rewrite Hsplit, Z.mul_assoc in Hval.
    apply (proj2 (Z.mul_le_mono_pos_r bet (Zpos m * 2 ^ e) (2 ^ (- eb)) H1)).
    exact Hval.
  - assert (H3 : 0 < 2 ^ (- e)) by (apply Z.pow_pos_nonneg; lia).
    apply Z.div_le_lower_bound; [exact H3|].
    assert (Hsplit : 2 ^ (- eb) = 2 ^ (- e) * 2 ^ (e - eb)).
    { rewrite <- Z.pow_add_r by lia. f_equal; lia. }
    rewrite Hsplit in Hval.
    apply (proj2 (Z.mul_le_mono_pos_r (2 ^ (- e) * bet) (Zpos m) (2 ^ (e - eb)) H2)).
    replace (2 ^ (- e) * bet * 2 ^ (e - eb))
      with (bet * (2 ^ (- e) * 2 ^ (e - eb))) by ring.
    exact Hval.
Qed.

End PayoutLower.

(* ===================================================================== *)
(** * The callbacks on any state *)
(* ===================================================================== *)

Section AnyState.

Lemma perform_keeps_parameters a s :
  user_id (view (run (perform a) s)) = user_id (view s)
  /\ bet (view (run (perform a) s)) = bet (view s)
  /\ mines_count (view (run (perform a) s)) = mines_count (view s)
  /\ safe_tiles (view (run (perform a) s)) = safe_tiles (view s).
Proof.
  destruct s as [v games lg].
  destruct a as [x y| | |]; unfold_callbacks; callback_cases; auto.
Qed.

Lemma tile_at_update_eq f g x y t :
  tile_at g x y = Ok t -> tile_at (update_tile f x y g) x y = Ok (f t).
Proof.
  intros (column & Hx & Hy)%tile_at_Ok. apply tile_at_Ok.
  exists (alter f y column). unfold update_tile. split.
  - rewrite list_lookup_alter_eq, Hx. reflexivity.
  - rewrite list_lookup_alter_eq, Hy. reflexivity.
Qed.

Lemma click_over_noop x y s :
  game_over (view s) = true -> run (process_tile_click x y) s = s.
Proof. intros H. unfold run. rewrite (click_terminal x y s H). reflexivity. Qed.

Lemma click_revealed_noop x y s t :
  game_over (view s) = false ->
  tile_at (tiles (view s)) x y = Ok t ->
  revealed t = true ->
  run (process_tile_click x y) s = s.
Proof.
  intros Hgo Ht Hr. unfold process_tile_click. msimpl.
  rewrite Hgo, Ht. msimpl. rewrite Hr. reflexivity.
Qed.

End AnyState.

(** X4: a second click on the same tile changes nothing, whatever the state
    of the session and whatever the first click did: the tile is revealed
    or the game is over by then. *)
Theorem click_twice_is_click_once x y s :
  run (process_tile_click x y) (run (process_tile_click x y) s)
  = run (process_tile_click x y) s.
Proof.
  destruct (game_over (view s)) eqn:Hgo.
  { rewrite !(click_over_noop x y s Hgo). reflexivity. }
  destruct (tile_at (tiles (view s)) x y) as [tile|e] eqn:Htile.
  2:{ assert (Hsame : run (process_tile_click x y) s = s).
      { unfold process_tile_click. msimpl. rewrite Hgo, Htile. reflexivity. }
      rewrite !Hsame. reflexivity. }
  destruct (revealed tile) eqn:Hrevealed.
  { rewrite !(click_revealed_noop x y s tile Hgo Htile Hrevealed). reflexivity. }
  (* a hidden tile: the first click ends the game or leaves the tile
     revealed, also when the multiplier or the payout raises *)
  assert (Hfirst : game_over (view (run (process_tile_click x y) s)) = true
                   \/ (game_over (view (run (process_tile_click x y) s)) = false
                       /\ tile_at (tiles (view (run (process_tile_click x y) s))) x y
                          = Ok (reveal false tile))).
  { pose proof (tile_at_update_eq (reveal false) (tiles (view s)) x y tile Htile)
      as Hafter.
    destruct s as [v games lg]. cbn [view] in *.
    unfold process_tile_click. msimpl.
    rewrite Hgo, Htile. msimpl. rewrite Hrevealed.
    unfold _handle_victory. callback_cases;
      first [left; reflexivity | right; split; [exact Hgo|exact Hafter]]. }
  destruct Hfirst as [Hover|[Hon Hshown]].
  - apply click_over_noop. exact Hover.
  - apply (click_revealed_noop x y _ _ Hon Hshown). reflexivity.
Qed.

Section Registry.

Lemma registry_step a s :
  (game_over (view (run (perform a) s)) = false ->
   active_games (run (perform a) s) = active_games s)
  /\ (game_over (view s) = false ->
      game_over (view (run (perform a) s)) = true ->
      active_games (run (perform a) s)
      = active_games s ∖ {[ user_id (view s) ]})
  /\ active_games (run (perform a) s) ⊆ active_games s.
Proof.
  destruct s as [v games lg].
  assert (Hsub : games ∖ {[ user_id v ]} ⊆ games).
  { intros u Hu. apply elem_of_difference in Hu. apply Hu. }
  assert (Htwice : games ∖ {[ user_id v ]} ∖ {[ user_id v ]}
                   = games ∖ {[ user_id v ]}).
  { apply set_eq. intros u. rewrite !elem_of_difference. tauto. }
  destruct a as [x y| | |]; unfold_callbacks; callback_cases;
    repeat split; intros; try congruence; try reflexivity;
    try exact Hsub; try exact Htwice.
  rewrite Htwice. exact Hsub.
Qed.

Lemma game_over_stays a s :
  game_over (view s) = true -> game_over (view (run (perform a) s)) = true.
Proof.
  intros Hgo. destruct a as [x y| | |]; cbn [perform].
  - rewrite (click_over_noop x y s Hgo). exact Hgo.
  - unfold run, cashout_callback. rewrite (cashout_terminal false s Hgo). exact Hgo.
  - unfold run. rewrite exit_effect. reflexivity.
  - unfold run. rewrite (timeout_terminal s Hgo). exact Hgo.
Qed.

Lemma after_cons a rest s :
  after (a :: rest) s = after rest (run (perform a) s).
Proof. reflexivity. Qed.

Lemma game_over_stays_after actions s :
  game_over (view s) = true -> game_over (view (after actions s)) = true.
Proof.
  revert s. induction actions as [|a rest IH]; intros s Hgo; [exact Hgo|].
  rewrite after_cons. apply IH. apply game_over_stays. exact Hgo.
Qed.

Lemma user_id_after actions s :
  user_id (view (after actions s)) = user_id (view s).
Proof.
  revert s. induction actions as [|a rest IH]; intros s; [reflexivity|].
  rewrite after_cons. rewrite IH. apply perform_keeps_parameters.
Qed.

Lemma removed_twice (games : gset Z) user :
  games ∖ {[ user ]} ∖ {[ user ]} = games ∖ {[ user ]}.
Proof. apply set_eq. intros u. rewrite !elem_of_difference. tauto. Qed.

(** Once the player has been removed, nothing changes in the registry. *)
Lemma registry_after_removal actions s games :
  active_games s = games ∖ {[ user_id (view s) ]} ->
  active_games (after actions s) = games ∖ {[ user_id (view s) ]}.
Proof.
  revert s. induction actions as [|a rest IH]; intros s Hs; [exact Hs|].
  rewrite after_cons.
  destruct (perform_keeps_parameters a s) as (Huser & _).
  rewrite <- Huser. apply IH. rewrite Huser.
  destruct (registry_step a s) as (Hsame & Hdrop & _).
  destruct (game_over (view (run (perform a) s))) eqn:Hgo'.
  - destruct (game_over (view s)) eqn:Hgo.
    + (* already over: a no-op, or an exit that removes the player again *)
      destruct a as [x y| | |]; cbn [perform].
      * rewrite (click_over_noop x y s Hgo). exact Hs.
      * unfold run, cashout_callback. rewrite (cashout_terminal false s Hgo).
        exact Hs.
      * unfold run. rewrite exit_effect. cbn [snd active_games].
        rewrite Hs. apply removed_twice.
      * unfold run. rewrite (timeout_terminal s Hgo). exact Hs.
    + rewrite (Hdrop eq_refl eq_refl), Hs. apply removed_twice.
  - rewrite (Hsame eq_refl). exact Hs.
Qed.

End Registry.

(** X5: whatever callbacks run on a session, in whatever order: none ever
    adds a key to [active_games]; as long as the session is running the
    registry is as it was; and once a session that was running is over,
    the registry is the one it had with the player's key removed. *)
Theorem registry_entry_dropped_when_over actions s :
  active_games (after actions s) ⊆ active_games s
  /\ (game_over (view (after actions s)) = false ->
      active_games (after actions s) = active_games s)
  /\ (game_over (view s) = false ->
      game_over (view (after actions s)) = true ->
      active_games (after actions s)
      = active_games s ∖ {[ user_id (view s) ]}).
Proof.
  revert s. induction actions as [|a rest IH]; intros s.
  { cbn [after foldl]. repeat split; [reflexivity|congruence]. }
  rewrite after_cons.
  destruct (IH (run (perform a) s)) as (Hsub & Hsame & Hdrop).
  destruct (registry_step a s) as (Hsame1 & Hdrop1 & Hsub1).
  destruct (perform_keeps_parameters a s) as (Huser & _).
  split; [|split].
  - intros u Hu. apply Hsub1, Hsub. exact Hu.
  - intros Hrun.
    destruct (game_over (view (run (perform a) s))) eqn:Hgo1.
    + rewrite (game_over_stays_after rest _ Hgo1) in Hrun. discriminate.
    + rewrite (Hsame Hrun). apply Hsame1. reflexivity.
  - intros Hgo Hover.
    destruct (game_over (view (run (perform a) s))) eqn:Hgo1.
    + rewrite <- Huser. apply registry_after_removal.
      rewrite Huser. apply Hdrop1; [exact Hgo|reflexivity].
    + rewrite (Hdrop eq_refl Hover), Huser, (Hsame1 eq_refl). reflexivity.
Qed.

Lemma registry_entry_dropped_when_over_witness :
  active_games (after [Click 1 1; Click 0 0; Exit] example_session)
  = active_games example_session ∖ {[ user_id (view example_session) ]}.
Proof.
  apply (registry_entry_dropped_when_over [Click 1 1; Click 0 0; Exit]
           example_session); reflexivity.
Defined.

(* ===================================================================== *)
(** * The board and the books *)
(* ===================================================================== *)

Section Board.

Implicit Types (f : MineTile -> MineTile) (g : Grid) (t : MineTile).
Implicit Types (P : MineTile -> Prop).

Lemma coordinates_for_each_tile f g :
  keeps_coordinates f -> coordinates (for_each_tile f g) = coordinates g.
Proof.
  intros Hf. unfold coordinates, for_each_tile.
  induction g as [|column g IH]; [reflexivity|].
  cbn [map]. rewrite IH. f_equal.
  induction column as [|t column IHc]; [reflexivity|].
  cbn [map]. rewrite IHc, Hf. reflexivity.
Qed.

Lemma coordinates_alter f y (column : list MineTile) :
  keeps_coordinates f ->
  map (fun t => (tile_x t, tile_y t)) (alter f y column)
  = map (fun t => (tile_x t, tile_y t)) column.
Proof.
  intros Hf. revert y.
  induction column as [|t column IH]; intros [|y]; try reflexivity.
  - cbn [alter list_alter map]. rewrite Hf. reflexivity.
  - cbn [alter list_alter map]. f_equal. apply IH.
Qed.

Lemma coordinates_update_tile f x y g :
  keeps_coordinates f -> coordinates (update_tile f x y g) = coordinates g.
Proof.
  intros Hf. unfold coordinates, update_tile.
  revert x. induction g as [|column g IH]; intros [|x]; try reflexivity.
  - cbn [alter list_alter map]. f_equal. apply coordinates_alter. exact Hf.
  - cbn [alter list_alter map]. f_equal. apply IH.
Qed.

Lemma coordinates_setup_mines sample g :
  coordinates (_setup_mines sample g) = coordinates g.
Proof.
  unfold _setup_mines. revert g.
  induction sample as [|pos rest IH]; intros g; [reflexivity|].
  cbn [foldl]. rewrite IH. apply coordinates_update_tile. intros t. reflexivity.
Qed.

Lemma keeps_coordinates_reveal b : keeps_coordinates (reveal b).
Proof. intros t. reflexivity. Qed.

Lemma keeps_coordinates_disable : keeps_coordinates disable.
Proof. intros t. reflexivity. Qed.

Lemma keeps_coordinates_reveal_mines :
  keeps_coordinates
    (fun t => if is_mine t && negb (revealed t) then reveal false t else t).
Proof. intros t. destruct (is_mine t && negb (revealed t)); reflexivity. Qed.

Lemma keeps_coordinates_cashout :
  keeps_coordinates
    (fun t => disable (if is_mine t && negb (revealed t)
                       then reveal false t else t)).
Proof. intros t. destruct (is_mine t && negb (revealed t)); reflexivity. Qed.

Lemma keeps_coordinates_reveal_all :
  keeps_coordinates
    (fun t => disable (if revealed t then t else reveal false t)).
Proof. intros t. destruct (revealed t); reflexivity. Qed.

(** On a grid with the coordinates in place, every position of the grid
    holds the tile of that position. *)
Lemma tile_at_on_grid g x y :
  coordinates g
  = map (fun x => map (fun y => (x, y)) (seq 0 (Z.to_nat GRID_HEIGHT)))
        (seq 0 (Z.to_nat GRID_WIDTH)) ->
  (x < Z.to_nat GRID_WIDTH)%nat -> (y < Z.to_nat GRID_HEIGHT)%nat ->
  exists t, tile_at g x y = Ok t /\ tile_x t = x /\ tile_y t = y.
Proof.
  intros Hshape Hx Hy.
  change (Z.to_nat GRID_WIDTH) with 3%nat in *.
  change (Z.to_nat GRID_HEIGHT) with 3%nat in *.
  assert (Hlookup : coordinates g !! x
                    = Some [(x, 0%nat); (x, 1%nat); (x, 2%nat)]).
  { rewrite Hshape.
    destruct x as [|[|[|x]]]; [reflexivity..|lia]. }
  unfold coordinates in Hlookup. rewrite list_lookup_fmap in Hlookup.
  destruct (g !! x) as [column|] eqn:Hcolumn; [|discriminate].
  cbn [fmap option_fmap option_map] in Hlookup. injection Hlookup as Hcol.
  assert (Hcell : (map (fun t => (tile_x t, tile_y t)) column) !! y = Some (x, y)).
  { rewrite Hcol. destruct y as [|[|[|y]]]; [reflexivity..|lia]. }
  rewrite list_lookup_fmap in Hcell.
  destruct (column !! y) as [t|] eqn:Ht; [|discriminate].
  cbn [fmap option_fmap option_map] in Hcell. injection Hcell as Htx Hty.
  exists t. split; [|split; assumption].
  apply tile_at_Ok. exists column. split; assumption.
Qed.

Lemma Forall_for_each_tile P f g :
  (forall t, P (f t)) -> Forall (Forall P) (for_each_tile f g).
Proof.
  intros Hf. unfold for_each_tile.
  apply Forall_fmap, Forall_forall. intros column _.
  apply Forall_fmap, Forall_forall. intros t _. apply Hf.
Qed.

Lemma Forall_for_each_tile_keep P f g :
  (forall t, P t -> P (f t)) ->
  Forall (Forall P) g -> Forall (Forall P) (for_each_tile f g).
Proof.
  intros Hf Hg. unfold for_each_tile.
  apply Forall_fmap. eapply Forall_impl; [exact Hg|].
  intros column Hcolumn. apply Forall_fmap.
  eapply Forall_impl; [exact Hcolumn|]. exact Hf.
Qed.

Lemma Forall_tile_at P g x y t :
  Forall (Forall P) g -> tile_at g x y = Ok t -> P t.
Proof.
  intros Hg (column & Hx & Hy)%tile_at_Ok.
  eapply Forall_lookup_1; [|exact Hy].
  eapply (Forall_lookup_1 (Forall P)); [exact Hg|exact Hx].
Qed.

Lemma mines_shown_reveal_all t :
  is_mine (disable (if revealed t then t else reveal false t)) = true ->
  revealed (disable (if revealed t then t else reveal false t)) = true.
Proof. destruct t as [x y m [] d]; intros; reflexivity. Qed.

Lemma mines_shown_cashout t :
  is_mine (disable (if is_mine t && negb (revealed t)
                    then reveal false t else t)) = true ->
  revealed (disable (if is_mine t && negb (revealed t)
                     then reveal false t else t)) = true.
Proof. destruct t as [x y [] [] d]; intros H; try reflexivity; discriminate. Qed.

Lemma mines_shown_loss t :
  is_mine (disable (if is_mine t && negb (revealed t)
                    then reveal false t else t)) = true ->
  revealed (if is_mine t && negb (revealed t) then reveal false t else t) = true.
Proof. destruct t as [x y [] [] d]; intros H; try reflexivity; discriminate. Qed.

Lemma cashout_untouched_noop timeout s :
  game_over (view s) = false -> tiles_revealed (view s) = 0 ->
  _process_cashout timeout s = (Ok tt, s).
Proof.
  intros Hgo Htr. unfold _process_cashout. msimpl. rewrite Hgo, Htr.
  reflexivity.
Qed.

Lemma board_inv_initial user bet_amount mines sample games :
  board_inv (initial_state user bet_amount mines sample games).
Proof.
  split; cbn [initial_state view new_view tiles game_over won]; try discriminate.
  - rewrite coordinates_setup_mines. reflexivity.
  - intros _. split; reflexivity.
Qed.

(** What an exit leaves, from any state that satisfies the invariants. *)
Lemma exit_board_inv s :
  session_inv s -> board_inv s -> board_inv (run exit_callback s).
Proof.
  intros Hinv [Hshape Hdis Hshown Hrun Hset].
  pose proof (inv_bet s Hinv) as Hbet. unfold MIN_BET in Hbet.
  unfold run. rewrite exit_effect. cbn [snd].
  split; fields; try discriminate.
  - unfold reveal_all. rewrite coordinates_for_each_tile; [exact Hshape|].
    apply keeps_coordinates_reveal_all.
  - intros _. apply Forall_for_each_tile. intros t. reflexivity.
  - intros _. left. apply Forall_for_each_tile. apply mines_shown_reveal_all.
  - intros _. unfold calls_of. fields.
    destruct (game_over (view s)) eqn:Hgo.
    + rewrite andb_false_r, app_nil_r. exact (Hset eq_refl).
    + destruct (Hrun eq_refl) as [Hnone Hwon]. unfold calls_of in Hnone.
      rewrite map_app, Hnone, app_nil_l, andb_true_r.
      destruct (tiles_revealed (view s) =? 0); cbn [map ev_call].
      * rewrite update_user_balance_call_credit by lia.
        unfold settlement. fields. rewrite Hwon.
        apply list_elem_of_further, list_elem_of_here.
      * unfold settlement. fields. rewrite Hwon. apply list_elem_of_here.
Qed.

Lemma cashout_board_inv timeout s :
  session_inv s -> board_inv s ->
  board_inv (run (_process_cashout timeout) s).
Proof.
  intros Hinv Hb.
  destruct (game_over (view s)) eqn:Hgo.
  { unfold run. rewrite (cashout_terminal timeout s Hgo). exact Hb. }
  destruct (Z.eq_dec (tiles_revealed (view s)) 0) as [Hzero|Htr].
  { unfold run. rewrite (cashout_untouched_noop timeout s Hgo Hzero). exact Hb. }
  destruct Hb as [Hshape Hdis Hshown Hrun Hset].
  pose proof (inv_win_bounds s Hinv) as Hwin.
  destruct (Hrun Hgo) as [Hnone Hwon]. unfold calls_of in Hnone.
  unfold run. rewrite (cashout_effect timeout s Hgo Htr). cbn [snd].
  split; fields; try discriminate.
  - rewrite coordinates_for_each_tile; [exact Hshape|].
    apply keeps_coordinates_cashout.
  - intros _. apply Forall_for_each_tile. intros t. reflexivity.
  - intros _. left. apply Forall_for_each_tile. apply mines_shown_cashout.
  - intros _. unfold calls_of. fields.
    rewrite map_app, Hnone, app_nil_l. cbn [map ev_call].
    rewrite update_user_balance_call_credit by lia.
    unfold settlement. fields. apply list_elem_of_here.
Qed.

(** Setting [game_over] again on a finished game changes nothing that the
    invariant reads. *)
Lemma game_over_again_board_inv s games :
  game_over (view s) = true -> board_inv s ->
  board_inv {| view := set_game_over true (view s);
               active_games := games; log := log s |}.
Proof.
  intros Hgo [Hshape Hdis Hshown Hrun Hset].
  split; fields; try discriminate.
  - exact Hshape.
  - intros _. exact (Hdis Hgo).
  - intros _. exact (Hshown Hgo).
  - intros _. exact (Hset Hgo).
Qed.

Lemma timeout_board_inv s :
  session_inv s -> board_inv s -> board_inv (run on_timeout s).
Proof.
  intros Hinv Hb.
  destruct (game_over (view s)) eqn:Hgo.
  { unfold run. rewrite (timeout_terminal s Hgo). exact Hb. }
  pose proof (inv_bet s Hinv) as Hbet. unfold MIN_BET in Hbet.
  pose proof (inv_revealed s Hinv) as Hrev.
  unfold run at 1. rewrite (timeout_effect s Hgo).
  destruct (Z.ltb_spec 0 (tiles_revealed (view s))) as [Hpos|Hzero].
  - cbn [snd]. apply game_over_again_board_inv.
    + unfold run. rewrite (cashout_effect true s Hgo) by lia. reflexivity.
    + apply cashout_board_inv; assumption.
  - destruct (Z.eqb_spec (tiles_revealed (view s)) 0) as [Hz|Hnz]; [|lia].
    destruct Hb as [Hshape Hdis Hshown Hrun Hset].
    destruct (Hrun Hgo) as [Hnone Hwon]. unfold calls_of in Hnone.
    cbn [snd]. split; fields; try discriminate.
    + unfold reveal_all. rewrite coordinates_for_each_tile; [exact Hshape|].
      apply keeps_coordinates_reveal_all.
    + intros _. apply Forall_for_each_tile. intros t. reflexivity.
    + intros _. left. apply Forall_for_each_tile. apply mines_shown_reveal_all.
    + intros _. unfold calls_of. fields.
      rewrite map_app, Hnone, app_nil_l. cbn [map ev_call].
      rewrite update_user_balance_call_credit by lia.
      unfold settlement. fields. rewrite Hwon.
        apply list_elem_of_further, list_elem_of_here.
Qed.

Lemma click_board_inv x y s :
  session_inv s -> board_inv s ->
  board_inv (run (process_tile_click x y) s).
Proof.
  intros Hinv Hb.
  destruct (game_over (view s)) eqn:Hgo.
  { rewrite (click_over_noop x y s Hgo). exact Hb. }
  destruct (tile_at (tiles (view s)) x y) as [tile|e] eqn:Htile.
  2:{ assert (Hsame : run (process_tile_click x y) s = s).
      { unfold process_tile_click. msimpl. rewrite Hgo, Htile. reflexivity. }
      rewrite Hsame. exact Hb. }
  destruct (revealed tile) eqn:Hrevealed.
  { rewrite (click_revealed_noop x y s tile Hgo Htile Hrevealed). exact Hb. }
  destruct Hb as [Hshape Hdis Hshown Hrun Hset].
  destruct (Hrun Hgo) as [Hnone Hwon]. unfold calls_of in Hnone.
  pose proof Hinv as [Hbet Hmines Hsafe Hgrid Hrev Hact Hmul Hpw Hwb Hcr Hsc].
  destruct (Hact Hgo) as (Hcount & Hlt & _).
  unfold MIN_BET, MAX_BET in Hbet.
  destruct (is_mine tile) eqn:Hmine.
  - (* a mine *)
    unfold run. rewrite (click_mine_effect x y s tile Hgo Htile Hrevealed Hmine).
    cbn [snd]. split; fields; try discriminate.
    + rewrite !coordinates_for_each_tile, coordinates_update_tile;
        [exact Hshape|apply keeps_coordinates_reveal
        |apply keeps_coordinates_reveal_mines|apply keeps_coordinates_disable].
    + intros _. apply Forall_for_each_tile. intros t. reflexivity.
    + intros _. left. apply Forall_for_each_tile_keep; [intros t Ht; exact Ht|].
      apply Forall_for_each_tile. intros t.
      destruct t as [tx ty [] [] d]; intros H; try reflexivity; discriminate.
    + intros _. unfold calls_of. fields.
      rewrite map_app, Hnone, app_nil_l. cbn [map ev_call].
      unfold settlement. fields.
      do 2 apply list_elem_of_further. apply list_elem_of_here.
  - (* a safe tile *)
    destruct (calculate_multiplier_normal (safe_tiles (view s)) (mines_count (view s))
                (tiles_revealed (view s) + 1)) as (mm & em & Hm & Hdig & Hem);
      [assumption|arith|].
    destruct (payout_bounds (bet (view s)) mm em) as (p & Hp & Hplo & Hphi);
      [simpl; arith|assumption|assumption|].
    destruct (Z.eq_dec (tiles_revealed (view s) + 1) (safe_tiles (view s)))
      as [Hfull|Hmore].
    + unfold run.
      rewrite (click_last_safe_effect x y s tile _ p Hgo Htile Hrevealed Hmine
                 Hm Hp Hfull).
      cbn [snd]. split; fields; try discriminate.
      * rewrite coordinates_for_each_tile, coordinates_update_tile;
          [exact Hshape|apply keeps_coordinates_reveal
          |apply keeps_coordinates_disable].
      * intros _. apply Forall_for_each_tile. intros t. reflexivity.
      * intros _. right. split; [reflexivity|exact Hfull].
      * intros _. unfold calls_of. fields.
        rewrite map_app, Hnone, app_nil_l. cbn [map ev_call].
        rewrite Z.min_l by arith.
        rewrite update_user_balance_call_credit by arith.
        unfold settlement. fields. apply list_elem_of_here.
    + unfold run.
      rewrite (click_safe_effect x y s tile _ p Hgo Htile Hrevealed Hmine
                 Hm Hp Hmore).
      cbn [snd]. split; fields; try (rewrite Hgo; discriminate).
      * rewrite coordinates_update_tile; [exact Hshape|].
        apply keeps_coordinates_reveal.
      * intros _. split; [exact (proj1 (Hrun Hgo))|exact Hwon].
Qed.

Lemma board_inv_step a s :
  session_inv s -> board_inv s -> board_inv (run (perform a) s).
Proof.
  destruct a as [x y| | |]; cbn [perform].
  - apply click_board_inv.
  - apply cashout_board_inv.
  - apply exit_board_inv.
  - apply timeout_board_inv.
Qed.

Lemma reachable_board_inv s : reachable s -> board_inv s.
Proof.
  induction 1 as [user bet_amount mines_count sample games Hbet Hmines Hs|s a Hs IH].
  - apply board_inv_initial.
  - apply board_inv_step; [apply reachable_inv; exact Hs|exact IH].
Qed.

End Board.

(** X6: in every session, running or finished, the potential win is at least
    the bet and less than 64 times the bet: a cashout never pays less than
    was staked, and the cap of 1000 times the bet in [_handle_victory]
    never applies. *)
Theorem potential_win_at_least_bet s :
  reachable s ->
  bet (view s) <= potential_win (view s) < 64 * bet (view s)
  /\ Z.min (potential_win (view s)) (bet (view s) * 1000) = potential_win (view s).
Proof.
  intros Hs. pose proof (reachable_tiles_revealed s Hs) as Htr.
  destruct (reachable_inv s Hs)
    as [Hbet Hmines Hsafe Hgrid Hrev Hact Hmul Hpw Hwb Hcr Hsc].
  unfold MIN_BET, MAX_BET in Hbet.
  destruct (calculate_multiplier_normal (safe_tiles (view s)) (mines_count (view s))
              (tiles_revealed (view s)) Hmines Htr) as (mm & em & Hm & Hdig & Hem).
  rewrite Hmul in Hm. injection Hm as Hm. rewrite Hm in Hpw.
  assert (Hrange : 0 < bet (view s) < 2 ^ 53) by (simpl; arith).
  pose proof (payout_at_least_bet _ mm em _ Hrange Hdig Hem Hpw) as Hlow.
  destruct (payout_bounds (bet (view s)) mm em Hrange Hdig Hem)
    as (p & Hp & _ & Hhigh).
  rewrite Hpw in Hp. injection Hp as <-.
  split; [split; assumption|]. apply Z.min_l. arith.
Qed.

Lemma potential_win_at_least_bet_witness :
  bet (view (after [Click 1 1] example_session))
  <= potential_win (view (after [Click 1 1] example_session))
  < 64 * bet (view (after [Click 1 1] example_session))
  /\ Z.min (potential_win (view (after [Click 1 1] example_session)))
           (bet (view (after [Click 1 1] example_session)) * 1000)
     = potential_win (view (after [Click 1 1] example_session)).
Proof.
  apply (potential_win_at_least_bet (after [Click 1 1] example_session)).
  apply after_reachable. exact example_session_reachable.
Defined.

(** X7: the computations of a reveal never raise.  In every state a
    session can reach, while the game runs, a click at coordinates of the
    grid finds its tile (no IndexError), the multiplier of one more tile
    revealed is computed (no ZeroDivisionError in the division, no
    OverflowError in the power) and so is the payout (no error in [int]).
    This concerns the expressions the callback evaluates itself; the
    calls it awaits (the economy system, the statistics, the Discord
    message edits, unguarded in [_handle_victory] and [_process_cashout])
    may raise and are no part of the statement. *)
Theorem reveal_computations_never_raise s x y :
  reachable s ->
  game_over (view s) = false ->
  on_grid (Click x y) ->
  exists tile m p,
    tile_at (tiles (view s)) x y = Ok tile
    /\ calculate_multiplier (safe_tiles (view s)) (mines_count (view s))
         (tiles_revealed (view s) + 1) = Ok m
    /\ payout (bet (view s)) m = Ok p.
Proof.
  intros Hs Hgo [Hx Hy].
  destruct (tile_at_on_grid (tiles (view s)) x y
              (inv_shape s (reachable_board_inv s Hs)) Hx Hy)
    as (tile & Htile & _).
  destruct (reachable_inv s Hs)
    as [Hbet Hmines Hsafe Hcount Hrev Hact Hmul Hpw Hwb Hcr Hsc].
  destruct (Hact Hgo) as (_ & Hlt & _).
  unfold MIN_BET, MAX_BET in Hbet.
  destruct (calculate_multiplier_normal (safe_tiles (view s)) (mines_count (view s))
              (tiles_revealed (view s) + 1)) as (mm & em & Hm & Hdig & Hem);
    [assumption|arith|].
  destruct (payout_bounds (bet (view s)) mm em) as (p & Hp & _ & _);
    [simpl; arith|assumption|assumption|].
  exists tile, (S754_finite false mm em), p. auto.
Qed.

Lemma reveal_computations_never_raise_witness :
  exists tile m p,
    tile_at (tiles (view (after [Click 1 1] example_session))) 2 2 = Ok tile
    /\ calculate_multiplier 6 3 (1 + 1) = Ok m
    /\ payout 100 m = Ok p.
Proof.
  apply (reveal_computations_never_raise (after [Click 1 1] example_session) 2 2).
  - apply after_reachable. exact example_session_reachable.
  - reflexivity.
  - split; apply Nat.ltb_lt; reflexivity.
Defined.



(** X9: when a game is over every tile of the grid is disabled, and every
    mine is revealed unless the player won by clearing the board (then
    the hidden tiles are exactly the mines). *)
Theorem finished_game_board s x y t :
  reachable s ->
  game_over (view s) = true ->
  tile_at (tiles (view s)) x y = Ok t ->
  disabled t = true
  /\ (is_mine t = true ->
      revealed t = true
      \/ (won (view s) = true
          /\ tiles_revealed (view s) = safe_tiles (view s))).
Proof.
  intros Hs Hgo Ht.
  destruct (reachable_board_inv s Hs) as [_ Hdis Hshown _ _].
  split.
  - apply (Forall_tile_at (fun t => disabled t = true) _ x y t (Hdis Hgo) Ht).
  - intros Hmine. destruct (Hshown Hgo) as [Hall|Hcleared].
    + left.
      apply (Forall_tile_at (fun t => is_mine t = true -> revealed t = true)
               _ x y t Hall Ht Hmine).
    + right. exact Hcleared.
Qed.

Lemma finished_game_board_witness :
  disabled {| tile_x := 0; tile_y := 0; is_mine := true; revealed := true;
              disabled := true |} = true
  /\ (is_mine {| tile_x := 0; tile_y := 0; is_mine := true; revealed := true;
                 disabled := true |} = true ->
      revealed {| tile_x := 0; tile_y := 0; is_mine := true; revealed := true;
                  disabled := true |} = true
      \/ (won (view (after [Click 1 1; Cashout] example_session)) = true
          /\ tiles_revealed (view (after [Click 1 1; Cashout] example_session))
             = safe_tiles (view (after [Click 1 1; Cashout] example_session)))).
Proof.
  apply (finished_game_board (after [Click 1 1; Cashout] example_session) 0 0).
  - apply after_reachable. exact example_session_reachable.
  - reflexivity.
  - reflexivity.
Defined.

Section Counting.

Lemma grid_size (g : Grid) :
  coordinates g
  = map (fun x => map (fun y => (x, y)) (seq 0 (Z.to_nat GRID_HEIGHT)))
        (seq 0 (Z.to_nat GRID_WIDTH)) ->
  Z.of_nat (length (concat g)) = TOTAL_TILES.
Proof.
  intros Hshape. rewrite length_concat.
  assert (Hlen : map length g = map length (coordinates g)).
  { unfold coordinates. rewrite map_map. apply map_ext.
    intros column. rewrite length_map. reflexivity. }
  rewrite Hlen, Hshape. reflexivity.
Qed.

End Counting.

(** X10: the board of a session never changes size or content: it holds
    [TOTAL_TILES] tiles, [mines_count] of them mines, whatever was
    clicked; [tiles_revealed] never exceeds the number of safe tiles, and
    while the game runs it is the number of revealed safe tiles and at
    least one safe tile is still hidden. *)
Theorem board_counts s :
  reachable s ->
  Z.of_nat (length (concat (tiles (view s)))) = TOTAL_TILES
  /\ count_tiles is_mine (tiles (view s)) = mines_count (view s)
  /\ count_tiles is_safe (tiles (view s)) = TOTAL_TILES - mines_count (view s)
  /\ 0 <= tiles_revealed (view s) <= TOTAL_TILES - mines_count (view s)
  /\ (game_over (view s) = false ->
      tiles_revealed (view s) = count_tiles is_revealed_safe (tiles (view s))
      /\ tiles_revealed (view s) < TOTAL_TILES - mines_count (view s)).
Proof.
  intros Hs. pose proof (reachable_tiles_revealed s Hs) as Htr.
  pose proof (grid_size _ (inv_shape s (reachable_board_inv s Hs))) as Hsize.
  destruct (reachable_inv s Hs)
    as [Hbet Hmines Hsafe Hgrid Hrev Hact Hmul Hpw Hwb Hcr Hsc].
  pose proof (count_safe_mines (tiles (view s))) as Hsum.
  split; [exact Hsize|]. split; [arith|]. split; [arith|]. split; [exact Htr|].
  intros Hgo. destruct (Hact Hgo) as (Hcount & Hlt & _).
  split; [exact Hcount|arith].
Qed.

Lemma board_counts_witness :
  Z.of_nat (length (concat (tiles (view (after [Click 1 1] example_session)))))
  = TOTAL_TILES
  /\ count_tiles is_mine (tiles (view (after [Click 1 1] example_session)))
     = mines_count (view (after [Click 1 1] example_session))
  /\ count_tiles is_safe (tiles (view (after [Click 1 1] example_session)))
     = TOTAL_TILES - mines_count (view (after [Click 1 1] example_session))
  /\ 0 <= tiles_revealed (view (after [Click 1 1] example_session))
       <= TOTAL_TILES - mines_count (view (after [Click 1 1] example_session))
  /\ (game_over (view (after [Click 1 1] example_session)) = false ->
      tiles_revealed (view (after [Click 1 1] example_session))
      = count_tiles is_revealed_safe
          (tiles (view (after [Click 1 1] example_session)))
      /\ tiles_revealed (view (after [Click 1 1] example_session))
         < TOTAL_TILES - mines_count (view (after [Click 1 1] example_session))).
Proof.
  apply (board_counts (after [Click 1 1] example_session)).
  apply after_reachable. exact example_session_reachable.
Defined.

(* ===================================================================== *)
(** * Setting up the grid *)
(* ===================================================================== *)

Section Setup.

Lemma position_coordinates pos x y :
  (x < Z.to_nat GRID_WIDTH)%nat ->
  (pos mod Z.to_nat GRID_WIDTH, pos / Z.to_nat GRID_WIDTH)%nat = (x, y)
  <-> pos = (x + Z.to_nat GRID_WIDTH * y)%nat.
Proof.
  change (Z.to_nat GRID_WIDTH) with 3%nat. intros Hx.
  pose proof (Nat.div_mod_eq pos 3) as Hpos.
  pose proof (Nat.mod_upper_bound pos 3 ltac:(lia)) as Hmod.
  split.
  - intros Heq.
    pose proof (f_equal fst Heq) as Hm. pose proof (f_equal snd Heq) as Hd.
    cbn [fst snd] in Hm, Hd. lia.
  - intros Heq. f_equal; lia.
Qed.

Lemma mark_as_mine_twice t : mark_as_mine (mark_as_mine t) = mark_as_mine t.
Proof. reflexivity. Qed.

(** [_setup_mines] marks the tiles of the sampled positions and no other. *)
Lemma setup_mines_tile sample (g : Grid) x y :
  (x < Z.to_nat GRID_WIDTH)%nat ->
  tile_at (_setup_mines sample g) x y
  = match tile_at g x y with
    | Ok t =>
        Ok (if bool_decide ((x + Z.to_nat GRID_WIDTH * y)%nat ∈ sample)
            then mark_as_mine t else t)
    | Raise e => Raise e
    end.
Proof.
  intros Hx. unfold _setup_mines. revert g.
  induction sample as [|pos rest IH]; intros g.
  - cbn [foldl]. destruct (tile_at g x y); reflexivity.
  - cbn [foldl]. rewrite IH.
    destruct (decide (pos = (x + Z.to_nat GRID_WIDTH * y)%nat)) as [Heq|Hne].
    + pose proof (proj2 (position_coordinates pos x y Hx) Heq) as Hc.
      pose proof (f_equal fst Hc) as Hpx. pose proof (f_equal snd Hc) as Hpy.
      cbn [fst snd] in Hpx, Hpy. rewrite Hpx, Hpy.
      rewrite (bool_decide_eq_true_2 (_ ∈ pos :: rest))
        by (rewrite Heq; apply list_elem_of_here).
      destruct (tile_at g x y) as [t|e] eqn:Ht.
      * rewrite (tile_at_update_eq mark_as_mine g x y t Ht).
        destruct (bool_decide _); reflexivity.
      * rewrite (update_tile_miss mark_as_mine g x y e Ht), Ht. reflexivity.
    + rewrite tile_at_update_ne.
      2:{ intros Hc. apply Hne. apply position_coordinates; [exact Hx|].
          exact Hc. }
      destruct (tile_at g x y) as [t|e]; [|reflexivity].
      f_equal. apply f_equal with (f := fun b : bool => if b then _ else _).
      apply bool_decide_ext. rewrite elem_of_cons. split; [auto|].
      intros [Hc|Hin]; [|exact Hin]. congruence.
Qed.

End Setup.

(** X11: the board of a new view: the tile of column x and row y carries those
    coordinates, is hidden and enabled, and is a mine exactly when the
    position x + GRID_WIDTH * y was drawn by [random.sample]. *)
Theorem new_view_board user bet_amount mines_count mine_positions x y :
  is_sample mines_count mine_positions ->
  (x < Z.to_nat GRID_WIDTH)%nat -> (y < Z.to_nat GRID_HEIGHT)%nat ->
  tile_at (tiles (new_view user bet_amount mines_count mine_positions)) x y
  = Ok {| tile_x := x; tile_y := y;
          is_mine := bool_decide ((x + Z.to_nat GRID_WIDTH * y)%nat
                                  ∈ mine_positions);
          revealed := false; disabled := false |}.
Proof.
  intros _ Hx Hy. cbn [new_view tiles]. rewrite setup_mines_tile by exact Hx.
  assert (Hnew : tile_at _create_grid x y = Ok (new_tile x y)).
  { change (Z.to_nat GRID_WIDTH) with 3%nat in Hx.
    change (Z.to_nat GRID_HEIGHT) with 3%nat in Hy.
    destruct x as [|[|[|x]]]; [| | |lia];
      (destruct y as [|[|[|y]]]; [reflexivity..|lia]). }
  rewrite Hnew. destruct (bool_decide _); reflexivity.
Qed.

Lemma new_view_board_witness :
  tile_at (tiles (new_view 1 100 3 [0; 1; 2]%nat)) 1 0
  = Ok {| tile_x := 1; tile_y := 0;
          is_mine := bool_decide ((1 + Z.to_nat GRID_WIDTH * 0)%nat
                                  ∈ [0; 1; 2]%nat);
          revealed := false; disabled := false |}.
Proof.
  apply (new_view_board 1 100 3 [0; 1; 2]%nat 1 0).
  - split; [|split].
    + compute_done.
    + reflexivity.
    + compute_done.
  - apply Nat.ltb_lt. reflexivity.
  - apply Nat.ltb_lt. reflexivity.
Defined.

(* ===================================================================== *)
(** * The command and the start of a game *)
(* ===================================================================== *)

(** X12: the [mines] command in every case.  With the modal shown it has
    debited exactly the bet, once, and the bet lies between [MIN_BET] and
    [MAX_BET] and within the player's cash; the player is registered in
    [active_games].  Otherwise the registry is as before and the calls
    issued leave the player's cash as it was (a failing modal is followed
    by a refund of the debit); a player who is already registered gets no
    call at all. *)
Theorem mines_debits_only_an_accepted_bet
    (parse : string -> Z -> parse_outcome) user bet cash modal_sent w :
  let w' := snd (mines parse user bet cash modal_sent w) in
  match fst (mines parse user bet cash modal_sent w) with
  | Some modal =>
      modal_sent = true
      /\ (user ∉ cog_active_games w)
      /\ modal_user_id modal = user
      /\ MIN_BET <= modal_bet_amount modal <= MAX_BET
      /\ modal_bet_amount modal <= cash
      /\ parse_bet parse bet cash = Some (modal_bet_amount modal)
      /\ cog_active_games w' = {[ user ]} ∪ cog_active_games w
      /\ cog_calls w'
         = cog_calls w
           ++ [get_cash user;
               add_cash user (- modal_bet_amount modal) "mines_bet"]
  | None =>
      cog_active_games w' = cog_active_games w
      /\ net_cash user (cog_calls w') = net_cash user (cog_calls w)
      /\ (user ∈ cog_active_games w -> w' = w)
  end.
Proof.
  assert (Hget : net_cash user (cog_calls (cog_call (get_cash user) w))
                 = net_cash user (cog_calls w)).
  { cbn [cog_call cog_calls]. rewrite net_cash_app.
    cbn [net_cash foldr cash_delta]. lia. }
  cbv zeta. unfold mines.
  destruct (decide (user ∈ cog_active_games w)) as [Hin|Hout];
    [cbn [fst snd]; auto|].
  destruct (parse_bet parse bet cash) as [amount|];
    [|cbn [fst snd]; repeat split; [exact Hget|tauto]].
  destruct (Z.ltb_spec amount MIN_BET);
    [cbn [fst snd]; repeat split; [exact Hget|tauto]|].
  destruct (Z.ltb_spec MAX_BET amount);
    [cbn [fst snd]; repeat split; [exact Hget|tauto]|].
  destruct (Z.ltb_spec cash amount);
    [cbn [fst snd]; repeat split; [exact Hget|tauto]|].
  destruct modal_sent; cbn [fst snd].
  - cbn [cog_call cog_calls cog_active_games modal_user_id modal_bet_amount].
    rewrite <- app_assoc. repeat split; try assumption; try lia.
  - cbn [cog_call cog_calls cog_active_games].
    rewrite !net_cash_app. cbn [net_cash foldr cash_delta].
    rewrite Z.eqb_refl. repeat split; [lia|tauto].
Qed.

(** X13: the game the command, the modal and [start_game] set up together: a
    mine count that the modal accepts starts, for the player still
    registered, the view of exactly the debited bet and that mine count,
    with no further call; bet and mine count are within their bounds, so
    this is a session as [reachable] takes them. *)
Theorem command_flow_starts_valid_session
    (parse : string -> Z -> parse_outcome) user bet cash w modal w1
    n mine_positions v w2 :
  mines parse user bet cash true w = (Some modal, w1) ->
  modal_callback modal (IntValue n) mine_positions w1 = (Some v, w2) ->
  is_sample n mine_positions ->
  w2 = w1
  /\ v = new_view user (modal_bet_amount modal) n mine_positions
  /\ MIN_MINES <= n <= MAX_MINES
  /\ reachable (initial_state user (modal_bet_amount modal) n mine_positions
                  (cog_active_games w2))
  /\ user ∈ cog_active_games w2.
Proof.
  intros Hmines Hmodal Hsample.
  destruct (mines_accepts parse user bet cash w modal w1 Hmines)
    as (Huser & Hbet & _ & Hin & _).
  unfold modal_callback in Hmodal.
  destruct (Z.ltb_spec n MIN_MINES); [discriminate|].
  destruct (Z.ltb_spec MAX_MINES n); [discriminate|].
  cbn [orb] in Hmodal. unfold start_game in Hmodal. rewrite Huser in Hmodal.
  destruct (decide (user ∉ cog_active_games w1)); [discriminate|].
  injection Hmodal as <- <-.
  split; [reflexivity|]. split; [reflexivity|]. split; [lia|].
  split; [|exact Hin].
  apply reachable_initial; [exact Hbet|lia|exact Hsample].
Qed.

Lemma command_flow_starts_valid_session_witness :
  {| cog_active_games := {[ 1 ]} ∪ ∅;
     cog_calls := [] ++ [get_cash 1] ++ [add_cash 1 (- 100) "mines_bet"] |}
  = {| cog_active_games := {[ 1 ]} ∪ ∅;
       cog_calls := [] ++ [get_cash 1] ++ [add_cash 1 (- 100) "mines_bet"] |}
  /\ new_view 1 100 3 [0; 1; 2]%nat = new_view 1 100 3 [0; 1; 2]%nat
  /\ MIN_MINES <= 3 <= MAX_MINES
  /\ reachable (initial_state 1 100 3 [0; 1; 2]%nat ({[ 1 ]} ∪ ∅))
  /\ 1 ∈ ({[ 1 ]} ∪ ∅ : gset Z).
Proof.
  apply (command_flow_starts_valid_session (fun _ _ => Parsed 100) 1 "100" 1000
           {| cog_active_games := ∅; cog_calls := [] |}
           {| modal_user_id := 1; modal_bet_amount := 100 |}).
  - reflexivity.
  - reflexivity.
  - split; [|split].
    + compute_done.
    + reflexivity.
    + compute_done.
Defined.

(** X14: an exit pressed on an older, finished view of the player while the
    modal of a new game is open removes the registration of the new game
    (the registry is keyed by player): the exit itself issues no call, and
    the submission of the modal, valid as it may be, then starts nothing
    and credits the debited bet back, tagged as a refund. *)
Theorem stale_exit_expires_new_game
    (parse : string -> Z -> parse_outcome) user bet cash w modal w1 old
    n mine_positions :
  mines parse user bet cash true w = (Some modal, w1) ->
  user_id (view old) = user ->
  game_over (view old) = true ->
  active_games old = cog_active_games w1 ->
  MIN_MINES <= n <= MAX_MINES ->
  let w2 := {| cog_active_games := active_games (run exit_callback old);
               cog_calls := cog_calls w1 |} in
  log (run exit_callback old) = log old
  /\ (user ∉ cog_active_games w2)
  /\ modal_callback modal (IntValue n) mine_positions w2
     = (None, cog_call (add_cash user (modal_bet_amount modal) "mines_refund") w2)
  /\ net_cash user
       (cog_calls (snd (modal_callback modal (IntValue n) mine_positions w2)))
     = net_cash user (cog_calls w).
Proof.
  intros Hmines Huser Hover Hgames Hn. cbv zeta.
  destruct (mines_accepts parse user bet cash w modal w1 Hmines)
    as (Hmodal & _ & _ & _ & Hcalls).
  unfold run. rewrite exit_effect. cbn [snd log active_games].
  rewrite Hover, andb_false_r, app_nil_r, Huser.
  assert (Hout : user ∉ active_games old ∖ {[ user ]}).
  { intros Hc. apply elem_of_difference in Hc as [_ Hc]. apply Hc.
    apply elem_of_singleton. reflexivity. }
  split; [reflexivity|]. split; [exact Hout|].
  unfold modal_callback.
  destruct (Z.ltb_spec n MIN_MINES); [lia|].
  destruct (Z.ltb_spec MAX_MINES n); [lia|].
  cbn [orb]. unfold start_game. rewrite Hmodal. cbn [cog_active_games].
  destruct (decide (user ∉ active_games old ∖ {[ user ]})); [|contradiction].
  split; [reflexivity|].
  cbn [snd cog_call cog_calls]. rewrite Hcalls, !net_cash_app.
  cbn [net_cash foldr cash_delta]. rewrite Z.eqb_refl. lia.
Qed.

Lemma stale_exit_expires_new_game_witness :
  modal_callback {| modal_user_id := 1; modal_bet_amount := 100 |}
    (IntValue 3) [0; 1; 2]%nat
    {| cog_active_games :=
         active_games
           (run exit_callback
              {| view := view (after [Click 0 0] example_session);
                 active_games := {[ 1 ]} ∪ ∅;
                 log := log (after [Click 0 0] example_session) |});
       cog_calls := [] ++ [get_cash 1] ++ [add_cash 1 (- 100) "mines_bet"] |}
  = (None,
     cog_call (add_cash 1 100 "mines_refund")
       {| cog_active_games :=
            active_games
              (run exit_callback
                 {| view := view (after [Click 0 0] example_session);
                    active_games := {[ 1 ]} ∪ ∅;
                    log := log (after [Click 0 0] example_session) |});
          cog_calls := [] ++ [get_cash 1] ++ [add_cash 1 (- 100) "mines_bet"] |}).
Proof.
  apply (stale_exit_expires_new_game (fun _ _ => Parsed 100) 1 "100" 1000
           {| cog_active_games := ∅; cog_calls := [] |}
           {| modal_user_id := 1; modal_bet_amount := 100 |}
           {| cog_active_games := {[ 1 ]} ∪ ∅;
              cog_calls := [] ++ [get_cash 1] ++ [add_cash 1 (- 100) "mines_bet"] |}
           {| view := view (after [Click 0 0] example_session);
              active_games := {[ 1 ]} ∪ ∅;
              log := log (after [Click 0 0] example_session) |}
           3 [0; 1; 2]%nat).
  - reflexivity.
  - reflexivity.
  - reflexivity.
  - reflexivity.
  - vm_compute. split; discriminate.
Defined.

(* ===================================================================== *)
(** * Unloading the cog *)
(* ===================================================================== *)

(** X15: [cog_unload] goes through the registered games one by one.  A game
    whose modal is still open (no view yet) gets nothing back, although
    its bet was debited; a game that is over or has a tile revealed gets
    nothing either; a running game with no tile revealed is credited its
    bet.  As [cog_unload] ends no session, an exit or a timeout of that
    same session credits the bet once more. *)
Theorem cog_unload_refunds s a :
  reachable s ->
  (forall items items',
      cog_unload (items ++ items') = cog_unload items ++ cog_unload items')
  /\ cog_unload [(user_id (view s), new_game (user_id (view s)))] = []
  /\ (game_over (view s) = true \/ tiles_revealed (view s) <> 0 ->
      cog_unload [(user_id (view s), game_of s)] = [])
  /\ (game_over (view s) = false -> tiles_revealed (view s) = 0 ->
      cog_unload [(user_id (view s), game_of s)]
      = [add_cash (user_id (view s)) (bet (view s)) "mines_win"]
      /\ (a = Exit \/ a = Timeout ->
          calls_of (run (perform a) s)
          = [add_cash (user_id (view s)) (bet (view s)) "mines_win"])).
Proof.
  intros Hs.
  pose proof (inv_bet s (reachable_inv s Hs)) as Hbet. unfold MIN_BET in Hbet.
  split; [intros items items'; apply flat_map_app|].
  split; [reflexivity|].
  unfold cog_unload, game_of.
  cbn [flat_map fst snd game_view game_bet_amount]. rewrite app_nil_r.
  split.
  - intros [Hover|Hplayed].
    + rewrite Hover. reflexivity.
    + apply Z.eqb_neq in Hplayed. rewrite Hplayed, andb_false_r. reflexivity.
  - intros Hgo Hzero. rewrite Hgo, Hzero. cbn [negb andb Z.eqb].
    rewrite update_user_balance_call_credit by lia.
    split; [reflexivity|].
    destruct (inv_running s (reachable_board_inv s Hs) Hgo) as [Hnone _].
    unfold calls_of in *.
    intros [->| ->]; cbn [perform]; unfold run.
    + rewrite exit_effect. cbn [snd log].
      rewrite Hgo, Hzero. cbn [negb andb Z.eqb].
      rewrite map_app, Hnone. cbn [map ev_call app].
      rewrite update_user_balance_call_credit by lia. reflexivity.
    + rewrite (timeout_effect s Hgo), Hzero. cbn [Z.ltb Z.compare Z.eqb snd log].
      rewrite map_app, Hnone. cbn [map ev_call app].
      rewrite update_user_balance_call_credit by lia. reflexivity.
Qed.

Lemma cog_unload_refunds_witness :
  cog_unload [(user_id (view example_session), game_of example_session)]
  = [add_cash (user_id (view example_session)) (bet (view example_session))
       "mines_win"]
  /\ calls_of (run (perform Timeout) example_session)
     = [add_cash (user_id (view example_session)) (bet (view example_session))
          "mines_win"].
Proof.
  destruct (cog_unload_refunds example_session Timeout example_session_reachable)
    as (_ & _ & _ & Huntouched).
  destruct (Huntouched eq_refl eq_refl) as [Hunload Hagain].
  split; [exact Hunload|]. apply Hagain. right. reflexivity.
Defined.

(** X16: the parameters of a session are fixed.  The game object holds,
    after [MinesGame.setup], the new view and the bet; whatever callbacks
    run, in whatever order, the player, the bet, the mine count and the
    number of safe tiles of the view stay what [MinesView.__init__] made
    them, so that the bet of the game object remains the bet of its
    view. *)
Theorem session_parameters_fixed
    user bet_amount mines mine_positions games actions :
  let s := after actions
             (initial_state user bet_amount mines mine_positions games) in
  game_of (initial_state user bet_amount mines mine_positions games)
  = setup bet_amount mines mine_positions (new_game user)
  /\ user_id (view s) = user
  /\ bet (view s) = bet_amount
  /\ mines_count (view s) = mines
  /\ safe_tiles (view s) = TOTAL_TILES - mines
  /\ game_bet_amount (game_of s) = bet_amount.
Proof.
  cbv zeta. split; [reflexivity|].
  assert (Hfixed : forall s0,
             user_id (view (after actions s0)) = user_id (view s0)
             /\ bet (view (after actions s0)) = bet (view s0)
             /\ mines_count (view (after actions s0)) = mines_count (view s0)
             /\ safe_tiles (view (after actions s0)) = safe_tiles (view s0)).
  { induction actions as [|a rest IH]; intros s0; [repeat split|].
    rewrite after_cons.
    destruct (IH (run (perform a) s0)) as (Hu & Hb & Hm & Hsafe).
    destruct (perform_keeps_parameters a s0) as (Hu0 & Hb0 & Hm0 & Hsafe0).
    repeat split; congruence. }
  destruct (Hfixed (initial_state user bet_amount mines mine_positions games))
    as (Hu & Hb & Hm & Hsafe).
  cbn [game_of game_bet_amount].
  repeat split; assumption.
Qed.

(* ===================================================================== *)
(** * Loading the extensions *)
(* ===================================================================== *)

Section Extensions.

Open Scope string_scope.

Lemma substring_all s : substring 0 (String.length s) s = s.
Proof. induction s as [|c s IH]; [reflexivity|]. cbn. rewrite IH. reflexivity. Qed.

Lemma substring_split s k :
  (k <= String.length s)%nat ->
  substring 0 k s ++ substring k (String.length s - k) s = s.
Proof.
  revert k. induction s as [|c s IH]; intros [|k] Hk; cbn in *; try lia.
  - reflexivity.
  - rewrite substring_all. reflexivity.
  - change (String c (substring 0 k s ++ substring k (String.length s - k) s)
            = String c s).
    f_equal. apply IH. lia.
Qed.

(** A name that ends with a suffix is the rest followed by the suffix. *)
Lemma endswith_drop_last s suffix :
  endswith s suffix = true ->
  drop_last (String.length suffix) s ++ suffix = s.
Proof.
  unfold endswith, drop_last. intros [Hlen Heq]%andb_prop.
  apply Nat.leb_le in Hlen. apply String.eqb_eq in Heq.
  pose proof (substring_split s (String.length s - String.length suffix)
                ltac:(lia)) as H.
  replace (String.length s - (String.length s - String.length suffix))%nat
    with (String.length suffix) in H by lia.
  rewrite Heq in H. exact H.
Qed.

Lemma load_extensions_fold listing load_extension :
  load_extensions listing load_extension
  = (foldl (load_step load_extension) (0%nat, 0%nat, []) listing).1.
Proof.
  unfold load_extensions.
  destruct (foldl (load_step load_extension) (0%nat, 0%nat, []) listing)
    as [[l f] h]. reflexivity.
Qed.

Lemma load_fold_counts load_extension listing acc :
  let r := foldl (load_step load_extension) acc listing in
  (r.1.1 + r.1.2
   = acc.1.1 + acc.1.2
     + length (filter (fun filename => extension_file filename = true) listing))%nat.
Proof.
  cbv zeta. revert acc.
  induction listing as [|filename listing IH]; intros [[l f] h].
  - cbn. lia.
  - cbn [foldl]. rewrite IH. rewrite filter_cons.
    unfold load_step, extension_file.
    destruct (endswith filename ".py" && negb (String.eqb filename "__init__.py")).
    + destruct (decide (true = true)); [|congruence].
      destruct (load_extension h _); cbn; lia.
    + destruct (decide (false = true)); [discriminate|]. cbn. lia.
Qed.

Lemma load_fold_all_accepted (accepts : string -> bool) listing acc :
  let r := foldl (load_step (fun _ => accepts)) acc listing in
  (r.1.1
   = acc.1.1
     + length (filter (fun filename =>
                         extension_file filename
                         && accepts ("commands." ++ drop_last 3 filename) = true)
                 listing))%nat.
Proof.
  cbv zeta. revert acc.
  induction listing as [|filename listing IH]; intros [[l f] h].
  - cbn. lia.
  - cbn [foldl]. rewrite IH. rewrite filter_cons.
    unfold load_step, extension_file.
    destruct (endswith filename ".py" && negb (String.eqb filename "__init__.py")).
    + cbn [andb].
      change ("commands" ++ "." ++ drop_last 3 filename)
        with ("commands." ++ drop_last 3 filename).
      destruct (accepts ("commands." ++ drop_last 3 filename)).
      * destruct (decide (true = true)); [|congruence]. cbn. lia.
      * destruct (decide (false = true)); [discriminate|]. cbn. lia.
    + cbn [andb]. destruct (decide (false = true)); [discriminate|]. cbn. lia.
Qed.

End Extensions.

(** X17: [load_extensions] tries every listed file whose name ends in ".py"
    other than "__init__.py", and only those: the two counts it returns add
    up to their number.  Such a file is named stem + ".py" and is loaded as
    the extension "commands." + stem, so that the first count is the number
    of those extensions the bot accepts. *)
Theorem load_extensions_counts listing load_extension accepts :
  let candidates :=
    filter (fun filename => extension_file filename = true) listing in
  (fst (load_extensions listing load_extension)
   + snd (load_extensions listing load_extension))%nat
  = length candidates
  /\ Forall (fun filename =>
               (drop_last 3 filename ++ ".py")%string = filename
               /\ filename <> "__init__.py"%string)
            candidates
  /\ fst (load_extensions listing (fun _ => accepts))
     = length (filter (fun filename =>
                         extension_file filename
                         && accepts ("commands." ++ drop_last 3 filename)%string
                         = true)
                 listing).
Proof.
  cbv zeta. split; [|split].
  - rewrite load_extensions_fold. cbn [fst snd].
    pose proof (load_fold_counts load_extension listing (0%nat, 0%nat, [])) as H.
    cbv zeta in H. cbn [fst snd] in H. exact H.
  - apply Forall_forall. intros filename Hin.
    apply list_elem_of_filter in Hin as [Hfile _].
    unfold extension_file in Hfile.
    apply andb_prop in Hfile as [Hpy Hinit]. split.
    + exact (endswith_drop_last filename ".py" Hpy).
    + apply negb_true_iff, String.eqb_neq in Hinit. exact Hinit.
  - rewrite load_extensions_fold. cbn [fst snd].
    pose proof (load_fold_all_accepted accepts listing (0%nat, 0%nat, [])) as H.
    cbv zeta in H. cbn [fst snd] in H. exact H.
Qed.

(* ===================================================================== *)
(** * One game per player *)
(* ===================================================================== *)

Section OneGame.


End OneGame.



(* ===================================================================== *)
(** * The tiles through a game *)
(* ===================================================================== *)

Section Tiles.

Implicit Types (f : MineTile -> MineTile) (g : Grid) (t : MineTile).

Lemma tile_evolves_refl t : tile_evolves t t.
Proof. repeat split; auto. Qed.

Lemma tile_evolves_trans t1 t2 t3 :
  tile_evolves t1 t2 -> tile_evolves t2 t3 -> tile_evolves t1 t3.
Proof.
  intros (Hx & Hy & Hm & Hr & Hd) (Hx' & Hy' & Hm' & Hr' & Hd').
  repeat split; try congruence; auto.
Qed.

Lemma grid_evolves_refl g : grid_evolves g g.
Proof. intros x y t Ht. exists t. split; [exact Ht|apply tile_evolves_refl]. Qed.

Lemma tile_at_for_each_tile f g x y t :
  tile_at g x y = Ok t -> tile_at (for_each_tile f g) x y = Ok (f t).
Proof.
  intros (column & Hx & Hy)%tile_at_Ok. apply tile_at_Ok.
  exists (map f column). unfold for_each_tile. split.
  - change (map (map f) g) with (map f <$> g).
    rewrite list_lookup_fmap, Hx. reflexivity.
  - change (map f column) with (f <$> column).
    rewrite list_lookup_fmap, Hy. reflexivity.
Qed.

Lemma grid_evolves_for_each_tile f g g' :
  (forall t, tile_evolves t (f t)) ->
  grid_evolves g g' -> grid_evolves g (for_each_tile f g').
Proof.
  intros Hf Hg x y t Ht. destruct (Hg x y t Ht) as (t' & Ht' & Hev).
  exists (f t'). split; [apply tile_at_for_each_tile; exact Ht'|].
  eapply tile_evolves_trans; [exact Hev|apply Hf].
Qed.

Lemma grid_evolves_update_tile f g g' x y :
  (forall t, tile_evolves t (f t)) ->
  grid_evolves g g' -> grid_evolves g (update_tile f x y g').
Proof.
  intros Hf Hg x' y' t Ht. destruct (Hg x' y' t Ht) as (t' & Ht' & Hev).
  destruct (decide ((x, y) = (x', y'))) as [[= <- <-]|Hne].
  - exists (f t'). split; [apply tile_at_update_eq; exact Ht'|].
    eapply tile_evolves_trans; [exact Hev|apply Hf].
  - exists t'. split; [|exact Hev].
    rewrite tile_at_update_ne by exact Hne. exact Ht'.
Qed.

Lemma tile_evolves_reveal b t : tile_evolves t (reveal b t).
Proof. repeat split; auto. Qed.

Lemma tile_evolves_disable t : tile_evolves t (disable t).
Proof. repeat split; auto. Qed.

Lemma tile_evolves_reveal_mines t :
  tile_evolves t (if is_mine t && negb (revealed t) then reveal false t else t).
Proof. destruct (is_mine t && negb (revealed t)); repeat split; auto. Qed.

Lemma tile_evolves_cashout t :
  tile_evolves t (disable (if is_mine t && negb (revealed t)
                           then reveal false t else t)).
Proof. destruct (is_mine t && negb (revealed t)); repeat split; auto. Qed.

Lemma tile_evolves_reveal_all t :
  tile_evolves t (disable (if revealed t then t else reveal false t)).
Proof. destruct (revealed t) eqn:H; repeat split; auto. Qed.

End Tiles.

Section TilesStep.

Lemma grid_evolves_trans g1 g2 g3 :
  grid_evolves g1 g2 -> grid_evolves g2 g3 -> grid_evolves g1 g3.
Proof.
  intros H12 H23 x y t Ht.
  destruct (H12 x y t Ht) as (t2 & Ht2 & Hev2).
  destruct (H23 x y t2 Ht2) as (t3 & Ht3 & Hev3).
  exists t3. split; [exact Ht3|]. eapply tile_evolves_trans; eassumption.
Qed.

Lemma grid_evolves_step a s :
  grid_evolves (tiles (view s)) (tiles (view (run (perform a) s))).
Proof.
  destruct s as [v games lg].
  destruct a as [cx cy| | |]; unfold_callbacks; unfold reveal_all;
    callback_cases;
    repeat first
      [ apply grid_evolves_refl
      | apply grid_evolves_for_each_tile;
        [first [ exact tile_evolves_disable | exact tile_evolves_reveal_mines
               | exact tile_evolves_cashout | exact tile_evolves_reveal_all
               | exact (tile_evolves_reveal _) ]|]
      | apply grid_evolves_update_tile;
        [first [ exact (tile_evolves_reveal _) | exact tile_evolves_disable ]|] ].
Qed.

End TilesStep.

(** X19: the mines never move.  Whatever the state and whatever callbacks
    run, in whatever order, a tile of the grid is afterwards at the same
    place with the same coordinates, is a mine exactly if it was one
    before, and stays revealed and disabled if it was. *)
Theorem mines_never_move actions s x y t :
  tile_at (tiles (view s)) x y = Ok t ->
  exists t',
    tile_at (tiles (view (after actions s))) x y = Ok t'
    /\ tile_x t' = tile_x t /\ tile_y t' = tile_y t
    /\ is_mine t' = is_mine t
    /\ (revealed t = true -> revealed t' = true)
    /\ (disabled t = true -> disabled t' = true).
Proof.
  revert x y t.
  change (grid_evolves (tiles (view s)) (tiles (view (after actions s)))).
  revert s. induction actions as [|a rest IH]; intros s.
  - apply grid_evolves_refl.
  - rewrite after_cons. eapply grid_evolves_trans; [apply grid_evolves_step|].
    apply IH.
Qed.

Lemma mines_never_move_witness :
  exists t',
    tile_at (tiles (view (after [Click 1 1; Click 0 0; Exit] example_session))) 1 0
    = Ok t'
    /\ tile_x t' = tile_x (mark_as_mine (new_tile 1 0))
    /\ tile_y t' = tile_y (mark_as_mine (new_tile 1 0))
    /\ is_mine t' = is_mine (mark_as_mine (new_tile 1 0))
    /\ (revealed (mark_as_mine (new_tile 1 0)) = true -> revealed t' = true)
    /\ (disabled (mark_as_mine (new_tile 1 0)) = true -> disabled t' = true).
Proof.
  apply (mines_never_move [Click 1 1; Click 0 0; Exit] example_session 1 0
           (mark_as_mine (new_tile 1 0))).
  reflexivity.
Defined.

(* ===================================================================== *)
(** * Clicks outside the grid *)
(* ===================================================================== *)

Section OffGrid.

Lemma tile_at_off_grid (g : Grid) x y :
  coordinates g
  = map (fun x => map (fun y => (x, y)) (seq 0 (Z.to_nat GRID_HEIGHT)))
        (seq 0 (Z.to_nat GRID_WIDTH)) ->
  (Z.to_nat GRID_WIDTH <= x)%nat \/ (Z.to_nat GRID_HEIGHT <= y)%nat ->
  tile_at g x y = Raise IndexError.
Proof.
  intros Hshape Hout.
  change (Z.to_nat GRID_WIDTH) with 3%nat in *.
  change (Z.to_nat GRID_HEIGHT) with 3%nat in *.
  unfold tile_at.
  destruct (g !! x) as [column|] eqn:Hcolumn; [|reflexivity].
  assert (Hlookup : coordinates g !! x
                    = Some (map (fun t => (tile_x t, tile_y t)) column)).
  { unfold coordinates.
    change (map (map (fun t => (tile_x t, tile_y t))) g)
      with (map (fun t => (tile_x t, tile_y t)) <$> g).
    rewrite list_lookup_fmap, Hcolumn. reflexivity. }
  rewrite Hshape in Hlookup.
  destruct x as [|[|[|x]]]; [| | |discriminate];
    cbn in Hlookup; injection Hlookup as Hcol;
    apply (f_equal length) in Hcol; rewrite length_map in Hcol; cbn in Hcol;
    (destruct (column !! y) as [t|] eqn:Hy; [|reflexivity]);
    apply lookup_lt_Some in Hy; lia.
Qed.

End OffGrid.

(** X20: a click at coordinates outside the grid raises IndexError in a
    running game and leaves the session as it was; in a finished game it
    returns normally (the test of [game_over] comes before the lookup). *)
Theorem click_off_grid_raises s x y :
  reachable s ->
  (Z.to_nat GRID_WIDTH <= x)%nat \/ (Z.to_nat GRID_HEIGHT <= y)%nat ->
  process_tile_click x y s
  = (if game_over (view s) then Ok tt else Raise IndexError, s).
Proof.
  intros Hs Hout.
  destruct (game_over (view s)) eqn:Hgo.
  - apply click_terminal. exact Hgo.
  - pose proof (tile_at_off_grid (tiles (view s)) x y
                  (inv_shape s (reachable_board_inv s Hs)) Hout) as Htile.
    unfold process_tile_click. msimpl. rewrite Hgo, Htile. reflexivity.
Qed.

Lemma click_off_grid_raises_witness :
  process_tile_click 3 0 example_session
  = (if game_over (view example_session) then Ok tt else Raise IndexError,
     example_session).
Proof.
  apply (click_off_grid_raises example_session 3 0 example_session_reachable).
  left. apply Nat.leb_le. reflexivity.
Defined.
